(** * Doris BE: compaction scheduling and the transaction ledger

    A shallow embedding of

    - [be/src/olap/olap_server.cpp]: [StorageEngine::_generate_compaction_tasks],
      [_push_tablet_into_submitted_compaction],
      [_pop_tablet_from_submitted_compaction], [_submit_compaction_task];
    - [be/src/olap/txn_manager.cpp]: [TxnManager] and its operations.

    Hash maps and sets are stdpp's [gmap] and [gset]; C++ integers are [Z]
    with the conversions written out; collaborators whose code lives in other
    translation units are parameters of the functions that call them.  The
    mutexes are not modelled: an operation is a function of the state it
    starts in. *)

From Stdlib Require Import ZArith Lia.
From stdpp Require Import gmap list sorting.

Local Open Scope Z_scope.

(** ** Integer conversions of the C++ code *)

(** [size_t] is an unsigned 64-bit integer. *)
Definition to_uint64 (z : Z) : Z := z mod 2 ^ 64.

(** Conversion to [int] (32 bits, two's complement). *)
Definition to_int32 (z : Z) : Z := (z + 2 ^ 31) mod 2 ^ 32 - 2 ^ 31.

(** * Compaction scheduler (olap_server.cpp) *)

Module Compaction.

(** [enum CompactionType]. *)
Inductive CompactionType := BASE_COMPACTION | CUMULATIVE_COMPACTION.

#[global] Instance CompactionType_eq_dec : EqDecision CompactionType.
Proof. solve_decision. Defined.

Abbreviation TTabletId := Z.

(** A [DataDir*]: the maps of submitted tasks are keyed by the pointer. *)
Abbreviation DataDir := nat.

(** What the scheduler reads from a [TabletSharedPtr]. *)
Record Tablet := {
  tablet_id : TTabletId;
  data_dir : DataDir;
  (** [tablet_meta()->tablet_schema()->disable_auto_compaction()] *)
  disable_auto_compaction : bool
}.

(** [std::map<DataDir*, std::unordered_set<TTabletId>>] *)
Abbreviation submitted_map := (gmap DataDir (gset TTabletId)).

(** [m[data_dir]] on a map of sets: a missing key reads as the empty set. *)
Definition at_dir (m : submitted_map) (d : DataDir) : gset TTabletId :=
  default ∅ (m !! d).

(** ** [_generate_compaction_tasks] *)

(** Configuration and collaborators read by [_generate_compaction_tasks]. *)
Record GenerateEnv := {
  (** [config::compaction_task_num_per_fast_disk] and
      [config::compaction_task_num_per_disk] (32-bit integers). *)
  compaction_task_num_per_fast_disk : Z;
  compaction_task_num_per_disk : Z;
  (** [DataDir::is_ssd_disk()] and [DataDir::reach_capacity_limit(int64_t)]. *)
  is_ssd_disk : DataDir → bool;
  reach_capacity_limit : DataDir → Z → bool;
  (** [TabletManager::find_best_tablet_to_compaction]: the tablet found (or
      [nullptr]) and the value written to [disk_max_score]. *)
  find_best_tablet_to_compaction :
    CompactionType → DataDir → gset TTabletId → option Tablet * Z;
  (** [std::shuffle(data_dirs.begin(), data_dirs.end(), g)]: the order in
      which the round visits the directories. *)
  shuffle : list DataDir → list DataDir
}.

(** [int count = copied_cumu_map[data_dir].size() + copied_base_map[data_dir].size();] *)
Definition count (copied_cumu_map copied_base_map : submitted_map)
    (data_dir : DataDir) : Z :=
  to_int32 (to_uint64 (Z.of_nat (size (at_dir copied_cumu_map data_dir))
                       + Z.of_nat (size (at_dir copied_base_map data_dir)))).

Definition thread_per_disk (env : GenerateEnv) (data_dir : DataDir) : Z :=
  if is_ssd_disk env data_dir then compaction_task_num_per_fast_disk env
  else compaction_task_num_per_disk env.

(** Lines 529-554: the slot test at the head of the loop body.  The first
    component is [need_pick_tablet], the second tells whether the body
    runs [continue].  [thread_per_disk - 1] is computed on [int]. *)
Definition slot_check (env : GenerateEnv) (compaction_type : CompactionType)
    (check_score : bool) (copied_cumu_map copied_base_map : submitted_map)
    (data_dir : DataDir) : bool * bool :=
  let count := count copied_cumu_map copied_base_map data_dir in
  let thread_per_disk := thread_per_disk env data_dir in
  if bool_decide (count >= thread_per_disk) then
    (false, negb check_score)
  else if bool_decide (count >= thread_per_disk - 1) then
    match compaction_type with
    | BASE_COMPACTION =>
        if bool_decide (at_dir copied_cumu_map data_dir = ∅) then
          (false, negb check_score)
        else (true, false)
    | CUMULATIVE_COMPACTION => (true, false)
    end
  else (true, false).

(** Lines 528-580: one iteration of [for (auto data_dir : data_dirs)].
    The accumulator is [(tablets_compaction, max_compaction_score)]. *)
Definition generate_step (env : GenerateEnv) (compaction_type : CompactionType)
    (check_score : bool) (copied_cumu_map copied_base_map : submitted_map)
    (acc : list Tablet * Z) (data_dir : DataDir) : list Tablet * Z :=
  let '(tablets_compaction, max_compaction_score) := acc in
  let '(need_pick_tablet, continue) :=
    slot_check env compaction_type check_score copied_cumu_map copied_base_map
      data_dir in
  if continue then acc
  else if reach_capacity_limit env data_dir 0 then acc
  else
    let '(tablet, disk_max_score) :=
      find_best_tablet_to_compaction env compaction_type data_dir
        (match compaction_type with
         | CUMULATIVE_COMPACTION => at_dir copied_cumu_map data_dir
         | BASE_COMPACTION => at_dir copied_base_map data_dir
         end) in
    match tablet with
    | Some tablet =>
        if negb (disable_auto_compaction tablet) then
          ((if need_pick_tablet then tablets_compaction ++ [tablet]
            else tablets_compaction),
           Z.max max_compaction_score disk_max_score)
        else acc
    | None => acc
    end.

Definition generate_loop (env : GenerateEnv) compaction_type check_score
    (copied_cumu_map copied_base_map : submitted_map)
    (acc : list Tablet * Z) (data_dirs : list DataDir) : list Tablet * Z :=
  foldl (generate_step env compaction_type check_score copied_cumu_map
           copied_base_map) acc data_dirs.

(** [_generate_compaction_tasks]: the tablets picked, and the value the
    round writes to the max-compaction-score metric of its class (nothing
    when the maximum is 0).  [copied_cumu_map] and [copied_base_map] are
    the snapshots of the submitted maps taken under the mutex. *)
Definition _generate_compaction_tasks (env : GenerateEnv)
    (compaction_type : CompactionType) (data_dirs : list DataDir)
    (check_score : bool) (copied_cumu_map copied_base_map : submitted_map)
    : list Tablet * option Z :=
  let '(tablets_compaction, max_compaction_score) :=
    generate_loop env compaction_type check_score copied_cumu_map
      copied_base_map ([], 0) (shuffle env data_dirs) in
  (tablets_compaction,
   if bool_decide (max_compaction_score > 0) then Some max_compaction_score
   else None).

(** ** Submission of a compaction task *)

(** The calls made on [_permit_limiter], in order. *)
Inductive PermitCall := Request (permits : Z) | Release (permits : Z).

(** The calls made on the tablet by the scheduler, in order. *)
Inductive TabletCall :=
| ExecuteCompaction (t : TTabletId) (ty : CompactionType)
| ResetCompaction (t : TTabletId) (ty : CompactionType).

(** The closure handed to [ThreadPool::submit_func]; it captures
    [tablet, compaction_type, permits]. *)
Record Task := {
  task_tablet : Tablet;
  task_type : CompactionType;
  task_permits : Z
}.

(** The part of [StorageEngine] the submission path reads and writes. *)
Record StorageEngine := {
  _tablet_submitted_cumu_compaction : submitted_map;
  _tablet_submitted_base_compaction : submitted_map;
  _permit_limiter : list PermitCall;
  _cumu_compaction_thread_pool : list Task;
  _base_compaction_thread_pool : list Task;
  _wakeup_producer_flag : Z;
  tablet_calls : list TabletCall
}.

Inductive Status := OK | AlreadyExist | InternalError.

Definition set_cumu (f : submitted_map → submitted_map) (e : StorageEngine) :=
  {| _tablet_submitted_cumu_compaction := f (_tablet_submitted_cumu_compaction e);
     _tablet_submitted_base_compaction := _tablet_submitted_base_compaction e;
     _permit_limiter := _permit_limiter e;
     _cumu_compaction_thread_pool := _cumu_compaction_thread_pool e;
     _base_compaction_thread_pool := _base_compaction_thread_pool e;
     _wakeup_producer_flag := _wakeup_producer_flag e;
     tablet_calls := tablet_calls e |}.

Definition set_base (f : submitted_map → submitted_map) (e : StorageEngine) :=
  {| _tablet_submitted_cumu_compaction := _tablet_submitted_cumu_compaction e;
     _tablet_submitted_base_compaction := f (_tablet_submitted_base_compaction e);
     _permit_limiter := _permit_limiter e;
     _cumu_compaction_thread_pool := _cumu_compaction_thread_pool e;
     _base_compaction_thread_pool := _base_compaction_thread_pool e;
     _wakeup_producer_flag := _wakeup_producer_flag e;
     tablet_calls := tablet_calls e |}.

Definition permit_call (c : PermitCall) (e : StorageEngine) :=
  {| _tablet_submitted_cumu_compaction := _tablet_submitted_cumu_compaction e;
     _tablet_submitted_base_compaction := _tablet_submitted_base_compaction e;
     _permit_limiter := _permit_limiter e ++ [c];
     _cumu_compaction_thread_pool := _cumu_compaction_thread_pool e;
     _base_compaction_thread_pool := _base_compaction_thread_pool e;
     _wakeup_producer_flag := _wakeup_producer_flag e;
     tablet_calls := tablet_calls e |}.

Definition tablet_call (c : TabletCall) (e : StorageEngine) :=
  {| _tablet_submitted_cumu_compaction := _tablet_submitted_cumu_compaction e;
     _tablet_submitted_base_compaction := _tablet_submitted_base_compaction e;
     _permit_limiter := _permit_limiter e;
     _cumu_compaction_thread_pool := _cumu_compaction_thread_pool e;
     _base_compaction_thread_pool := _base_compaction_thread_pool e;
     _wakeup_producer_flag := _wakeup_producer_flag e;
     tablet_calls := tablet_calls e ++ [c] |}.

Definition set_wakeup (v : Z) (e : StorageEngine) :=
  {| _tablet_submitted_cumu_compaction := _tablet_submitted_cumu_compaction e;
     _tablet_submitted_base_compaction := _tablet_submitted_base_compaction e;
     _permit_limiter := _permit_limiter e;
     _cumu_compaction_thread_pool := _cumu_compaction_thread_pool e;
     _base_compaction_thread_pool := _base_compaction_thread_pool e;
     _wakeup_producer_flag := v;
     tablet_calls := tablet_calls e |}.

Definition set_pools (cumu base : list Task) (e : StorageEngine) :=
  {| _tablet_submitted_cumu_compaction := _tablet_submitted_cumu_compaction e;
     _tablet_submitted_base_compaction := _tablet_submitted_base_compaction e;
     _permit_limiter := _permit_limiter e;
     _cumu_compaction_thread_pool := cumu;
     _base_compaction_thread_pool := base;
     _wakeup_producer_flag := _wakeup_producer_flag e;
     tablet_calls := tablet_calls e |}.

(** [m[dir].insert(id)]: the set under [dir] (created when missing) gains [id]. *)
Definition insert_submitted (d : DataDir) (id : TTabletId) (m : submitted_map) :=
  <[d := {[id]} ∪ at_dir m d]> m.

(** [m[dir].erase(id)] *)
Definition erase_submitted (d : DataDir) (id : TTabletId) (m : submitted_map) :=
  <[d := at_dir m d ∖ {[id]}]> m.

(** [_push_tablet_into_submitted_compaction]: returns [already_existed]. *)
Definition _push_tablet_into_submitted_compaction (tablet : Tablet)
    (compaction_type : CompactionType) (e : StorageEngine) : bool * StorageEngine :=
  match compaction_type with
  | CUMULATIVE_COMPACTION =>
      (bool_decide (tablet_id tablet ∈
                      at_dir (_tablet_submitted_cumu_compaction e) (data_dir tablet)),
       set_cumu (insert_submitted (data_dir tablet) (tablet_id tablet)) e)
  | _ =>
      (bool_decide (tablet_id tablet ∈
                      at_dir (_tablet_submitted_base_compaction e) (data_dir tablet)),
       set_base (insert_submitted (data_dir tablet) (tablet_id tablet)) e)
  end.

(** [_pop_tablet_from_submitted_compaction] *)
Definition _pop_tablet_from_submitted_compaction (tablet : Tablet)
    (compaction_type : CompactionType) (e : StorageEngine) : StorageEngine :=
  let '(removed, e1) :=
    match compaction_type with
    | CUMULATIVE_COMPACTION =>
        (bool_decide (tablet_id tablet ∈
                        at_dir (_tablet_submitted_cumu_compaction e) (data_dir tablet)),
         set_cumu (erase_submitted (data_dir tablet) (tablet_id tablet)) e)
    | _ =>
        (bool_decide (tablet_id tablet ∈
                        at_dir (_tablet_submitted_base_compaction e) (data_dir tablet)),
         set_base (erase_submitted (data_dir tablet) (tablet_id tablet)) e)
    end in
  if removed then set_wakeup 1 e1 else e1.

(** The body of the lambda of lines 658-664, run by a pool thread. *)
Definition run_task (t : Task) (e : StorageEngine) : StorageEngine :=
  let e := tablet_call (ExecuteCompaction (tablet_id (task_tablet t)) (task_type t)) e in
  let e := permit_call (Release (task_permits t)) e in
  let e := tablet_call (ResetCompaction (tablet_id (task_tablet t)) (task_type t)) e in
  _pop_tablet_from_submitted_compaction (task_tablet t) (task_type t) e.

(** [thread_pool->submit_func(...)]: on success the closure is queued. *)
Definition submit_func (compaction_type : CompactionType) (t : Task)
    (e : StorageEngine) : StorageEngine :=
  match compaction_type with
  | CUMULATIVE_COMPACTION =>
      set_pools (_cumu_compaction_thread_pool e ++ [t]) (_base_compaction_thread_pool e) e
  | _ =>
      set_pools (_cumu_compaction_thread_pool e) (_base_compaction_thread_pool e ++ [t]) e
  end.

(** [_submit_compaction_task].  [prepare] is what
    [tablet->prepare_compaction_and_calculate_permits] returns (status ok,
    and the value left in [permits]); [submit_ok] tells whether the pool
    accepts the closure. *)
Definition _submit_compaction_task (prepare : bool * Z) (submit_ok : bool)
    (tablet : Tablet) (compaction_type : CompactionType) (force : bool)
    (e : StorageEngine) : Status * StorageEngine :=
  let '(already_exist, e) :=
    _push_tablet_into_submitted_compaction tablet compaction_type e in
  if already_exist then (AlreadyExist, e)
  else
    let '(st_ok, permits) := prepare in
    if st_ok && bool_decide (permits > 0) then
      let e := if negb force then permit_call (Request permits) e else e in
      if submit_ok then
        (OK, submit_func compaction_type
               {| task_tablet := tablet; task_type := compaction_type;
                  task_permits := permits |} e)
      else
        let e := permit_call (Release permits) e in
        let e := tablet_call (ResetCompaction (tablet_id tablet) compaction_type) e in
        let e := _pop_tablet_from_submitted_compaction tablet compaction_type e in
        (InternalError, e)
    else
      let e := tablet_call (ResetCompaction (tablet_id tablet) compaction_type) e in
      let e := _pop_tablet_from_submitted_compaction tablet compaction_type e in
      if negb st_ok then (InternalError, e) else (OK, e).

(** The pool threads run every queued closure. *)
Definition drain_pools (e : StorageEngine) : StorageEngine :=
  let tasks := _cumu_compaction_thread_pool e ++ _base_compaction_thread_pool e in
  foldl (λ e t, run_task t e) (set_pools [] [] e) tasks.

(** One run of the submission: the call, then the pool executes what was
    queued. *)
Definition submission_run prepare submit_ok tablet compaction_type force e :=
  let '(st, e) :=
    _submit_compaction_task prepare submit_ok tablet compaction_type force e in
  (st, drain_pools e).

Definition requests (l : list PermitCall) : list Z :=
  omap (λ c, match c with Request n => Some n | Release _ => None end) l.

Definition releases (l : list PermitCall) : list Z :=
  omap (λ c, match c with Release n => Some n | Request _ => None end) l.

Definition engine0 : StorageEngine :=
  {| _tablet_submitted_cumu_compaction := ∅;
     _tablet_submitted_base_compaction := ∅;
     _permit_limiter := [];
     _cumu_compaction_thread_pool := [];
     _base_compaction_thread_pool := [];
     _wakeup_producer_flag := 0;
     tablet_calls := [] |}.

(** ** Scenarios and auxiliary definitions *)

(** What one directory adds to [tablets_compaction]. *)
Definition step_pick (env : GenerateEnv) compaction_type check_score
    (cumu base : submitted_map) (d : DataDir) : list Tablet :=
  (generate_step env compaction_type check_score cumu base ([], 0) d).1.

(** The scenario of the specification: one directory (a hard disk), two
    slots per disk, and a best candidate, tablet 9, for either class. *)
Definition tablet9 : Tablet :=
  {| tablet_id := 9; data_dir := 0%nat; disable_auto_compaction := false |}.

Definition env2 : GenerateEnv :=
  {| compaction_task_num_per_fast_disk := 4;
     compaction_task_num_per_disk := 2;
     is_ssd_disk := λ _, false;
     reach_capacity_limit := λ _ _, false;
     find_best_tablet_to_compaction := λ _ _ _, (Some tablet9, 30);
     shuffle := λ l, l |}.

(** Tablet 7 is under cumulative compaction on directory 0. *)
Definition one_cumu_running : submitted_map := {[ 0%nat := {[ 7 ]} ]}.

(** Tablet 7 is under base compaction on directory 0. *)
Definition one_base_running : submitted_map := {[ 0%nat := {[ 7 ]} ]}.

(** A forced submission of tablet 9, whose preparation succeeds
    with 5 permits. *)
Definition forced_run (submit_ok : bool) : Status * StorageEngine :=
  submission_run (true, 5) submit_ok tablet9 CUMULATIVE_COMPACTION true engine0.

(** ** Pool threads *)

(** A thread of a pool takes the closure at the head of the queue and runs
    it. *)
Definition run_next_cumu (e : StorageEngine) : StorageEngine :=
  match _cumu_compaction_thread_pool e with
  | t :: rest => run_task t (set_pools rest (_base_compaction_thread_pool e) e)
  | [] => e
  end.

Definition run_next_base (e : StorageEngine) : StorageEngine :=
  match _base_compaction_thread_pool e with
  | t :: rest => run_task t (set_pools (_cumu_compaction_thread_pool e) rest e)
  | [] => e
  end.

(** ** [_compaction_tasks_producer_callback] *)

(** The locals of the loop that survive an iteration. *)
Record ProducerState := {
  round : Z;
  last_cumulative_score_update_time : Z;
  last_base_score_update_time : Z
}.

Definition check_score_interval_ms : Z := 5000.

(** Lines 448-462: the class of the round and [check_score].  [rounds] is
    [config::cumulative_compaction_rounds_for_each_base_compaction_round],
    [cur_time] is [UnixMillis()]. *)
Definition choose_round (rounds : Z) (cur_time : Z) (s : ProducerState)
    : CompactionType * bool * ProducerState :=
  if bool_decide (round s < rounds) then
    let check_score :=
      bool_decide (cur_time - last_cumulative_score_update_time s
                   >= check_score_interval_ms) in
    (CUMULATIVE_COMPACTION, check_score,
     {| round := round s + 1;
        last_cumulative_score_update_time :=
          if check_score then cur_time else last_cumulative_score_update_time s;
        last_base_score_update_time := last_base_score_update_time s |})
  else
    let check_score :=
      bool_decide (cur_time - last_base_score_update_time s
                   >= check_score_interval_ms) in
    (BASE_COMPACTION, check_score,
     {| round := 0;
        last_cumulative_score_update_time := last_cumulative_score_update_time s;
        last_base_score_update_time :=
          if check_score then cur_time else last_base_score_update_time s |}).

(** Configuration and collaborators of one iteration of the producer. *)
Record ProducerEnv := {
  (** [config::disable_auto_compaction] *)
  disable_auto_compaction_config : bool;
  (** [config::cumulative_compaction_rounds_for_each_base_compaction_round] *)
  cumulative_rounds : Z;
  generate_env : GenerateEnv;
  (** [tablet->prepare_compaction_and_calculate_permits(type, tablet, &permits)] *)
  prepare_compaction_and_calculate_permits :
    Tablet → CompactionType → bool * Z;
  (** whether [thread_pool->submit_func] accepts the closure of a tablet *)
  pool_accepts : Tablet → CompactionType → bool
}.

(** Lines 495-501: the tablets of the round are submitted without [force];
    a failed submission is logged. *)
Definition submit_round (env : ProducerEnv) (compaction_type : CompactionType)
    (tablets_compaction : list Tablet) (e : StorageEngine) : StorageEngine :=
  foldl (λ e tablet,
           (_submit_compaction_task
              (prepare_compaction_and_calculate_permits env tablet compaction_type)
              (pool_accepts env tablet compaction_type)
              tablet compaction_type false e).2)
    e tablets_compaction.

(** Lines 443-505, the body of the loop of the producer: the class chosen
    (none when automatic compaction is disabled), and the state the
    iteration leaves.  [data_dirs] is shuffled in place by
    [_generate_compaction_tasks]; with no tablet to compact the producer
    resets [_wakeup_producer_flag] and sleeps. *)
Definition producer_iteration (env : ProducerEnv) (cur_time : Z)
    (st : ProducerState * list DataDir * StorageEngine)
    : option CompactionType * (ProducerState * list DataDir * StorageEngine) :=
  let '(s, data_dirs, e) := st in
  if disable_auto_compaction_config env then (None, st)
  else
    let '(compaction_type, check_score, s) :=
      choose_round (cumulative_rounds env) cur_time s in
    let '(tablets_compaction, _) :=
      _generate_compaction_tasks (generate_env env) compaction_type data_dirs
        check_score (_tablet_submitted_cumu_compaction e)
        (_tablet_submitted_base_compaction e) in
    let data_dirs := shuffle (generate_env env) data_dirs in
    if bool_decide (tablets_compaction = []) then
      (Some compaction_type, (s, data_dirs, set_wakeup 0 e))
    else
      (Some compaction_type,
       (s, data_dirs, submit_round env compaction_type tablets_compaction e)).

(** The classes chosen by successive iterations of the producer, one per
    clock reading. *)
Fixpoint producer_classes (env : ProducerEnv) (times : list Z)
    (st : ProducerState * list DataDir * StorageEngine)
    : list (option CompactionType) :=
  match times with
  | [] => []
  | cur_time :: times =>
      let '(c, st) := producer_iteration env cur_time st in
      c :: producer_classes env times st
  end.

(** The states the engine goes through when every submission is made
    without [force]: iterations of the producer, submissions through
    [submit_compaction_task(tablet, type, false)], and pool threads running
    queued closures. *)
Inductive unforced : StorageEngine → Prop :=
| unforced_start : unforced engine0
| unforced_submit e prepare submit_ok tablet ty :
    unforced e →
    unforced (_submit_compaction_task prepare submit_ok tablet ty false e).2
| unforced_produce e env cur_time s data_dirs :
    unforced e →
    unforced (producer_iteration env cur_time (s, data_dirs, e)).2.2
| unforced_run_cumu e : unforced e → unforced (run_next_cumu e)
| unforced_run_base e : unforced e → unforced (run_next_base e).

(** ** [_garbage_sweeper_thread_callback] *)

(** Conversion to [uint32_t]. *)
Definition to_uint32 (z : Z) : Z := z mod 2 ^ 32.

(** Lines 241-252: [(max_interval, min_interval)] after the check of the
    configured values [config::max_garbage_sweep_interval] and
    [config::min_garbage_sweep_interval]. *)
Definition garbage_sweep_intervals (max_config min_config : Z) : Z * Z :=
  let max_interval := to_uint32 max_config in
  let min_interval := to_uint32 min_config in
  if negb (bool_decide (max_interval >= min_interval)
           && bool_decide (min_interval > 0)) then
    let min_interval := 1 in
    let max_interval :=
      if bool_decide (max_interval >= min_interval) then max_interval
      else min_interval in
    (max_interval, min_interval)
  else (max_interval, min_interval).

(** Lines 267-268, the clamp of the interval computed in the loop body:
    [curr_interval = std::max(curr_interval, min_interval);
     curr_interval = std::min(curr_interval, max_interval);] *)
Definition clamp_interval (curr_interval max_interval min_interval : Z) : Z :=
  Z.min (Z.max curr_interval min_interval) max_interval.

(** The floating-point part of the loop and the sweep itself, over a type
    [U] of disk usages. *)
Record SweeperEnv (U : Type) := {
  (** [double usage = 1.0;] *)
  initial_usage : U;
  (** [uint32_t curr_interval = max_interval * ratio;] for the [ratio] line
      264 computes from [usage] *)
  scaled_interval : Z → U → Z;
  (** [start_trash_sweep(&usage)]: the usage it writes back *)
  start_trash_sweep : U → U
}.

Arguments initial_usage {U}.
Arguments scaled_interval {U}.
Arguments start_trash_sweep {U}.

(** What the sweeper thread does, in order. *)
Inductive SweeperEvent :=
(** [_stop_background_threads_latch.wait_for(std::chrono::seconds(s))] *)
| SweeperWait (s : Z)
(** a run of the loop body; [interval] is the value of the [curr_interval]
    declared in the body *)
| SweeperSweep (interval : Z).

(** Lines 257-277: the loop.  [latch] lists what the successive calls of
    [wait_for] return.  The [curr_interval] of the loop condition is the one
    declared before the loop; the body declares its own. *)
Fixpoint sweeper_loop {U} (env : SweeperEnv U) (latch : list bool) (usage : U)
    (curr_interval max_interval min_interval : Z) : list SweeperEvent :=
  match latch with
  | [] => []
  | stopped :: latch =>
      SweeperWait curr_interval ::
      (if stopped then []
       else
         let body_interval :=
           clamp_interval (to_uint32 (scaled_interval env max_interval usage))
             max_interval min_interval in
         SweeperSweep body_interval ::
         sweeper_loop env latch (start_trash_sweep env usage)
           curr_interval max_interval min_interval)
  end.

(** [_garbage_sweeper_thread_callback] *)
Definition _garbage_sweeper_thread_callback {U} (env : SweeperEnv U)
    (max_config min_config : Z) (latch : list bool) : list SweeperEvent :=
  let '(max_interval, min_interval) :=
    garbage_sweep_intervals max_config min_config in
  sweeper_loop env latch (initial_usage env) min_interval max_interval
    min_interval.

(** ** [_cold_data_compaction_producer_callback] *)

(** What the producer reads from a tablet. *)
Record ColdTablet := {
  cold_tablet_id : Z;
  cold_table_id : Z;
  (** [tablet_meta()->cooldown_meta_id().initialized()] *)
  cooldown_meta_initialized : bool;
  is_used : bool;
  (** [tablet_state() == TABLET_RUNNING] *)
  tablet_running : bool;
  (** [tablet_meta()->tablet_schema()->disable_auto_compaction()] *)
  cold_disable_auto_compaction : bool;
  (** [replica_id() == cooldown_conf_unlocked().first] *)
  is_cooldown_replica : bool;
  (** [calc_cold_data_compaction_score()] *)
  cold_data_compaction_score : Z
}.

(** The filter handed to [get_all_tablet] (lines 818-823). *)
Definition cold_filter (copied_tablet_submitted : gset Z) (t : ColdTablet) : bool :=
  cooldown_meta_initialized t && is_used t && tablet_running t
  && negb (bool_decide (cold_tablet_id t ∈ copied_tablet_submitted))
  && negb (cold_disable_auto_compaction t).

(** [emplace_back(t, score); std::sort(..., a.second > b.second);
    if (size() > n) pop_back();]  [sort] is [std::sort] with that
    comparator. *)
Definition keep_top (sort : list (ColdTablet * Z) → list (ColdTablet * Z))
    (n : Z) (l : list (ColdTablet * Z)) (x : ColdTablet * Z)
    : list (ColdTablet * Z) :=
  let l := sort (l ++ [x]) in
  if bool_decide (Z.of_nat (length l) > to_uint64 n) then removelast l else l.

(** Lines 829-855: one iteration of [for (auto& t : tablets)]; the
    accumulator is [(tablet_to_compact, tablet_to_follow)]. *)
Definition cold_step (sort : list (ColdTablet * Z) → list (ColdTablet * Z))
    (n : Z) (_running_cooldown_tablets : gset Z)
    (acc : list (ColdTablet * Z) * list (ColdTablet * Z)) (t : ColdTablet)
    : list (ColdTablet * Z) * list (ColdTablet * Z) :=
  let '(tablet_to_compact, tablet_to_follow) := acc in
  if is_cooldown_replica t then
    let score := cold_data_compaction_score t in
    if bool_decide (score < 4) then acc
    else (keep_top sort n tablet_to_compact (t, score), tablet_to_follow)
  else if bool_decide (cold_table_id t ∈ _running_cooldown_tablets) then acc
  else
    let score := cold_data_compaction_score t in
    (tablet_to_compact, keep_top sort n tablet_to_follow (t, score)).

(** Modelled from the spec: [TabletManager::get_all_tablet(filter)] returns
    the tablets that match the predicate ("get_tablets_matching(predicate)");
    [all_tablets] lists the tablets of the manager in the order it visits
    them.

    Lines 805-855 of [_cold_data_compaction_producer_callback]: the tablets
    to compact and the tablets to follow of one round, [None] when the
    round is skipped.  [thread_num] is
    [config::cold_data_compaction_thread_num]. *)
Definition cold_data_compaction_select
    (sort : list (ColdTablet * Z) → list (ColdTablet * Z))
    (disable_auto_compaction_config : bool) (thread_num : Z)
    (copied_tablet_submitted : gset Z) (_running_cooldown_tablets : gset Z)
    (all_tablets : list ColdTablet)
    : option (list (ColdTablet * Z) * list (ColdTablet * Z)) :=
  if disable_auto_compaction_config then None
  else
    let n := to_int32 (to_uint64 (thread_num
                                  - Z.of_nat (size copied_tablet_submitted))) in
    if bool_decide (n <= 0) then None
    else
      let tablets := filter (λ t, cold_filter copied_tablet_submitted t = true)
                       all_tablets in
      Some (foldl (cold_step sort n _running_cooldown_tablets) ([], []) tablets).

(** The order [std::sort] leaves with the comparator [a.second > b.second]. *)
Definition score_ge (a b : ColdTablet * Z) : Prop := a.2 >= b.2.

(** ** [_cooldown_tasks_producer_callback] *)

Record CooldownTablet := {
  cooldown_tablet_id : Z;
  last_failed_follow_cooldown_time : Z;
  (** [TABLET_RUNNING == tablet_state()] *)
  cooldown_tablet_running : bool
}.

(** The lambda [skip_tablet] (lines 748-755). *)
Definition skip_tablet (skip_failed_interval cur_time : Z)
    (_running_cooldown_tablets : gset Z) (tablet : CooldownTablet) : bool :=
  bool_decide (cur_time - last_failed_follow_cooldown_time tablet
               < skip_failed_interval)
  || negb (cooldown_tablet_running tablet)
  || bool_decide (cooldown_tablet_id tablet ∈ _running_cooldown_tablets).

(** A [PriorityThreadPool::Task]: its work function cools the tablet down. *)
Record CooldownTask := {
  task_cooldown_tablet : CooldownTablet;
  priority : Z
}.

(** The part of the engine the cooldown producer works on. *)
Record CooldownState := {
  _running_cooldown_tablets : gset Z;
  _cooldown_thread_pool : list CooldownTask
}.

(** Lines 759-787: the body of [for (const auto& tablet : tablets)], with
    [max_priority] threaded through; [offer] is
    [_cooldown_thread_pool->offer]. *)
Definition cooldown_submit (offer : CooldownTask → bool)
    (acc : Z * CooldownState) (tablet : CooldownTablet) : Z * CooldownState :=
  let '(max_priority, s) := acc in
  let running := {[cooldown_tablet_id tablet]} ∪ _running_cooldown_tablets s in
  let task := {| task_cooldown_tablet := tablet; priority := max_priority |} in
  (max_priority - 1,
   {| _running_cooldown_tablets := running;
      _cooldown_thread_pool :=
        if offer task then _cooldown_thread_pool s ++ [task]
        else _cooldown_thread_pool s |}).

(** One round of the producer (lines 741-788).  [get_cooldown_tablets] is
    [TabletManager::get_cooldown_tablets], given the predicate
    [skip_tablet]; [int max_priority = tablets.size();]. *)
Definition cooldown_round
    (get_cooldown_tablets : (CooldownTablet → bool) → list CooldownTablet)
    (offer : CooldownTask → bool) (interval cur_time : Z) (s : CooldownState)
    : CooldownState :=
  let skip_failed_interval := interval * 10 in
  let tablets :=
    get_cooldown_tablets
      (skip_tablet skip_failed_interval cur_time (_running_cooldown_tablets s)) in
  (foldl (cooldown_submit offer) (to_int32 (Z.of_nat (length tablets)), s)
     tablets).2.

(** The work function of a task: [tablet->cooldown()], then the tablet
    leaves [_running_cooldown_tablets]. *)
Definition run_cooldown_task (task : CooldownTask) (s : CooldownState)
    : CooldownState :=
  {| _running_cooldown_tablets :=
       _running_cooldown_tablets s
       ∖ {[cooldown_tablet_id (task_cooldown_tablet task)]};
     _cooldown_thread_pool := _cooldown_thread_pool s |}.

(** The pool runs every queued task. *)
Definition drain_cooldown_pool (s : CooldownState) : CooldownState :=
  foldl (λ s task, run_cooldown_task task s)
    {| _running_cooldown_tablets := _running_cooldown_tablets s;
       _cooldown_thread_pool := [] |}
    (_cooldown_thread_pool s).

(** ** Scenarios of the producers *)

(** A producer over [env2]: two cumulative rounds for each base round, every
    preparation succeeds with 5 permits and the pools accept every closure. *)
Definition producer_env2 : ProducerEnv :=
  {| disable_auto_compaction_config := false;
     cumulative_rounds := 2;
     generate_env := env2;
     prepare_compaction_and_calculate_permits := λ _ _, (true, 5);
     pool_accepts := λ _ _, true |}.

(** The locals of the producer when its loop starts (lines 429-438). *)
Definition producer_state0 : ProducerState :=
  {| round := 0;
     last_cumulative_score_update_time := 0;
     last_base_score_update_time := 0 |}.

(** A sweeper whose usage is a percentage; the interval of the body
    shrinks linearly with it (a stand-in for the curve of line 264), and
    every sweep leaves the disk half full. *)
Definition sweeper_env_pct : SweeperEnv Z :=
  {| initial_usage := 100;
     scaled_interval := λ max_interval usage, max_interval * (100 - usage) / 100;
     start_trash_sweep := λ _, 50 |}.

(** The entries [tablet_to_compact] is offered, in order: the replicas in
    charge of the cooldown whose score is at least 4. *)
Definition compact_candidates (tablets : list ColdTablet)
    : list (ColdTablet * Z) :=
  omap (λ t, if is_cooldown_replica t
                && negb (bool_decide (cold_data_compaction_score t < 4))
             then Some (t, cold_data_compaction_score t) else None) tablets.

(** The entries [tablet_to_follow] is offered, in order. *)
Definition follow_candidates (_running_cooldown_tablets : gset Z)
    (tablets : list ColdTablet) : list (ColdTablet * Z) :=
  omap (λ t, if negb (is_cooldown_replica t)
                && negb (bool_decide (cold_table_id t ∈ _running_cooldown_tablets))
             then Some (t, cold_data_compaction_score t) else None) tablets.

(** [kept] holds the [n] best entries of [candidates], best first. *)
Definition is_top_n (n : Z) (candidates kept : list (ColdTablet * Z)) : Prop :=
  StronglySorted score_ge kept
  ∧ length kept = Nat.min (Z.to_nat n) (length candidates)
  ∧ ∃ dropped,
      kept ++ dropped ≡ₚ candidates
      ∧ ∀ x d, x ∈ kept → d ∈ dropped → x.2 >= d.2.

#[global] Instance score_ge_dec : RelDecision score_ge :=
  λ a b, decide (a.2 >= b.2).

(** A sort by decreasing score. *)
Definition sort_by_score : list (ColdTablet * Z) → list (ColdTablet * Z) :=
  merge_sort score_ge.

(** A running tablet with cooldown metadata. *)
Definition cold_tablet (id score : Z) (replica : bool) : ColdTablet :=
  {| cold_tablet_id := id;
     cold_table_id := 1;
     cooldown_meta_initialized := true;
     is_used := true;
     tablet_running := true;
     cold_disable_auto_compaction := false;
     is_cooldown_replica := replica;
     cold_data_compaction_score := score |}.

Definition cold_tablets0 : list ColdTablet :=
  [cold_tablet 1 5 true; cold_tablet 2 9 true; cold_tablet 3 7 true;
   cold_tablet 4 6 false].

(** The tasks a round of the cooldown producer builds for [tablets], the
    first with priority [max_priority]. *)
Definition cooldown_tasks (max_priority : Z) (tablets : list CooldownTablet)
    : list CooldownTask :=
  imap (λ i tablet, {| task_cooldown_tablet := tablet;
                       priority := max_priority - Z.of_nat i |}) tablets.

Definition cooldown_tablet (id : Z) : CooldownTablet :=
  {| cooldown_tablet_id := id;
     last_failed_follow_cooldown_time := 0;
     cooldown_tablet_running := true |}.

(** A tablet manager with tablets 1 and 2, which hands out those its
    argument does not skip. *)
Definition cooldown_tablets0 (skip : CooldownTablet → bool)
    : list CooldownTablet :=
  filter (λ t, skip t = false) [cooldown_tablet 1; cooldown_tablet 2].

Definition cooldown_state0 : CooldownState :=
  {| _running_cooldown_tablets := ∅; _cooldown_thread_pool := [] |}.

(** ** Observations on the engine *)

(** The map of submitted tablets of a class, as the [switch] of
    [_push_tablet_into_submitted_compaction] selects it. *)
Definition submitted_compaction (compaction_type : CompactionType)
    (e : StorageEngine) : submitted_map :=
  match compaction_type with
  | CUMULATIVE_COMPACTION => _tablet_submitted_cumu_compaction e
  | _ => _tablet_submitted_base_compaction e
  end.

(** The permits captured by the closures waiting in the pools. *)
Definition queued_permits (e : StorageEngine) : list Z :=
  map task_permits
    (_cumu_compaction_thread_pool e ++ _base_compaction_thread_pool e).

(** The permits requested from [_permit_limiter] are the permits released
    so far together with those the queued closures still hold. *)
Definition permits_balanced (e : StorageEngine) : Prop :=
  requests (_permit_limiter e)
  ≡ₚ releases (_permit_limiter e) ++ queued_permits e.

End Compaction.

(** * Transaction ledger (txn_manager.cpp) *)

Module Ledger.

Abbreviation TPartitionId := Z.
Abbreviation TTransactionId := Z.
Abbreviation TTabletId := Z.
Abbreviation SchemaHash := Z.
Abbreviation RowsetId := Z.

(** [TabletUid] and [PUniqueId]: 128 bits as two 64-bit halves. *)
Record TabletUid := { uid_hi : Z; uid_lo : Z }.
Record PUniqueId := { hi : Z; lo : Z }.

(** [Version]: the pair [(first, second)]. *)
Abbreviation Version := (Z * Z)%type.

(** [TxnKey = std::pair<int64_t, int64_t>]: [(partition_id, transaction_id)]. *)
Abbreviation TxnKey := (Z * Z)%type.

(** [TabletInfo(tablet_id, schema_hash, tablet_uid)] *)
Record TabletInfo := {
  tablet_id : TTabletId;
  schema_hash : SchemaHash;
  tablet_uid : TabletUid
}.

#[global] Instance TabletUid_eq_dec : EqDecision TabletUid.
Proof. solve_decision. Defined.

#[global] Instance PUniqueId_eq_dec : EqDecision PUniqueId.
Proof. solve_decision. Defined.

#[global] Instance TabletInfo_eq_dec : EqDecision TabletInfo.
Proof. solve_decision. Defined.

#[global] Instance TabletInfo_countable : Countable TabletInfo.
Proof.
  refine (inj_countable'
            (λ t, (tablet_id t, schema_hash t,
                   (uid_hi (tablet_uid t), uid_lo (tablet_uid t))))
            (λ '(a, b, (c, d)),
               {| tablet_id := a; schema_hash := b;
                  tablet_uid := {| uid_hi := c; uid_lo := d |} |}) _).
  by intros [? ? []].
Defined.

(** A [RowsetSharedPtr] is an address in the store of rowset objects, or
    [nullptr]: every copy of the pointer sees the same object. *)
Abbreviation loc := nat.
Abbreviation RowsetSharedPtr := (option loc).

(** Modelled from the spec: class [Rowset] (olap/rowset/rowset.h) lies
    outside the files embedded here.  A rowset has a unique id and a version
    once published; [visible] tells whether it was marked visible;
    [is_partial_update] is [tablet_schema()->is_partial_update()]. *)
Record Rowset := {
  rowset_id : RowsetId;
  version : Version;
  visible : bool;
  is_partial_update : bool
}.

(** [DeleteBitmapPtr]: [nullptr], or a bitmap identified by the value it was
    created with. *)
Abbreviation DeleteBitmapPtr := (option Z).

(** Modelled from the spec: [struct TabletTxnInfo] is declared in
    txn_manager.h, outside the files embedded here.  The fields are those
    txn_manager.cpp reads and writes (spec, section 3: load_id, rowset,
    creation_time, merge_on_write, delete_bitmap, rowset_ids). *)
Record TabletTxnInfo := {
  load_id : PUniqueId;
  rowset : RowsetSharedPtr;
  unique_key_merge_on_write : bool;
  delete_bitmap : DeleteBitmapPtr;
  rowset_ids : gset RowsetId;
  creation_time : Z;
  ingest : bool
}.

#[global] Instance TabletTxnInfo_eq_dec : EqDecision TabletTxnInfo.
Proof. solve_decision. Defined.

(** Modelled from the spec: the constructors of [TabletTxnInfo] (txn_manager.h).
    [TabletTxnInfo(load_id, rowset, ingest)] and [TabletTxnInfo(load_id, rowset)]
    stamp the entry with the current time ([now] is [UnixSeconds()]). *)
Definition mk_TabletTxnInfo (now : Z) (load_id : PUniqueId)
    (rowset : RowsetSharedPtr) (ingest : bool) : TabletTxnInfo :=
  {| load_id := load_id; rowset := rowset;
     unique_key_merge_on_write := false; delete_bitmap := None;
     rowset_ids := ∅; creation_time := now; ingest := ingest |}.

(** The default-constructed [TabletTxnInfo tablet_txn_info;] of [publish_txn]. *)
Definition default_TabletTxnInfo : TabletTxnInfo :=
  {| load_id := {| hi := 0; lo := 0 |}; rowset := None;
     unique_key_merge_on_write := false; delete_bitmap := None;
     rowset_ids := ∅; creation_time := 0; ingest := false |}.

(** [txn_tablet_map_t] and [txn_partition_map_t] *)
Abbreviation txn_tablet_map_t := (gmap TxnKey (gmap TabletInfo TabletTxnInfo)).
Abbreviation txn_partition_map_t := (gmap TTransactionId (gset TPartitionId)).

(** The maps of [TxnManager]: two arrays of [_txn_map_shard_size] shards. *)
Record TxnManager := {
  _txn_map_shard_size : Z;
  _txn_tablet_maps : list txn_tablet_map_t;
  _txn_partition_maps : list txn_partition_map_t
}.

(** [TxnManager::TxnManager(txn_map_shard_size, txn_shard_size)] *)
Definition new_TxnManager (txn_map_shard_size : Z) : TxnManager :=
  {| _txn_map_shard_size := txn_map_shard_size;
     _txn_tablet_maps := replicate (Z.to_nat txn_map_shard_size) ∅;
     _txn_partition_maps := replicate (Z.to_nat txn_map_shard_size) ∅ |}.

(** Modelled from the spec: the shard selectors [_get_txn_tablet_map] and
    [_get_txn_partition_map] are inline functions of txn_manager.h.  "Shard
    index = hash(transaction_id) mod S (S a power of two)"; the hash is the
    identity, and both arrays use the same index. *)
Definition shard_index (m : TxnManager) (transaction_id : TTransactionId) : nat :=
  Z.to_nat (transaction_id mod _txn_map_shard_size m).

Definition _get_txn_tablet_map (m : TxnManager) (transaction_id : TTransactionId)
    : txn_tablet_map_t :=
  _txn_tablet_maps m !!! shard_index m transaction_id.

Definition _get_txn_partition_map (m : TxnManager) (transaction_id : TTransactionId)
    : txn_partition_map_t :=
  _txn_partition_maps m !!! shard_index m transaction_id.

(** Writing through the references returned by the selectors. *)
Definition set_tablet_shard (i : nat) (tm : txn_tablet_map_t) (m : TxnManager)
    : TxnManager :=
  {| _txn_map_shard_size := _txn_map_shard_size m;
     _txn_tablet_maps := <[i := tm]> (_txn_tablet_maps m);
     _txn_partition_maps := _txn_partition_maps m |}.

Definition set_partition_shard (i : nat) (pm : txn_partition_map_t) (m : TxnManager)
    : TxnManager :=
  {| _txn_map_shard_size := _txn_map_shard_size m;
     _txn_tablet_maps := _txn_tablet_maps m;
     _txn_partition_maps := <[i := pm]> (_txn_partition_maps m) |}.

(** The body of [_insert_txn_partition_map_unlocked], on the map the
    selector returns. *)
Definition partition_map_insert (transaction_id : TTransactionId)
    (partition_id : TPartitionId) (txn_partition_map : txn_partition_map_t)
    : txn_partition_map_t :=
  let txn_partition_map :=
    match txn_partition_map !! transaction_id with
    | None => <[transaction_id := ∅]> txn_partition_map
    | Some _ => txn_partition_map
    end in
  <[transaction_id :=
      {[partition_id]} ∪ default ∅ (txn_partition_map !! transaction_id)]>
    txn_partition_map.

(** [_insert_txn_partition_map_unlocked] *)
Definition _insert_txn_partition_map_unlocked (transaction_id : TTransactionId)
    (partition_id : TPartitionId) (m : TxnManager) : TxnManager :=
  set_partition_shard (shard_index m transaction_id)
    (partition_map_insert transaction_id partition_id
       (_get_txn_partition_map m transaction_id)) m.

(** The body of [_clear_txn_partition_map_unlocked], on the map the selector
    returns. *)
Definition partition_map_clear (transaction_id : TTransactionId)
    (partition_id : TPartitionId) (txn_partition_map : txn_partition_map_t)
    : txn_partition_map_t :=
  match txn_partition_map !! transaction_id with
  | Some s =>
      let s := s ∖ {[partition_id]} in
      if decide (s = ∅) then delete transaction_id txn_partition_map
      else <[transaction_id := s]> txn_partition_map
  | None => txn_partition_map
  end.

(** [_clear_txn_partition_map_unlocked] *)
Definition _clear_txn_partition_map_unlocked (transaction_id : TTransactionId)
    (partition_id : TPartitionId) (m : TxnManager) : TxnManager :=
  set_partition_shard (shard_index m transaction_id)
    (partition_map_clear transaction_id partition_id
       (_get_txn_partition_map m transaction_id)) m.

(** [txn_tablet_map[key][tablet_info] = load_info;] *)
Definition store_load_info (key : TxnKey) (tablet_info : TabletInfo)
    (load_info : TabletTxnInfo) (m : TxnManager) : TxnManager :=
  let txn_tablet_map := _get_txn_tablet_map m key.2 in
  set_tablet_shard (shard_index m key.2)
    (<[key := <[tablet_info := load_info]> (default ∅ (txn_tablet_map !! key))]>
       txn_tablet_map) m.

(** The tail shared by [publish_txn] (417-428), [rollback_txn] (477-484),
    [delete_txn] (531-535) and the loop body of
    [force_rollback_tablet_related_txns] (589-596), for an iterator [it] at
    [key] in shard [i] whose tablet map is [tablet_map]:
    [it->second.erase(tablet_info); if (it->second.empty()) {
     txn_tablet_map.erase(it); _clear_txn_partition_map_unlocked(...); }] *)
Definition erase_tablet_info (i : nat) (key : TxnKey) (tablet_info : TabletInfo)
    (tablet_map : gmap TabletInfo TabletTxnInfo) (m : TxnManager) : TxnManager :=
  let tablet_map := delete tablet_info tablet_map in
  let txn_tablet_map := _txn_tablet_maps m !!! i in
  if decide (tablet_map = ∅) then
    _clear_txn_partition_map_unlocked key.2 key.1
      (set_tablet_shard i (delete key txn_tablet_map) m)
  else set_tablet_shard i (<[key := tablet_map]> txn_tablet_map) m.

(** Error codes of [Status] used by the ledger; [OtherError] stands for a
    failure status returned by a collaborator. *)
Inductive Status :=
| OK
| TOO_MANY_TRANSACTIONS
| ROWSET_INVALID
| PUSH_TRANSACTION_ALREADY_EXIST
| ROWSET_SAVE_FAILED
| TRANSACTION_NOT_EXIST
| ROWSET_ADD_TO_BINLOG_FAILED
| TRANSACTION_ALREADY_COMMITTED
| OtherError (code : Z).

#[global] Instance Status_eq_dec : EqDecision Status.
Proof. solve_decision. Defined.

Definition ok (st : Status) : bool := bool_decide (st = OK).

(** How a call ends: it returns a status, the process aborts in [LOG(FATAL)],
    or the code dereferences a null pointer or an end iterator. *)
Inductive Outcome := Returns (st : Status) | Fatal | Undefined.

(** [config::max_runnings_transactions_per_txn_map] (a 32-bit integer). *)
Record Config := { max_runnings_transactions_per_txn_map : Z }.

(** Step 1 of [prepare_txn] (110-134), the loop [do { ... } while (false)]:
    [true] when it returns [Status::OK()], [false] when it breaks. *)
Definition prepare_check (key : TxnKey) (tablet_info : TabletInfo)
    (load_id : PUniqueId) (m : TxnManager) : bool :=
  match _get_txn_tablet_map m key.2 !! key with
  | None => false
  | Some txn_tablet_info_map =>
      match txn_tablet_info_map !! tablet_info with
      | None => false
      | Some load_info =>
          bool_decide (hi (Ledger.load_id load_info) = hi load_id)
          && bool_decide (lo (Ledger.load_id load_info) = lo load_id)
          && bool_decide (rowset load_info ≠ None)
      end
  end.

(** Both overloads of [prepare_txn]; [now] is the clock read by the
    constructor of the new entry.  In
    [txn_partition_map.size() > config::max_runnings_transactions_per_txn_map]
    the right operand is converted to [size_t]. *)
Definition prepare_txn (cfg : Config) (now : Z) (partition_id : TPartitionId)
    (transaction_id : TTransactionId) (tablet_id : TTabletId)
    (schema_hash : SchemaHash) (tablet_uid : TabletUid) (load_id : PUniqueId)
    (ingest : bool) (m : TxnManager) : Status * TxnManager :=
  let key : TxnKey := (partition_id, transaction_id) in
  let tablet_info := {| tablet_id := tablet_id; schema_hash := schema_hash;
                        tablet_uid := tablet_uid |} in
  (* Step 1: check if the transaction is already exist *)
  if prepare_check key tablet_info load_id m then (OK, m)
  else
    (* Step 2: check if there are too many transactions on running *)
    let txn_partition_map := _get_txn_partition_map m transaction_id in
    if bool_decide (Z.of_nat (size txn_partition_map)
                    > to_uint64 (max_runnings_transactions_per_txn_map cfg)) then
      (TOO_MANY_TRANSACTIONS, m)
    else
      (* Step 3: Add transaction to engine *)
      let load_info := mk_TabletTxnInfo now load_id None ingest in
      (OK, _insert_txn_partition_map_unlocked transaction_id partition_id
             (store_load_info key tablet_info load_info m)).

(** [rollback_txn] *)
Definition rollback_txn (partition_id : TPartitionId)
    (transaction_id : TTransactionId) (tablet_id : TTabletId)
    (schema_hash : SchemaHash) (tablet_uid : TabletUid) (m : TxnManager)
    : Status * TxnManager :=
  let key : TxnKey := (partition_id, transaction_id) in
  let tablet_info := {| tablet_id := tablet_id; schema_hash := schema_hash;
                        tablet_uid := tablet_uid |} in
  let txn_tablet_map := _get_txn_tablet_map m transaction_id in
  match txn_tablet_map !! key with
  | Some tablet_map =>
      let committed :=
        match tablet_map !! tablet_info with
        | Some load_info => bool_decide (rowset load_info ≠ None)
        | None => false
        end in
      if committed then (TRANSACTION_ALREADY_COMMITTED, m)
      else (OK, erase_tablet_info (shard_index m transaction_id) key tablet_info
                  tablet_map m)
  | None => (OK, m)
  end.

(** [has_txn] *)
Definition has_txn (partition_id : TPartitionId) (transaction_id : TTransactionId)
    (tablet_id : TTabletId) (schema_hash : SchemaHash) (tablet_uid : TabletUid)
    (m : TxnManager) : bool :=
  let key : TxnKey := (partition_id, transaction_id) in
  let tablet_info := {| tablet_id := tablet_id; schema_hash := schema_hash;
                        tablet_uid := tablet_uid |} in
  match _get_txn_tablet_map m transaction_id !! key with
  | Some tablet_map => bool_decide (is_Some (tablet_map !! tablet_info))
  | None => false
  end.

(** [get_partition_ids]: the partitions registered for a transaction. *)
Definition get_partition_ids (transaction_id : TTransactionId) (m : TxnManager)
    : list TPartitionId :=
  match _get_txn_partition_map m transaction_id !! transaction_id with
  | Some s => elements s
  | None => []
  end.

(** ** Operations that reach outside the manager *)

(** An [OlapMeta*]: the address of a metadata store, or [nullptr]. *)
Abbreviation OlapMeta := (option nat).

(** Calls made on collaborators, in the order they happen. *)
Inductive Event :=
(** [RowsetMetaManager::save(meta, tablet_uid, rowset_id, pb, enable_binlog)] *)
| RowsetMetaSave (meta : OlapMeta) (uid : TabletUid) (rid : RowsetId)
    (enable_binlog : bool)
(** [RowsetMetaManager::remove(meta, tablet_uid, rowset_id)] *)
| RowsetMetaRemove (meta : OlapMeta) (uid : TabletUid) (rid : RowsetId)
(** [StorageEngine::instance()->add_unused_rowset(rowset)] *)
| AddUnusedRowset (r : loc)
(** [tablet->create_transient_rowset_writer(context, rowset_id, writer)] *)
| CreateTransientRowsetWriter (rid : RowsetId)
(** [tablet->update_delete_bitmap(rowset, &tablet_txn_info, writer)] *)
| UpdateDeleteBitmap (r : loc)
(** [rowset_writer->flush()] and [rowset_writer->build()] *)
| WriterFlush
| WriterBuild
(** [rowset->merge_rowset_meta(transient_rowset->rowset_meta())] *)
| MergeRowsetMeta (r : loc)
(** [SegmentLoader::instance()->erase_segment(rowset_id)] *)
| EraseSegment (rid : RowsetId)
(** [tablet->save_meta()] *)
| TabletSaveMeta (t : TTabletId)
(** [rowset->add_to_binlog()] *)
| AddToBinlog (r : loc).

(** The ledger together with what it shares with the rest of the engine:
    the rowset objects its entries point to, and the calls it made. *)
Record World := {
  mgr : TxnManager;
  heap : loc → Rowset;
  trace : list Event
}.

Definition set_mgr (m : TxnManager) (w : World) : World :=
  {| mgr := m; heap := heap w; trace := trace w |}.

Definition emit (e : Event) (w : World) : World :=
  {| mgr := mgr w; heap := heap w; trace := trace w ++ [e] |}.

Definition new_World (txn_map_shard_size : Z) (h : loc → Rowset) : World :=
  {| mgr := new_TxnManager txn_map_shard_size; heap := h; trace := [] |}.

(** Modelled from the spec: [Rowset::make_visible] (olap/rowset/rowset.cpp)
    lies outside the files embedded here.  It "marks the rowset visible at
    [version]"; the object is the one every holder of the pointer sees
    (txn_manager.cpp, 359: "rowset is already set version here, memory is
    changed"). *)
Definition make_visible (r : loc) (v : Version) (w : World) : World :=
  {| mgr := mgr w;
     heap := λ l, if decide (l = r) then
                    {| rowset_id := rowset_id (heap w r); version := v;
                       visible := true;
                       is_partial_update := is_partial_update (heap w r) |}
                  else heap w l;
     trace := trace w |}.

(** What the ledger reads from a [TabletSharedPtr]. *)
Record Tablet := {
  is_enable_binlog : bool;
  enable_unique_key_merge_on_write : bool
}.

(** Results of the collaborators called by [commit_txn]. *)
Record CommitEnv := {
  (** [UnixSeconds()] read by the constructor of the entry *)
  commit_now : Z;
  (** [RowsetMetaManager::save(...)] *)
  commit_save : Status;
  (** [tablet_manager()->get_tablet(tablet_id, tablet_uid)] *)
  commit_get_tablet : TTabletId → TabletUid → option Tablet
}.

(** The loop [do { ... } while (false)] of [commit_txn] (237-279): [Some st]
    when it returns [st], [None] when it breaks. *)
Definition commit_check (key : TxnKey) (tablet_info : TabletInfo)
    (load_id : PUniqueId) (rowset_ptr : loc) (w : World) : option Status :=
  match _get_txn_tablet_map (mgr w) key.2 !! key with
  | None => None
  | Some tablet_map =>
      match tablet_map !! tablet_info with
      | None => None
      | Some load_info =>
          let same_load :=
            bool_decide (hi (Ledger.load_id load_info) = hi load_id)
            && bool_decide (lo (Ledger.load_id load_info) = lo load_id) in
          match rowset load_info with
          | Some r =>
              if same_load
                 && bool_decide (rowset_id (heap w r) = rowset_id (heap w rowset_ptr))
              then Some OK
              else if same_load
                      && bool_decide (rowset_id (heap w r)
                                      ≠ rowset_id (heap w rowset_ptr))
              then Some PUSH_TRANSACTION_ALREADY_EXIST
              else None
          | None => None
          end
      end
  end.

(** Lines 295-314 of [commit_txn]: the critical section, under the write
    lock of the shard, that installs the entry. *)
Definition commit_install (env : CommitEnv) (partition_id : TPartitionId)
    (transaction_id : TTransactionId) (tablet_id : TTabletId)
    (schema_hash : SchemaHash) (tablet_uid : TabletUid) (load_id : PUniqueId)
    (rowset_ptr : loc) (is_recovery : bool) (m : TxnManager) : TxnManager :=
  let key : TxnKey := (partition_id, transaction_id) in
  let tablet_info := {| tablet_id := tablet_id; schema_hash := schema_hash;
                        tablet_uid := tablet_uid |} in
  let load_info := mk_TabletTxnInfo (commit_now env) load_id (Some rowset_ptr) false in
  let load_info :=
    if is_recovery then
      match commit_get_tablet env tablet_id tablet_uid with
      | Some tablet =>
          if enable_unique_key_merge_on_write tablet then
            {| load_id := Ledger.load_id load_info;
               rowset := rowset load_info;
               unique_key_merge_on_write := true;
               delete_bitmap := Some tablet_id;
               rowset_ids := rowset_ids load_info;
               creation_time := creation_time load_info;
               ingest := ingest load_info |}
          else load_info
      | None => load_info
      end
    else load_info in
  _insert_txn_partition_map_unlocked transaction_id partition_id
    (store_load_info key tablet_info load_info m).

(** [commit_txn] *)
Definition commit_txn (env : CommitEnv) (meta : OlapMeta)
    (partition_id : TPartitionId) (transaction_id : TTransactionId)
    (tablet_id : TTabletId) (schema_hash : SchemaHash) (tablet_uid : TabletUid)
    (load_id : PUniqueId) (rowset_ptr : RowsetSharedPtr) (is_recovery : bool)
    (w : World) : Outcome * World :=
  if bool_decide (partition_id < 1 ∨ transaction_id < 1 ∨ tablet_id < 1) then
    (Fatal, w)
  else
    let key : TxnKey := (partition_id, transaction_id) in
    let tablet_info := {| tablet_id := tablet_id; schema_hash := schema_hash;
                          tablet_uid := tablet_uid |} in
    match rowset_ptr with
    | None => (Returns ROWSET_INVALID, w)
    | Some rp =>
        match commit_check key tablet_info load_id rp w with
        | Some st => (Returns st, w)
        | None =>
            (* save the meta unless in recovery mode *)
            let w1 :=
              if negb is_recovery then
                emit (RowsetMetaSave meta tablet_uid (rowset_id (heap w rp)) false) w
              else w in
            if negb is_recovery && negb (bool_decide (commit_save env = OK)) then
              (Returns ROWSET_SAVE_FAILED, w1)
            else
              (Returns OK,
               set_mgr (commit_install env partition_id transaction_id tablet_id
                          schema_hash tablet_uid load_id rp is_recovery (mgr w1))
                 w1)
        end
    end.

(** Results of the collaborators called by [publish_txn]. *)
Record PublishEnv := {
  (** [tablet_manager()->get_tablet(tablet_id)] *)
  publish_get_tablet : TTabletId → option Tablet;
  (** [tablet->create_transient_rowset_writer(...)]: on failure the writer
      stays [nullptr] *)
  publish_create_writer : Status;
  (** [tablet->update_delete_bitmap(...)] *)
  publish_update_delete_bitmap : Status;
  (** [rowset_writer->flush()] *)
  publish_flush : Status;
  (** [rowset->add_to_binlog()] *)
  publish_add_to_binlog : Status;
  (** [RowsetMetaManager::save(...)] *)
  publish_save : Status
}.

(** Lines 363-380 of [publish_txn], the merge-on-write block: [Some o] when
    the block ends the call with [o], [None] when control reaches step 3. *)
Definition publish_delete_bitmap (env : PublishEnv) (tablet_id : TTabletId)
    (r : loc) (tablet_txn_info : TabletTxnInfo) (w : World)
    : option Outcome * World :=
  if unique_key_merge_on_write tablet_txn_info then
    let w := emit (CreateTransientRowsetWriter (rowset_id (heap w r))) w in
    let w := emit (UpdateDeleteBitmap r) w in
    if negb (ok (publish_update_delete_bitmap env)) then
      (Some (Returns (publish_update_delete_bitmap env)), w)
    else
      let after_merge (w : World) : option Outcome * World :=
        (None, emit (TabletSaveMeta tablet_id) w) in
      if is_partial_update (heap w r) then
        if negb (ok (publish_create_writer env)) then (Some Undefined, w)
        else
          let w := emit WriterFlush w in
          if negb (ok (publish_flush env)) then
            (Some (Returns (publish_flush env)), w)
          else
            let w := emit WriterBuild w in
            let w := emit (MergeRowsetMeta r) w in
            let w := emit (EraseSegment (rowset_id (heap w r))) w in
            after_merge w
      else after_merge w
  else (None, w).

(** Step 5 of [publish_txn] (412-428): the critical section, under the
    write lock of the shard, that removes the entry. *)
Definition publish_remove (partition_id : TPartitionId)
    (transaction_id : TTransactionId) (tablet_info : TabletInfo)
    (m : TxnManager) : TxnManager :=
  let key : TxnKey := (partition_id, transaction_id) in
  match _get_txn_tablet_map m transaction_id !! key with
  | Some tablet_map =>
      erase_tablet_info (shard_index m transaction_id) key tablet_info
        tablet_map m
  | None => m
  end.

(** [publish_txn] *)
Definition publish_txn (env : PublishEnv) (meta : OlapMeta)
    (partition_id : TPartitionId) (transaction_id : TTransactionId)
    (tablet_id : TTabletId) (schema_hash : SchemaHash) (tablet_uid : TabletUid)
    (version : Version) (w : World) : Outcome * World :=
  match publish_get_tablet env tablet_id with
  | None => (Returns OK, w)
  | Some tablet =>
      let key : TxnKey := (partition_id, transaction_id) in
      let tablet_info := {| tablet_id := tablet_id; schema_hash := schema_hash;
                            tablet_uid := tablet_uid |} in
      (* Step 1: get rowset, tablet_txn_info by key *)
      let tablet_txn_info :=
        match _get_txn_tablet_map (mgr w) transaction_id !! key with
        | Some tablet_map => default default_TabletTxnInfo (tablet_map !! tablet_info)
        | None => default_TabletTxnInfo
        end in
      match rowset tablet_txn_info with
      | None => (Returns TRANSACTION_NOT_EXIST, w)
      | Some r =>
          (* Step 2: make rowset visible *)
          let w := make_visible r version w in
          match publish_delete_bitmap env tablet_id r tablet_txn_info w with
          | (Some o, w) => (o, w)
          | (None, w) =>
              (* Step 3: add to binlog *)
              let enable_binlog := is_enable_binlog tablet in
              let w := if enable_binlog then emit (AddToBinlog r) w else w in
              if enable_binlog && negb (ok (publish_add_to_binlog env)) then
                (Returns ROWSET_ADD_TO_BINLOG_FAILED, w)
              else
                (* Step 4: save meta *)
                let w := emit (RowsetMetaSave meta tablet_uid (rowset_id (heap w r))
                                 enable_binlog) w in
                let status := publish_save env in
                if negb (ok status) then (Returns ROWSET_SAVE_FAILED, w)
                else
                  (* Step 5: remove tablet_info from tnx_tablet_map *)
                  (Returns status,
                   set_mgr (publish_remove partition_id transaction_id tablet_info
                              (mgr w)) w)
          end
      end
  end.

(** [delete_txn] *)
Definition delete_txn (meta : OlapMeta) (partition_id : TPartitionId)
    (transaction_id : TTransactionId) (tablet_id : TTabletId)
    (schema_hash : SchemaHash) (tablet_uid : TabletUid) (w : World)
    : Outcome * World :=
  let key : TxnKey := (partition_id, transaction_id) in
  let tablet_info := {| tablet_id := tablet_id; schema_hash := schema_hash;
                        tablet_uid := tablet_uid |} in
  match _get_txn_tablet_map (mgr w) transaction_id !! key with
  | None => (Returns TRANSACTION_NOT_EXIST, w)
  | Some tablet_map =>
      let erase (w : World) : Outcome * World :=
        (Returns OK,
         set_mgr (erase_tablet_info (shard_index (mgr w) transaction_id) key
                    tablet_info tablet_map (mgr w)) w) in
      match tablet_map !! tablet_info with
      | Some load_info =>
          match rowset load_info, meta with
          | Some r, Some _ =>
              if bool_decide ((version (heap w r)).1 > 0) then
                (Returns TRANSACTION_ALREADY_COMMITTED, w)
              else
                let w := emit (RowsetMetaRemove meta tablet_uid
                                 (rowset_id (heap w r))) w in
                let w := emit (AddUnusedRowset r) w in
                erase w
          | _, _ => erase w
          end
      | None => erase w
      end
  end.

(** One iteration of the inner loop of [force_rollback_tablet_related_txns]
    (573-596), with the iterator at [key] in shard [i]. *)
Definition force_rollback_step (meta : OlapMeta) (tablet_info : TabletInfo)
    (tablet_uid : TabletUid) (i : nat) (w : World) (key : TxnKey) : World :=
  match (_txn_tablet_maps (mgr w) !!! i) !! key with
  | None => w
  | Some tablet_map =>
      match tablet_map !! tablet_info with
      | Some load_info =>
          let w :=
            match rowset load_info, meta with
            | Some r, Some _ =>
                emit (RowsetMetaRemove meta tablet_uid (rowset_id (heap w r))) w
            | _, _ => w
            end in
          set_mgr (erase_tablet_info i key tablet_info tablet_map (mgr w)) w
      | None =>
          if decide (tablet_map = ∅) then
            set_mgr (set_tablet_shard i (delete key (_txn_tablet_maps (mgr w) !!! i))
                       (_clear_txn_partition_map_unlocked key.2 key.1 (mgr w))) w
          else w
      end
  end.

(** The body of [for (int32_t i = 0; i < _txn_map_shard_size; i++)]: the
    inner loop visits every key of shard [i]. *)
Definition force_rollback_shard (meta : OlapMeta) (tablet_info : TabletInfo)
    (tablet_uid : TabletUid) (w : World) (i : nat) : World :=
  foldl (force_rollback_step meta tablet_info tablet_uid i) w
    (map fst (map_to_list (_txn_tablet_maps (mgr w) !!! i))).

(** [force_rollback_tablet_related_txns] *)
Definition force_rollback_tablet_related_txns (meta : OlapMeta)
    (tablet_id : TTabletId) (schema_hash : SchemaHash) (tablet_uid : TabletUid)
    (w : World) : World :=
  let tablet_info := {| tablet_id := tablet_id; schema_hash := schema_hash;
                        tablet_uid := tablet_uid |} in
  foldl (force_rollback_shard meta tablet_info tablet_uid) w
    (seq 0 (Z.to_nat (_txn_map_shard_size (mgr w)))).

(** [set_txn_related_delete_bitmap]; the [DCHECK]s are compiled out. *)
Definition set_txn_related_delete_bitmap (partition_id : TPartitionId)
    (transaction_id : TTransactionId) (tablet_id : TTabletId)
    (schema_hash : SchemaHash) (tablet_uid : TabletUid)
    (unique_key_merge_on_write : bool) (delete_bitmap : DeleteBitmapPtr)
    (rowset_ids : gset RowsetId) (m : TxnManager) : option TxnManager :=
  let key : TxnKey := (partition_id, transaction_id) in
  let tablet_info := {| tablet_id := tablet_id; schema_hash := schema_hash;
                        tablet_uid := tablet_uid |} in
  let txn_tablet_map := _get_txn_tablet_map m transaction_id in
  match txn_tablet_map !! key with
  | None => Some m
  | Some tablet_map =>
      match tablet_map !! tablet_info with
      | None => None (* [load_itr] is the end iterator *)
      | Some load_info =>
          Some (set_tablet_shard (shard_index m transaction_id)
                  (<[key := <[tablet_info :=
                       {| load_id := load_id load_info;
                          rowset := rowset load_info;
                          unique_key_merge_on_write := unique_key_merge_on_write;
                          delete_bitmap := delete_bitmap;
                          rowset_ids := rowset_ids;
                          creation_time := creation_time load_info;
                          ingest := ingest load_info |}]> tablet_map]>
                     txn_tablet_map) m)
      end
  end.

(** ** States of the ledger *)

(** What the constructor establishes: a positive shard count, and two
    arrays of that many shards. *)
Definition wf (m : TxnManager) : Prop :=
  0 < _txn_map_shard_size m
  ∧ length (_txn_tablet_maps m) = Z.to_nat (_txn_map_shard_size m)
  ∧ length (_txn_partition_maps m) = Z.to_nat (_txn_map_shard_size m).

(** The partition index agrees with the transaction map: [transaction_id]
    maps to [partition_id] in the index of a shard exactly when the
    transaction map of that shard holds a non-empty tablet map under
    [(partition_id, transaction_id)]. *)
Definition partition_index_consistent (m : TxnManager) : Prop :=
  ∀ (i : nat) (tm : txn_tablet_map_t) (pm : txn_partition_map_t),
    _txn_tablet_maps m !! i = Some tm →
    _txn_partition_maps m !! i = Some pm →
    ∀ (transaction_id : TTransactionId) (partition_id : TPartitionId),
      (∃ s, pm !! transaction_id = Some s ∧ partition_id ∈ s)
      ↔ (∃ tablet_map, tm !! (partition_id, transaction_id) = Some tablet_map
                       ∧ tablet_map ≠ ∅).

(** The invariant of one shard: its keys belong to it, no tablet map is
    empty, an entry that holds a rowset has identifiers the guard of
    [commit_txn] accepts, and the partition index lists exactly the keys. *)
Definition shard_inv (S : Z) (i : nat) (tm : txn_tablet_map_t)
    (pm : txn_partition_map_t) : Prop :=
  (∀ p t tablet_map, tm !! (p, t) = Some tablet_map →
     Z.to_nat (t mod S) = i
     ∧ tablet_map ≠ ∅
     ∧ ∀ ti info, tablet_map !! ti = Some info → rowset info ≠ None →
         1 <= p ∧ 1 <= t ∧ 1 <= tablet_id ti)
  ∧ (∀ t p, (∃ s, pm !! t = Some s ∧ p ∈ s) ↔ is_Some (tm !! (p, t))).

Definition Inv (m : TxnManager) : Prop :=
  wf m
  ∧ ∀ i, (i < Z.to_nat (_txn_map_shard_size m))%nat →
      shard_inv (_txn_map_shard_size m) i
        (_txn_tablet_maps m !!! i) (_txn_partition_maps m !!! i).

(** The states a ledger goes through: it is constructed, then mutated by
    its operations; the holders of rowset pointers outside the ledger change
    the rowset objects.  [commit_txn] and [publish_txn] release the lock of
    the shard before the critical section that writes the maps: that
    section also runs on its own, after the calls of other threads. *)
Inductive reachable : World → Prop :=
| reach_new S h : 0 < S → reachable (new_World S h)
| reach_prepare w cfg now p t tab sh uid lid ing :
    reachable w →
    reachable (set_mgr (prepare_txn cfg now p t tab sh uid lid ing (mgr w)).2 w)
| reach_commit w env meta p t tab sh uid lid rp rec :
    reachable w →
    reachable (commit_txn env meta p t tab sh uid lid rp rec w).2
| reach_commit_install w env p t tab sh uid lid rp rec :
    reachable w →
    ¬ (p < 1 ∨ t < 1 ∨ tab < 1) →
    reachable (set_mgr (commit_install env p t tab sh uid lid rp rec (mgr w)) w)
| reach_publish w env meta p t tab sh uid v :
    reachable w →
    reachable (publish_txn env meta p t tab sh uid v w).2
| reach_publish_remove w p t ti :
    reachable w →
    reachable (set_mgr (publish_remove p t ti (mgr w)) w)
| reach_rollback w p t tab sh uid :
    reachable w →
    reachable (set_mgr (rollback_txn p t tab sh uid (mgr w)).2 w)
| reach_delete w meta p t tab sh uid :
    reachable w →
    reachable (delete_txn meta p t tab sh uid w).2
| reach_force_rollback w meta tab sh uid :
    reachable w →
    reachable (force_rollback_tablet_related_txns meta tab sh uid w)
| reach_set_delete_bitmap w p t tab sh uid mow bm ids m :
    reachable w →
    set_txn_related_delete_bitmap p t tab sh uid mow bm ids (mgr w) = Some m →
    reachable (set_mgr m w)
| reach_heap w h :
    reachable w →
    reachable {| mgr := mgr w; heap := h; trace := trace w |}.

(** ** Scenarios *)

(** Rowset objects: the one at address 3 was published at version (2, 2),
    the others are pending; the id of a rowset is its address. *)
Definition rowsets0 : loc → Rowset :=
  λ l, {| rowset_id := Z.of_nat l;
          version := match l with 3%nat => (2, 2) | _ => (0, 0) end;
          visible := match l with 3%nat => true | _ => false end;
          is_partial_update := false |}.

Definition uidA : TabletUid := {| uid_hi := 0; uid_lo := 10 |}.
Definition loadL : PUniqueId := {| hi := 7; lo := 8 |}.

Definition ceiling (n : Z) : Config :=
  {| max_runnings_transactions_per_txn_map := n |}.

Definition commit_env0 : CommitEnv :=
  {| commit_now := 1001; commit_save := OK; commit_get_tablet := λ _ _, None |}.

(** The collaborators of [publish_txn] for a tablet with binlog enabled;
    [binlog] is what [add_to_binlog] returns. *)
Definition publish_env (known : bool) (binlog : Status) : PublishEnv :=
  {| publish_get_tablet := λ _,
       if known then
         Some {| is_enable_binlog := true;
                 enable_unique_key_merge_on_write := false |}
       else None;
     publish_create_writer := OK;
     publish_update_delete_bitmap := OK;
     publish_flush := OK;
     publish_add_to_binlog := binlog;
     publish_save := OK |}.

(** A ledger of [S] shards with partition 1, transaction 100, tablet
    (5, 1, uidA): prepared, then committed with the rowset at address [r]. *)
Definition prepared (S : Z) : World :=
  set_mgr (prepare_txn (ceiling 100) 1000 1 100 5 1 uidA loadL false
             (mgr (new_World S rowsets0))).2 (new_World S rowsets0).

Definition committed (S : Z) (r : loc) : World :=
  (commit_txn commit_env0 (Some 0%nat) 1 100 5 1 uidA loadL (Some r) false
     (prepared S)).2.

(** A ledger of one shard where transactions 100 and 104 are committed,
    each with its own rowset. *)
Definition two_committed : World :=
  (commit_txn commit_env0 (Some 0%nat) 1 104 5 1 uidA loadL (Some 2%nat) false
     (committed 1 1)).2.

(** ** Queries *)

(** The entry of a tablet under a key, as [has_txn], [publish_txn] and the
    other operations look it up: [txn_tablet_map.find(key)], then
    [it->second.find(tablet_info)]. *)
Definition find_txn (partition_id : TPartitionId)
    (transaction_id : TTransactionId) (tablet_info : TabletInfo)
    (m : TxnManager) : option TabletTxnInfo :=
  _get_txn_tablet_map m transaction_id !! (partition_id, transaction_id)
  ≫= (λ tablet_map, tablet_map !! tablet_info).

(** The entry of a tablet under a key of shard [i], as the loops over all
    the shards look it up: [it->second.find(tablet_info)] for the iterator
    [it] at [key] in [_txn_tablet_maps[i]]. *)
Definition entry_at (i : nat) (key : TxnKey) (tablet_info : TabletInfo)
    (m : TxnManager) : option TabletTxnInfo :=
  (_txn_tablet_maps m !!! i) !! key
  ≫= (λ tablet_map, tablet_map !! tablet_info).

(** Lines 551-560 of [get_tablet_related_txns]: the loop over the keys of
    one shard; the accumulator holds the values behind [partition_id] and
    [transaction_ids]. *)
Definition related_txns_shard (tablet_info : TabletInfo)
    (acc : TPartitionId * gset TTransactionId) (tm : txn_tablet_map_t)
    : TPartitionId * gset TTransactionId :=
  foldl (λ acc (it : TxnKey * gmap TabletInfo TabletTxnInfo),
           if bool_decide (is_Some (it.2 !! tablet_info)) then
             (it.1.1, {[it.1.2]} ∪ acc.2)
           else acc)
    acc (map_to_list tm).

(** [get_tablet_related_txns]: the values left behind the two output
    pointers, each of which may be null. *)
Definition get_tablet_related_txns (tablet_id : TTabletId)
    (schema_hash : SchemaHash) (tablet_uid : TabletUid)
    (partition_id : option TPartitionId)
    (transaction_ids : option (gset TTransactionId)) (m : TxnManager)
    : option TPartitionId * option (gset TTransactionId) :=
  match partition_id, transaction_ids with
  | Some p, Some ids =>
      let tablet_info := {| tablet_id := tablet_id; schema_hash := schema_hash;
                            tablet_uid := tablet_uid |} in
      let r :=
        foldl (λ acc i, related_txns_shard tablet_info acc (_txn_tablet_maps m !!! i))
          (p, ids) (seq 0 (Z.to_nat (_txn_map_shard_size m))) in
      (Some r.1, Some r.2)
  | _, _ => (partition_id, transaction_ids)
  end.

(** [std::map::emplace]: the value is stored unless the key is present. *)
Definition emplace `{Countable K} {A} (k : K) (v : A) (m : gmap K A) : gmap K A :=
  match m !! k with
  | Some _ => m
  | None => <[k := v]> m
  end.

(** [get_txn_related_tablets]: the map left behind [tablet_infos]. *)
Definition get_txn_related_tablets (transaction_id : TTransactionId)
    (partition_id : TPartitionId)
    (tablet_infos : gmap TabletInfo RowsetSharedPtr) (m : TxnManager)
    : gmap TabletInfo RowsetSharedPtr :=
  match _get_txn_tablet_map m transaction_id !! (partition_id, transaction_id) with
  | None => tablet_infos
  | Some load_info_map =>
      foldl (λ acc (load_info : TabletInfo * TabletTxnInfo),
               emplace load_info.1 (rowset load_info.2) acc)
        tablet_infos (map_to_list load_info_map)
  end.

(** [get_all_related_tablets]: the set left behind [tablet_infos]. *)
Definition get_all_related_tablets (tablet_infos : gset TabletInfo)
    (m : TxnManager) : gset TabletInfo :=
  foldl (λ acc i,
           foldl (λ acc (it : TxnKey * gmap TabletInfo TabletTxnInfo),
                    foldl (λ acc (tablet_load_it : TabletInfo * TabletTxnInfo),
                             {[tablet_load_it.1]} ∪ acc)
                      acc (map_to_list it.2))
             acc (map_to_list (_txn_tablet_maps m !!! i)))
    tablet_infos (seq 0 (Z.to_nat (_txn_map_shard_size m))).

(** ** The registry of delta writers *)

(** A [DeltaWriter*]. *)
Abbreviation DeltaWriterPtr := nat.

(** [txn_tablet_delta_writer_map_t]: transaction id, then tablet id. *)
Abbreviation txn_tablet_delta_writer_map_t :=
  (gmap TTransactionId (gmap TTabletId DeltaWriterPtr)).

(** The array [_txn_tablet_delta_writer_map] of [TxnManager], allocated by
    the constructor with [_txn_map_shard_size] shards (line 82), and the
    calls made on the writers. *)
Record DeltaWriterRegistry := {
  registry_shard_size : Z;
  _txn_tablet_delta_writer_map : list txn_tablet_delta_writer_map_t;
  (** [delta_writer->finish_slave_tablet_pull_rowset(node_id, is_succeed)] *)
  writer_calls : list (DeltaWriterPtr * Z * bool)
}.

Definition new_DeltaWriterRegistry (txn_map_shard_size : Z) : DeltaWriterRegistry :=
  {| registry_shard_size := txn_map_shard_size;
     _txn_tablet_delta_writer_map := replicate (Z.to_nat txn_map_shard_size) ∅;
     writer_calls := [] |}.

(** Modelled from the spec: [_get_txn_tablet_delta_writer_map] is an inline
    function of txn_manager.h; the shard of a transaction is chosen as for
    the transaction maps, "hash(transaction_id) mod S". *)
Definition registry_index (g : DeltaWriterRegistry)
    (transaction_id : TTransactionId) : nat :=
  Z.to_nat (transaction_id mod registry_shard_size g).

Definition _get_txn_tablet_delta_writer_map (g : DeltaWriterRegistry)
    (transaction_id : TTransactionId) : txn_tablet_delta_writer_map_t :=
  _txn_tablet_delta_writer_map g !!! registry_index g transaction_id.

Definition set_registry_shard (transaction_id : TTransactionId)
    (dm : txn_tablet_delta_writer_map_t) (g : DeltaWriterRegistry)
    : DeltaWriterRegistry :=
  {| registry_shard_size := registry_shard_size g;
     _txn_tablet_delta_writer_map :=
       <[registry_index g transaction_id := dm]> (_txn_tablet_delta_writer_map g);
     writer_calls := writer_calls g |}.

(** [add_txn_tablet_delta_writer] *)
Definition add_txn_tablet_delta_writer (transaction_id : TTransactionId)
    (tablet_id : TTabletId) (delta_writer : DeltaWriterPtr)
    (g : DeltaWriterRegistry) : DeltaWriterRegistry :=
  let txn_tablet_delta_writer_map :=
    _get_txn_tablet_delta_writer_map g transaction_id in
  let txn_tablet_delta_writer_map :=
    match txn_tablet_delta_writer_map !! transaction_id with
    | None => <[transaction_id := ∅]> txn_tablet_delta_writer_map
    | Some _ => txn_tablet_delta_writer_map
    end in
  set_registry_shard transaction_id
    (<[transaction_id :=
         <[tablet_id := delta_writer]>
           (default ∅ (txn_tablet_delta_writer_map !! transaction_id))]>
       txn_tablet_delta_writer_map) g.

(** [finish_slave_tablet_pull_rowset] *)
Definition finish_slave_tablet_pull_rowset (transaction_id : TTransactionId)
    (tablet_id : TTabletId) (node_id : Z) (is_succeed : bool)
    (g : DeltaWriterRegistry) : DeltaWriterRegistry :=
  match _get_txn_tablet_delta_writer_map g transaction_id !! transaction_id with
  | None => g
  | Some writers =>
      match writers !! tablet_id with
      | None => g
      | Some delta_writer =>
          {| registry_shard_size := registry_shard_size g;
             _txn_tablet_delta_writer_map := _txn_tablet_delta_writer_map g;
             writer_calls :=
               writer_calls g ++ [(delta_writer, node_id, is_succeed)] |}
      end
  end.

(** [clear_txn_tablet_delta_writer] *)
Definition clear_txn_tablet_delta_writer (transaction_id : TTransactionId)
    (g : DeltaWriterRegistry) : DeltaWriterRegistry :=
  let txn_tablet_delta_writer_map :=
    _get_txn_tablet_delta_writer_map g transaction_id in
  match txn_tablet_delta_writer_map !! transaction_id with
  | Some _ =>
      set_registry_shard transaction_id
        (delete transaction_id txn_tablet_delta_writer_map) g
  | None => g
  end.

(** The writer registered for a tablet of a transaction, as
    [finish_slave_tablet_pull_rowset] looks it up. *)
Definition find_delta_writer (transaction_id : TTransactionId)
    (tablet_id : TTabletId) (g : DeltaWriterRegistry) : option DeltaWriterPtr :=
  _get_txn_tablet_delta_writer_map g transaction_id !! transaction_id
  ≫= (λ writers, writers !! tablet_id).

(** What the constructor establishes for the registry. *)
Definition registry_wf (g : DeltaWriterRegistry) : Prop :=
  0 < registry_shard_size g
  ∧ length (_txn_tablet_delta_writer_map g) = Z.to_nat (registry_shard_size g).

End Ledger.

(** * Properties of the compaction scheduler *)

Module CompactionTheory.
Import Compaction.

(** ** The slot rule of [_generate_compaction_tasks] *)

Lemma generate_step_fst env ty cs cumu base ts s d :
  (generate_step env ty cs cumu base (ts, s) d).1
  = ts ++ step_pick env ty cs cumu base d.
Proof.
  unfold step_pick, generate_step.
  destruct (slot_check env ty cs cumu base d) as [need cont].
  destruct cont; simpl; [by rewrite app_nil_r|].
  destruct (reach_capacity_limit env d 0); simpl; [by rewrite app_nil_r|].
  destruct (find_best_tablet_to_compaction env ty d _) as [[t|] score];
    simpl; [|by rewrite app_nil_r].
  destruct (disable_auto_compaction t); simpl; [by rewrite app_nil_r|].
  destruct need; simpl; [done|by rewrite app_nil_r].
Qed.

Lemma generate_loop_fst env ty cs cumu base l : ∀ ts s,
  (generate_loop env ty cs cumu base (ts, s) l).1
  = ts ++ (generate_loop env ty cs cumu base ([], 0) l).1.
Proof.
  unfold generate_loop.
  induction l as [|d l IH]; intros ts s; cbn [foldl]; [by rewrite app_nil_r|].
  destruct (generate_step env ty cs cumu base (ts, s) d) as [ts1 s1] eqn:E1.
  destruct (generate_step env ty cs cumu base ([], 0) d) as [ts2 s2] eqn:E2.
  rewrite (IH ts1 s1), (IH ts2 s2).
  pose proof (generate_step_fst env ty cs cumu base ts s d) as H1.
  rewrite E1 in H1. unfold step_pick in H1. rewrite E2 in H1. simpl in H1.
  subst ts1. by rewrite app_assoc.
Qed.

Lemma generate_loop_app env ty cs cumu base l1 l2 :
  (generate_loop env ty cs cumu base ([], 0) (l1 ++ l2)).1
  = (generate_loop env ty cs cumu base ([], 0) l1).1
    ++ (generate_loop env ty cs cumu base ([], 0) l2).1.
Proof.
  unfold generate_loop at 1. rewrite foldl_app.
  fold (generate_loop env ty cs cumu base ([], 0) l1).
  destruct (generate_loop env ty cs cumu base ([], 0) l1) as [ts s].
  apply generate_loop_fst.
Qed.

Lemma generate_tasks_fst env ty dirs cs cumu base :
  (_generate_compaction_tasks env ty dirs cs cumu base).1
  = (generate_loop env ty cs cumu base ([], 0) (shuffle env dirs)).1.
Proof.
  unfold _generate_compaction_tasks.
  by destruct (generate_loop env ty cs cumu base ([], 0) (shuffle env dirs)).
Qed.

(** With exactly one free slot, [need_pick_tablet] stays true for a
    cumulative round, and for a base round exactly when some cumulative task
    is submitted on the directory. *)
Lemma slot_check_last_slot env ty cs cumu base d :
  count cumu base d = thread_per_disk env d - 1 →
  slot_check env ty cs cumu base d
  = if bool_decide (ty = CUMULATIVE_COMPACTION ∨ at_dir cumu d ≠ ∅)
    then (true, false) else (false, negb cs).
Proof.
  intros Hc. unfold slot_check. rewrite Hc.
  rewrite bool_decide_eq_false_2 by lia.
  rewrite bool_decide_eq_true_2 by lia.
  destruct ty.
  - destruct (decide (at_dir cumu d = ∅)) as [He|He].
    + rewrite bool_decide_eq_true_2 by done.
      rewrite bool_decide_eq_false_2; [done|]. intros [?|?]; done.
    + rewrite bool_decide_eq_false_2 by done.
      rewrite bool_decide_eq_true_2; [done|]. by right.
  - rewrite bool_decide_eq_true_2; [done|]. by left.
Qed.

(** C1, as stated, fails: with slot count 2 and one cumulative task running
    on the only directory, a base round picks the candidate for the last
    slot; the base pick is rejected when the running task is a base one,
    that is when no cumulative task is running. *)
Lemma base_pick_with_cumulative_running_accepted :
  (_generate_compaction_tasks env2 BASE_COMPACTION [0%nat] false
     one_cumu_running ∅).1 = [tablet9]
  ∧ (_generate_compaction_tasks env2 BASE_COMPACTION [0%nat] false
       ∅ one_base_running).1 = [].
Proof. split; vm_compute; reflexivity. Qed.

(** C1 (amended): in a production round, for a data directory whose
    submitted cumulative plus base task count leaves exactly one free slot
    and whose best candidate [t] is eligible, the round adds [t] to its
    picks when the class is cumulative, and for the base class exactly when
    at least one cumulative task is submitted on that directory; the picks
    of the other directories are unchanged. *)
Theorem last_slot_pick_rule env ty cs cumu base dirs pre d post t score :
  shuffle env dirs = pre ++ d :: post →
  count cumu base d = thread_per_disk env d - 1 →
  reach_capacity_limit env d 0 = false →
  find_best_tablet_to_compaction env ty d
    (match ty with
     | CUMULATIVE_COMPACTION => at_dir cumu d
     | BASE_COMPACTION => at_dir base d
     end) = (Some t, score) →
  disable_auto_compaction t = false →
  (_generate_compaction_tasks env ty dirs cs cumu base).1
  = (generate_loop env ty cs cumu base ([], 0) pre).1
    ++ (if bool_decide (ty = CUMULATIVE_COMPACTION ∨ at_dir cumu d ≠ ∅)
        then [t] else [])
    ++ (generate_loop env ty cs cumu base ([], 0) post).1.
Proof.
  intros Hsh Hc Hcap Hbest Hdis.
  rewrite generate_tasks_fst, Hsh, generate_loop_app. f_equal.
  change (d :: post) with ([d] ++ post). rewrite generate_loop_app. f_equal.
  unfold generate_loop; cbn [foldl]. unfold generate_step.
  rewrite slot_check_last_slot by done.
  destruct (bool_decide (ty = CUMULATIVE_COMPACTION ∨ at_dir cumu d ≠ ∅)).
  - by rewrite Hcap, Hbest, Hdis.
  - destruct cs; simpl; [|done].
    by rewrite Hcap, Hbest, Hdis.
Qed.

Lemma last_slot_pick_rule_witness :
  (_generate_compaction_tasks env2 BASE_COMPACTION [0%nat] false
     one_cumu_running ∅).1 = [] ++ [tablet9] ++ []
  ∧ (_generate_compaction_tasks env2 CUMULATIVE_COMPACTION [0%nat] false
       one_cumu_running ∅).1 = [] ++ [tablet9] ++ [].
Proof.
  split.
  - apply (last_slot_pick_rule env2 BASE_COMPACTION false
             one_cumu_running ∅ [0%nat] [] 0%nat [] tablet9 30);
      vm_compute; reflexivity.
  - apply (last_slot_pick_rule env2 CUMULATIVE_COMPACTION false
             one_cumu_running ∅ [0%nat] [] 0%nat [] tablet9 30);
      vm_compute; reflexivity.
Defined.

(** ** Permits requested and released by a submission *)

Lemma pop_permit_limiter t ty e :
  _permit_limiter (_pop_tablet_from_submitted_compaction t ty e) = _permit_limiter e.
Proof.
  unfold _pop_tablet_from_submitted_compaction.
  destruct ty; simpl; by case_bool_decide.
Qed.

Lemma pop_pools t ty e :
  _cumu_compaction_thread_pool (_pop_tablet_from_submitted_compaction t ty e)
  = _cumu_compaction_thread_pool e
  ∧ _base_compaction_thread_pool (_pop_tablet_from_submitted_compaction t ty e)
    = _base_compaction_thread_pool e.
Proof.
  unfold _pop_tablet_from_submitted_compaction.
  destruct ty; simpl; by case_bool_decide.
Qed.

Lemma run_task_permit_limiter t e :
  _permit_limiter (run_task t e) = _permit_limiter e ++ [Release (task_permits t)].
Proof. unfold run_task. by rewrite pop_permit_limiter. Qed.

Lemma drain_nothing e :
  _cumu_compaction_thread_pool e = [] → _base_compaction_thread_pool e = [] →
  _permit_limiter (drain_pools e) = _permit_limiter e.
Proof. intros Hc Hb. unfold drain_pools. by rewrite Hc, Hb. Qed.

Lemma drain_one e t :
  _cumu_compaction_thread_pool e ++ _base_compaction_thread_pool e = [t] →
  _permit_limiter (drain_pools e) = _permit_limiter e ++ [Release (task_permits t)].
Proof.
  intros H. unfold drain_pools. rewrite H. cbn [foldl].
  by rewrite run_task_permit_limiter.
Qed.

Lemma submit_func_queue ty t e :
  _cumu_compaction_thread_pool e = [] →
  _base_compaction_thread_pool e = [] →
  _cumu_compaction_thread_pool (submit_func ty t e)
    ++ _base_compaction_thread_pool (submit_func ty t e) = [t]
  ∧ _permit_limiter (submit_func ty t e) = _permit_limiter e.
Proof. intros Hc Hb. destruct ty; simpl; by rewrite Hc, Hb. Qed.

Lemma push_keeps tablet ty e :
  let e1 := (_push_tablet_into_submitted_compaction tablet ty e).2 in
  _permit_limiter e1 = _permit_limiter e
  ∧ _cumu_compaction_thread_pool e1 = _cumu_compaction_thread_pool e
  ∧ _base_compaction_thread_pool e1 = _base_compaction_thread_pool e.
Proof. by destruct ty. Qed.

(** Without [force], a run of the submission on idle pools requests and
    releases the same amounts. *)
Lemma unforced_submission_balanced prepare submit_ok tablet ty e :
  _cumu_compaction_thread_pool e = [] →
  _base_compaction_thread_pool e = [] →
  ∃ calls,
    _permit_limiter (submission_run prepare submit_ok tablet ty false e).2
    = _permit_limiter e ++ calls
    ∧ requests calls = releases calls.
Proof.
  intros Hc Hb. unfold submission_run, _submit_compaction_task.
  destruct prepare as [st_ok permits].
  pose proof (push_keeps tablet ty e) as (Hl & Hc1 & Hb1).
  destruct (_push_tablet_into_submitted_compaction tablet ty e)
    as [already e1]. cbn [snd] in Hl, Hc1, Hb1.
  rewrite Hc in Hc1. rewrite Hb in Hb1.
  destruct already.
  { exists []. cbn [snd]. rewrite drain_nothing by done.
    by rewrite Hl, app_nil_r. }
  destruct (st_ok && bool_decide (permits > 0)) eqn:Hp; cbn [negb].
  - exists [Request permits; Release permits]. split; [|done].
    destruct submit_ok; cbn [snd].
    + set (t := {| task_tablet := tablet; task_type := ty; task_permits := permits |}).
      destruct (submit_func_queue ty t (permit_call (Request permits) e1))
        as [Hq Hlq]; [done..|].
      rewrite (drain_one _ t Hq), Hlq. cbn. rewrite Hl.
      by rewrite <- app_assoc.
    + match goal with
      | |- context [_pop_tablet_from_submitted_compaction ?a ?b ?c] =>
          destruct (pop_pools a b c) as [Hpc Hpb]
      end.
      rewrite drain_nothing by (by rewrite ?Hpc, ?Hpb).
      rewrite pop_permit_limiter. cbn. rewrite Hl.
      by rewrite <- !app_assoc.
  - exists []. rewrite app_nil_r.
    match goal with
    | |- context [_pop_tablet_from_submitted_compaction ?a ?b ?c] =>
        destruct (pop_pools a b c) as [Hpc Hpb]
    end.
    destruct (negb st_ok); cbn [snd];
      (rewrite drain_nothing by (by rewrite ?Hpc, ?Hpb));
      by rewrite pop_permit_limiter.
Qed.

(** With [force], a run that passes the preparation releases permits it
    never requested. *)
Lemma forced_submission_unbalanced permits submit_ok tablet ty e :
  _cumu_compaction_thread_pool e = [] →
  _base_compaction_thread_pool e = [] →
  (_push_tablet_into_submitted_compaction tablet ty e).1 = false →
  permits > 0 →
  _permit_limiter (submission_run (true, permits) submit_ok tablet ty true e).2
  = _permit_limiter e ++ [Release permits].
Proof.
  intros Hc Hb Hnew Hpos. unfold submission_run, _submit_compaction_task.
  pose proof (push_keeps tablet ty e) as (Hl & Hc1 & Hb1).
  destruct (_push_tablet_into_submitted_compaction tablet ty e)
    as [already e1]. cbn [fst snd] in Hl, Hc1, Hb1, Hnew. subst already.
  rewrite Hc in Hc1. rewrite Hb in Hb1.
  rewrite bool_decide_eq_true_2 by done. cbn [andb negb].
  destruct submit_ok; cbn [snd].
  - set (t := {| task_tablet := tablet; task_type := ty; task_permits := permits |}).
    destruct (submit_func_queue ty t e1) as [Hq Hlq]; [done..|].
    by rewrite (drain_one _ t Hq), Hlq, Hl.
  - match goal with
    | |- context [_pop_tablet_from_submitted_compaction ?a ?b ?c] =>
        destruct (pop_pools a b c) as [Hpc Hpb]
    end.
    rewrite drain_nothing by (by rewrite ?Hpc, ?Hpb).
    rewrite pop_permit_limiter. cbn. by rewrite Hl.
Qed.

(** C8: with [force = true] the submission requests no permit, and still
    releases 5 permits, whether the pool runs the task or refuses it. *)
Theorem forced_submission_releases_unrequested :
  (forced_run true).1 = OK
  ∧ requests (_permit_limiter (forced_run true).2) = []
  ∧ releases (_permit_limiter (forced_run true).2) = [5]
  ∧ (forced_run false).1 = InternalError
  ∧ requests (_permit_limiter (forced_run false).2) = []
  ∧ releases (_permit_limiter (forced_run false).2) = [5].
Proof. repeat split; vm_compute; reflexivity. Qed.

End CompactionTheory.

(** * Properties of the transaction ledger *)

Module LedgerTheory.
Import Ledger.

(** Case analysis on the test that guards the return of status [k]. *)
Ltac case_return k :=
  match goal with
  | |- context [if ?c then (Returns k, _) else _] => destruct c eqn:?
  end.

(** ** The partition index of one shard *)

Lemma partition_map_insert_lookup t p (pm : txn_partition_map_t) t' :
  partition_map_insert t p pm !! t'
  = if decide (t' = t) then Some ({[p]} ∪ default ∅ (pm !! t)) else pm !! t'.
Proof.
  unfold partition_map_insert.
  destruct (pm !! t) as [s|] eqn:E; case_decide; subst.
  - by rewrite lookup_insert_eq, E.
  - by rewrite lookup_insert_ne.
  - rewrite !lookup_insert_eq. simpl. by rewrite union_empty_r_L.
  - by rewrite !lookup_insert_ne.
Qed.

Lemma partition_map_insert_mem t p (pm : txn_partition_map_t) t' p' :
  (∃ s, partition_map_insert t p pm !! t' = Some s ∧ p' ∈ s)
  ↔ (t' = t ∧ p' = p) ∨ (∃ s, pm !! t' = Some s ∧ p' ∈ s).
Proof.
  rewrite partition_map_insert_lookup. case_decide as Ht; subst.
  - split.
    + intros (s & Hs & Hin). simplify_eq.
      apply elem_of_union in Hin as [Hin|Hin].
      * left. split; [done|]. by apply elem_of_singleton in Hin.
      * right. destruct (pm !! t) as [s'|]; [|set_solver]. eauto.
    + intros [[_ ->]|(s & Hs & Hin)].
      * eexists; split; [done|]. set_solver.
      * eexists; split; [done|]. rewrite Hs. set_solver.
  - split; [eauto|]. intros [[? _]|?]; done.
Qed.

Lemma partition_map_clear_mem t p (pm : txn_partition_map_t) t' p' :
  (∃ s, partition_map_clear t p pm !! t' = Some s ∧ p' ∈ s)
  ↔ (∃ s, pm !! t' = Some s ∧ p' ∈ s) ∧ ¬ (t' = t ∧ p' = p).
Proof.
  unfold partition_map_clear.
  destruct (pm !! t) as [s0|] eqn:E.
  - case_decide as He.
    + destruct (decide (t' = t)) as [->|Hne].
      * rewrite lookup_delete_eq, E. split.
        -- by intros (s & ? & _).
        -- intros [(s & Hs & Hin) Hn]. simplify_eq.
           exfalso. apply Hn. split; [done|].
           destruct (decide (p' = p)); [done|]. set_solver.
      * rewrite lookup_delete_ne by done. split; [|by intros [? _]].
        intros H. split; [done|]. by intros [? _].
    + destruct (decide (t' = t)) as [->|Hne].
      * rewrite lookup_insert_eq, E. split.
        -- intros (s & Hs & Hin). simplify_eq.
           apply elem_of_difference in Hin as [Hin Hnp]. split.
           ++ by exists s0.
           ++ intros [_ ->]. apply Hnp. by apply elem_of_singleton.
        -- intros [(s & Hs & Hin) Hn]. simplify_eq.
           eexists; split; [done|].
           apply elem_of_difference. split; [done|].
           intros Hp%elem_of_singleton. by apply Hn.
      * rewrite lookup_insert_ne by done. split; [|by intros [? _]].
        intros H. split; [done|]. by intros [? _].
  - split; [|by intros [? _]].
    intros (s & Hs & Hin). split; [eauto|]. intros [-> _]. congruence.
Qed.

(** ** The invariant of one shard *)

Lemma shard_inv_store S i tm pm p t ti info :
  shard_inv S i tm pm →
  Z.to_nat (t mod S) = i →
  (rowset info ≠ None → 1 <= p ∧ 1 <= t ∧ 1 <= tablet_id ti) →
  shard_inv S i
    (<[(p, t) := <[ti := info]> (default ∅ (tm !! (p, t)))]> tm)
    (partition_map_insert t p pm).
Proof.
  intros [Hk Hp] Hi Hids. split.
  - intros p' t' tablet_map Hl.
    destruct (decide ((p, t) = (p', t'))) as [Heq|Hne].
    + inversion Heq; subst p' t'. rewrite lookup_insert_eq in Hl.
      inversion Hl; subst tablet_map. split; [done|]. split.
      { apply insert_non_empty. }
      intros ti' info' Hl' Hr.
      destruct (decide (ti = ti')) as [<-|Hti].
      * rewrite lookup_insert_eq in Hl'. inversion Hl'; subst. auto.
      * rewrite lookup_insert_ne in Hl' by done.
        destruct (tm !! (p, t)) as [old|] eqn:Eold; simpl in Hl'.
        -- destruct (Hk _ _ _ Eold) as (_ & _ & H3). eauto.
        -- by rewrite lookup_empty in Hl'.
    + rewrite lookup_insert_ne in Hl by done. eauto.
  - intros t' p'. rewrite partition_map_insert_mem, Hp.
    destruct (decide ((p, t) = (p', t'))) as [Heq|Hne].
    + inversion Heq; subst. rewrite lookup_insert_eq. split; eauto.
    + rewrite lookup_insert_ne by done. split; [|eauto].
      intros [[-> ->]|?]; done.
Qed.

Lemma shard_inv_erase S i tm pm p t ti tablet_map :
  shard_inv S i tm pm →
  tm !! (p, t) = Some tablet_map →
  shard_inv S i
    (if decide (delete ti tablet_map = ∅) then delete (p, t) tm
     else <[(p, t) := delete ti tablet_map]> tm)
    (if decide (delete ti tablet_map = ∅) then partition_map_clear t p pm
     else pm).
Proof.
  intros [Hk Hp] Hl. case_decide as He; split.
  - intros p' t' tablet_map' Hl'.
    apply lookup_delete_Some in Hl' as [_ Hl']. eauto.
  - intros t' p'. rewrite partition_map_clear_mem, Hp.
    destruct (decide ((p, t) = (p', t'))) as [Heq|Hne].
    + inversion Heq; subst. rewrite lookup_delete_eq. split.
      * intros [_ Hn]. exfalso. by apply Hn.
      * by intros [? ?].
    + rewrite lookup_delete_ne by done. split; [by intros [? _]|].
      intros H. split; [done|]. intros [-> ->]. done.
  - intros p' t' tablet_map' Hl'.
    destruct (decide ((p, t) = (p', t'))) as [Heq|Hne].
    + inversion Heq; subst p' t'. rewrite lookup_insert_eq in Hl'.
      inversion Hl'; subst tablet_map'.
      destruct (Hk _ _ _ Hl) as (H1 & _ & H3).
      split; [done|]. split; [done|].
      intros ti' info' Hd Hr. apply lookup_delete_Some in Hd as [_ Hd]. eauto.
    + rewrite lookup_insert_ne in Hl' by done. eauto.
  - intros t' p'. rewrite Hp.
    destruct (decide ((p, t) = (p', t'))) as [Heq|Hne].
    + inversion Heq; subst. rewrite lookup_insert_eq, Hl. split; eauto.
    + by rewrite lookup_insert_ne.
Qed.

Lemma shard_inv_replace S i tm pm p t ti tablet_map info info' :
  shard_inv S i tm pm →
  tm !! (p, t) = Some tablet_map →
  tablet_map !! ti = Some info →
  rowset info' = rowset info →
  shard_inv S i (<[(p, t) := <[ti := info']> tablet_map]> tm) pm.
Proof.
  intros [Hk Hp] Hl Hti Hr. split.
  - intros p' t' tablet_map' Hl'.
    destruct (decide ((p, t) = (p', t'))) as [Heq|Hne].
    + inversion Heq; subst p' t'. rewrite lookup_insert_eq in Hl'.
      inversion Hl'; subst tablet_map'.
      destruct (Hk _ _ _ Hl) as (H1 & _ & H3).
      split; [done|]. split; [apply insert_non_empty|].
      intros ti' info'' Hd Hr'.
      destruct (decide (ti = ti')) as [<-|Hne].
      * rewrite lookup_insert_eq in Hd. inversion Hd; subst.
        apply (H3 ti info); [done|]. by rewrite <- Hr.
      * rewrite lookup_insert_ne in Hd by done. eauto.
    + rewrite lookup_insert_ne in Hl' by done. eauto.
  - intros t' p'. rewrite Hp.
    destruct (decide ((p, t) = (p', t'))) as [Heq|Hne].
    + inversion Heq; subst. rewrite lookup_insert_eq, Hl. split; eauto.
    + by rewrite lookup_insert_ne.
Qed.

(** ** The invariant of the manager *)

Lemma shard_index_lt m t :
  wf m → (shard_index m t < Z.to_nat (_txn_map_shard_size m))%nat.
Proof.
  intros (HS & _ & _). unfold shard_index.
  pose proof (Z.mod_pos_bound t (_txn_map_shard_size m) HS).
  apply Z2Nat.inj_lt; lia.
Qed.

Lemma insert_lookup_total_id `{!Inhabited A} (l : list A) (i : nat) :
  (i < length l)%nat → <[i := l !!! i]> l = l.
Proof. intros Hi. apply list_insert_id. by apply list_lookup_lookup_total_lt. Qed.

Lemma Inv_update m m' i tm pm :
  Inv m →
  (i < Z.to_nat (_txn_map_shard_size m))%nat →
  _txn_map_shard_size m' = _txn_map_shard_size m →
  _txn_tablet_maps m' = <[i := tm]> (_txn_tablet_maps m) →
  _txn_partition_maps m' = <[i := pm]> (_txn_partition_maps m) →
  shard_inv (_txn_map_shard_size m) i tm pm →
  Inv m'.
Proof.
  intros [(HS & Ht & Hp) Hsh] Hi ES Et Ep Hnew. split.
  - unfold wf. rewrite ES, Et, Ep, !length_insert. done.
  - rewrite ES, Et, Ep. intros j Hj.
    destruct (decide (i = j)) as [<-|Hne].
    + rewrite !list_lookup_total_insert_eq by lia. done.
    + rewrite !list_lookup_total_insert_ne by done. auto.
Qed.

Lemma Inv_store m p t ti info :
  Inv m →
  (rowset info ≠ None → 1 <= p ∧ 1 <= t ∧ 1 <= tablet_id ti) →
  Inv (_insert_txn_partition_map_unlocked t p (store_load_info (p, t) ti info m)).
Proof.
  intros HI Hids. pose proof HI as [Hwf Hsh].
  pose proof (shard_index_lt m t Hwf) as Hi.
  eapply (Inv_update m _ (shard_index m t)); [done|done|done|done| |].
  - reflexivity.
  - apply shard_inv_store; [by apply Hsh|done|done].
Qed.

Lemma Inv_erase_at m i p t ti tablet_map :
  Inv m →
  (i < Z.to_nat (_txn_map_shard_size m))%nat →
  (_txn_tablet_maps m !!! i) !! (p, t) = Some tablet_map →
  Inv (erase_tablet_info i (p, t) ti tablet_map m).
Proof.
  intros HI Hi Hl. pose proof HI as [Hwf Hsh].
  pose proof (Hsh i Hi) as Hshi.
  destruct (proj1 Hshi _ _ _ Hl) as (Hidx & _ & _).
  pose proof (shard_inv_erase _ _ _ _ p t ti tablet_map Hshi Hl) as Hnew.
  unfold erase_tablet_info. case_decide as He.
  - eapply (Inv_update m _ i); [done|done|done| | |exact Hnew].
    + reflexivity.
    + cbn. unfold shard_index, _get_txn_partition_map, shard_index. cbn.
      by rewrite Hidx.
  - eapply (Inv_update m _ i); [done|done|done| | |exact Hnew].
    + reflexivity.
    + cbn. rewrite insert_lookup_total_id; [done|].
      destruct Hwf as (_ & _ & ->). done.
Qed.

Lemma Inv_erase m p t ti tablet_map :
  Inv m →
  _get_txn_tablet_map m t !! (p, t) = Some tablet_map →
  Inv (erase_tablet_info (shard_index m t) (p, t) ti tablet_map m).
Proof.
  intros HI Hl. apply Inv_erase_at; [done| |done].
  apply shard_index_lt, HI.
Qed.

Lemma Inv_replace m p t ti tablet_map info info' :
  Inv m →
  _get_txn_tablet_map m t !! (p, t) = Some tablet_map →
  tablet_map !! ti = Some info →
  rowset info' = rowset info →
  Inv (set_tablet_shard (shard_index m t)
         (<[(p, t) := <[ti := info']> tablet_map]> (_get_txn_tablet_map m t)) m).
Proof.
  intros HI Hl Hti Hr. pose proof HI as [Hwf Hsh].
  pose proof (shard_index_lt m t Hwf) as Hi.
  eapply (Inv_update m _ (shard_index m t)); [done|done|done|reflexivity| |].
  - cbn. rewrite insert_lookup_total_id; [done|].
    destruct Hwf as (_ & _ & ->). done.
  - eapply shard_inv_replace; [by apply Hsh|done..].
Qed.

Lemma Inv_new S : 0 < S → Inv (new_TxnManager S).
Proof.
  intros HS. split.
  - unfold wf, new_TxnManager; cbn. by rewrite !length_replicate.
  - cbn. intros i Hi. rewrite !lookup_total_replicate_2 by done. split.
    + intros p t tablet_map Hl. by rewrite lookup_empty in Hl.
    + intros t p. rewrite !lookup_empty. split.
      * by intros (s & ? & _).
      * by intros [? ?].
Qed.

(** ** Every operation keeps the invariant *)

Lemma prepare_txn_Inv cfg now p t tab sh uid lid ing m :
  Inv m → Inv (prepare_txn cfg now p t tab sh uid lid ing m).2.
Proof.
  intros HI. unfold prepare_txn.
  destruct (prepare_check _ _ _ _); [done|].
  case_bool_decide; [done|]. cbn [snd].
  apply Inv_store; [done|]. by intros [].
Qed.

Lemma rollback_txn_Inv p t tab sh uid m :
  Inv m → Inv (rollback_txn p t tab sh uid m).2.
Proof.
  intros HI. unfold rollback_txn.
  destruct (_get_txn_tablet_map m t !! (p, t)) as [tablet_map|] eqn:E; [|done].
  match goal with |- context [if ?c then _ else _] => destruct c end; [done|].
  by apply Inv_erase.
Qed.

Lemma commit_install_Inv env p t tab sh uid lid rp rec m :
  Inv m → ¬ (p < 1 ∨ t < 1 ∨ tab < 1) →
  Inv (commit_install env p t tab sh uid lid rp rec m).
Proof.
  intros HI Hids. unfold commit_install.
  apply Inv_store; [done|]. intros _. cbn. lia.
Qed.

Lemma commit_txn_Inv env meta p t tab sh uid lid rp rec w :
  Inv (mgr w) → Inv (mgr (commit_txn env meta p t tab sh uid lid rp rec w).2).
Proof.
  intros HI. unfold commit_txn.
  case_bool_decide as Hids; [done|].
  destruct rp as [rp|]; [|done].
  destruct (commit_check _ _ _ _ _); [done|].
  case_return ROWSET_SAVE_FAILED.
  { by destruct (negb rec). }
  cbn [snd mgr set_mgr].
  assert (mgr (if negb rec
               then emit (RowsetMetaSave meta uid (rowset_id (heap w rp)) false) w
               else w) = mgr w) as -> by (by destruct rec).
  by apply commit_install_Inv.
Qed.

Lemma publish_delete_bitmap_mgr env tab r info w :
  mgr (publish_delete_bitmap env tab r info w).2 = mgr w.
Proof.
  unfold publish_delete_bitmap.
  repeat (match goal with
          | |- context [if ?c then _ else _] => destruct c
          end; cbn; try done).
Qed.

Lemma publish_remove_Inv p t ti m : Inv m → Inv (publish_remove p t ti m).
Proof.
  intros HI. unfold publish_remove.
  destruct (_get_txn_tablet_map m t !! (p, t)) as [tablet_map|] eqn:E; [|done].
  by apply Inv_erase.
Qed.

Lemma publish_txn_mgr env meta p t tab sh uid v w :
  mgr (publish_txn env meta p t tab sh uid v w).2 = mgr w
  ∨ ((publish_txn env meta p t tab sh uid v w).1 = Returns OK
     ∧ mgr (publish_txn env meta p t tab sh uid v w).2
       = publish_remove p t
           {| tablet_id := tab; schema_hash := sh; tablet_uid := uid |} (mgr w)).
Proof.
  unfold publish_txn.
  destruct (publish_get_tablet env tab) as [tablet|]; [|by left].
  match goal with |- context [match rowset ?i with _ => _ end] =>
    destruct (rowset i) as [r|] eqn:Hrow; [|by left];
    pose proof (publish_delete_bitmap_mgr env tab r i (make_visible r v w)) as Hm
  end.
  destruct (publish_delete_bitmap _ _ _ _ _) as [[o|] w1]; cbn [snd] in Hm;
    [by left|].
  assert (mgr w1 = mgr w) as Hm1 by done.
  case_return ROWSET_ADD_TO_BINLOG_FAILED.
  { left. cbn [snd]. by destruct (is_enable_binlog tablet). }
  case_return ROWSET_SAVE_FAILED.
  { left. cbn [snd]. by destruct (is_enable_binlog tablet). }
  match goal with H : negb (ok (publish_save env)) = false |- _ =>
    rename H into Hsave end.
  apply negb_false_iff in Hsave. unfold ok in Hsave.
  apply bool_decide_eq_true_1 in Hsave.
  right. cbn [fst snd mgr set_mgr]. rewrite Hsave. split; [done|].
  by destruct (is_enable_binlog tablet); cbn [mgr emit]; rewrite Hm1.
Qed.

Lemma publish_txn_Inv env meta p t tab sh uid v w :
  Inv (mgr w) → Inv (mgr (publish_txn env meta p t tab sh uid v w).2).
Proof.
  intros HI.
  destruct (publish_txn_mgr env meta p t tab sh uid v w) as [->|[_ ->]];
    [done|by apply publish_remove_Inv].
Qed.

Lemma delete_txn_Inv meta p t tab sh uid w :
  Inv (mgr w) → Inv (mgr (delete_txn meta p t tab sh uid w).2).
Proof.
  intros HI. unfold delete_txn.
  destruct (_get_txn_tablet_map (mgr w) t !! (p, t)) as [tablet_map|] eqn:E;
    [|done].
  destruct (tablet_map !! _) as [info|]; [|by apply Inv_erase].
  destruct (rowset info) as [r|], meta as [mt|]; try by apply Inv_erase.
  case_bool_decide; [done|]. by apply Inv_erase.
Qed.

Lemma lookup_total_Some_lt {A} (l : list (gmap TxnKey A)) (i : nat) k x :
  (l !!! i) !! k = Some x → (i < length l)%nat.
Proof.
  intros H. destruct (decide (i < length l)%nat) as [|Hge]; [done|].
  rewrite list_lookup_total_alt, lookup_ge_None_2 in H by lia.
  cbn in H. by rewrite lookup_empty in H.
Qed.

Lemma force_rollback_step_Inv meta ti uid i w key :
  Inv (mgr w) →
  Inv (mgr (force_rollback_step meta ti uid i w key))
  ∧ _txn_map_shard_size (mgr (force_rollback_step meta ti uid i w key))
    = _txn_map_shard_size (mgr w).
Proof.
  intros HI. unfold force_rollback_step. destruct key as [p t].
  destruct ((_txn_tablet_maps (mgr w) !!! i) !! (p, t)) as [tablet_map|] eqn:E;
    [|done].
  assert (i < Z.to_nat (_txn_map_shard_size (mgr w)))%nat as Hi.
  { destruct HI as [(_ & <- & _) _]. by eapply lookup_total_Some_lt. }
  destruct (tablet_map !! ti) as [info|].
  - match goal with |- context [set_mgr _ ?w1] =>
      assert (mgr w1 = mgr w) as Hm by (by destruct (rowset info), meta)
    end.
    cbn [mgr set_mgr]. rewrite Hm. split; [by apply Inv_erase_at|].
    unfold erase_tablet_info. by case_decide.
  - case_decide as He; [|done]. exfalso.
    destruct HI as [_ Hsh]. destruct (proj1 (Hsh i Hi) _ _ _ E) as (_ & Hne & _).
    done.
Qed.

Lemma force_rollback_steps_Inv meta ti uid i keys : ∀ w,
  Inv (mgr w) →
  Inv (mgr (foldl (force_rollback_step meta ti uid i) w keys))
  ∧ _txn_map_shard_size (mgr (foldl (force_rollback_step meta ti uid i) w keys))
    = _txn_map_shard_size (mgr w).
Proof.
  induction keys as [|k keys IH]; intros w HI; cbn [foldl]; [done|].
  destruct (force_rollback_step_Inv meta ti uid i w k HI) as [HI1 HS1].
  destruct (IH _ HI1) as [HI2 HS2]. split; [done|]. by rewrite HS2.
Qed.

Lemma force_rollback_shards_Inv meta ti uid shards : ∀ w,
  Inv (mgr w) →
  Inv (mgr (foldl (force_rollback_shard meta ti uid) w shards)).
Proof.
  induction shards as [|i shards IH]; intros w HI; cbn [foldl]; [done|].
  apply IH. unfold force_rollback_shard.
  by apply force_rollback_steps_Inv.
Qed.

Lemma force_rollback_Inv meta tab sh uid w :
  Inv (mgr w) → Inv (mgr (force_rollback_tablet_related_txns meta tab sh uid w)).
Proof. intros HI. by apply force_rollback_shards_Inv. Qed.

Lemma set_txn_related_delete_bitmap_Inv p t tab sh uid mow bm ids m m' :
  Inv m →
  set_txn_related_delete_bitmap p t tab sh uid mow bm ids m = Some m' →
  Inv m'.
Proof.
  intros HI. unfold set_txn_related_delete_bitmap.
  destruct (_get_txn_tablet_map m t !! (p, t)) as [tablet_map|] eqn:E.
  - destruct (tablet_map !! _) as [info|] eqn:Ei; [|done].
    intros [= <-]. by eapply Inv_replace.
  - by intros [= <-].
Qed.

Lemma reachable_Inv w : reachable w → Inv (mgr w).
Proof.
  induction 1 as [S h HS| | | | | | | | | |]; cbn [mgr set_mgr].
  - by apply Inv_new.
  - by apply prepare_txn_Inv.
  - by apply commit_txn_Inv.
  - by apply commit_install_Inv.
  - by apply publish_txn_Inv.
  - by apply publish_remove_Inv.
  - by apply rollback_txn_Inv.
  - by apply delete_txn_Inv.
  - by apply force_rollback_Inv.
  - by eapply set_txn_related_delete_bitmap_Inv.
  - done.
Qed.

Lemma Inv_consistent m : Inv m → partition_index_consistent m.
Proof.
  intros [(HS & Ht & Hp) Hsh] i tm pm Htm Hpm t p.
  assert (i < Z.to_nat (_txn_map_shard_size m))%nat as Hi.
  { rewrite <- Ht. by eapply lookup_lt_Some. }
  destruct (Hsh i Hi) as [Hk Hidx].
  rewrite (list_lookup_total_correct _ _ _ Htm) in Hk, Hidx.
  rewrite (list_lookup_total_correct _ _ _ Hpm) in Hidx.
  rewrite Hidx. split.
  - intros [tablet_map Hl]. exists tablet_map. split; [done|].
    by destruct (Hk _ _ _ Hl) as (_ & ? & _).
  - intros (tablet_map & Hl & _). eauto.
Qed.

(** ** The claims on the ledger *)

(** C10: in every state the ledger reaches by prepare, commit, publish,
    rollback, delete and force-rollback-for-tablet, each shard's partition
    index maps a transaction id to a partition id if and only if the
    transaction map of the shard holds a non-empty tablet map under
    (partition id, transaction id). *)
Theorem partition_index_consistent_reachable w :
  reachable w → partition_index_consistent (mgr w).
Proof. intros H. by apply Inv_consistent, reachable_Inv. Qed.

Lemma partition_index_consistent_reachable_witness :
  reachable (committed 4 1) ∧ partition_index_consistent (mgr (committed 4 1)).
Proof.
  assert (reachable (committed 4 1)) as H.
  { unfold committed, prepared.
    apply reach_commit, reach_prepare, reach_new. lia. }
  split; [exact H|].
  exact (partition_index_consistent_reachable (committed 4 1) H).
Defined.

Lemma reachable_committed_ids w p t ti tablet_map info :
  reachable w →
  _get_txn_tablet_map (mgr w) t !! (p, t) = Some tablet_map →
  tablet_map !! ti = Some info →
  rowset info ≠ None →
  1 <= p ∧ 1 <= t ∧ 1 <= tablet_id ti.
Proof.
  intros Hr Hl Hti Hrow. destruct (reachable_Inv w Hr) as [Hwf Hsh].
  destruct (Hsh _ (shard_index_lt (mgr w) t Hwf)) as [Hk _].
  destruct (Hk _ _ _ Hl) as (_ & _ & H3). eauto.
Qed.

(** C2: in every state the ledger reaches, for an entry that already holds
    a rowset, commit with the same load_id and a rowset of the same id
    returns success and changes nothing; commit with the same load_id and a
    rowset of a different id returns PUSH_TRANSACTION_ALREADY_EXIST and
    changes nothing: the stored rowset, the entry and the rest of the ledger
    are as before, and nothing is written to the metadata store. *)
Theorem commit_txn_duplicate w env meta p t tab sh uid lid rp rec
    tablet_map info r :
  reachable w →
  _get_txn_tablet_map (mgr w) t !! (p, t) = Some tablet_map →
  tablet_map !! {| tablet_id := tab; schema_hash := sh; tablet_uid := uid |}
    = Some info →
  rowset info = Some r →
  load_id info = lid →
  (rowset_id (heap w rp) = rowset_id (heap w r) →
   commit_txn env meta p t tab sh uid lid (Some rp) rec w = (Returns OK, w))
  ∧ (rowset_id (heap w rp) ≠ rowset_id (heap w r) →
     commit_txn env meta p t tab sh uid lid (Some rp) rec w
     = (Returns PUSH_TRANSACTION_ALREADY_EXIST, w)).
Proof.
  intros Hr Hl Hti Hrow Hlid.
  destruct (reachable_committed_ids w p t _ tablet_map info Hr Hl Hti)
    as (Hp & Ht & Htab); [by rewrite Hrow|]. cbn in Htab.
  unfold commit_txn. rewrite bool_decide_eq_false_2 by lia.
  unfold commit_check. cbn [fst snd]. rewrite Hl, Hti, Hrow, Hlid.
  rewrite !bool_decide_eq_true_2 by done. cbn [andb].
  split; intros Hid.
  - by rewrite bool_decide_eq_true_2 by done.
  - rewrite bool_decide_eq_false_2 by done.
    by rewrite bool_decide_eq_true_2 by done.
Qed.

Lemma commit_txn_duplicate_witness :
  commit_txn commit_env0 (Some 0%nat) 1 100 5 1 uidA loadL (Some 1%nat) false
    (committed 4 1) = (Returns OK, committed 4 1)
  ∧ commit_txn commit_env0 (Some 0%nat) 1 100 5 1 uidA loadL (Some 2%nat) false
      (committed 4 1) = (Returns PUSH_TRANSACTION_ALREADY_EXIST, committed 4 1).
Proof.
  assert (reachable (committed 4 1)) as H.
  { unfold committed, prepared.
    apply reach_commit, reach_prepare, reach_new. lia. }
  pose (info := mk_TabletTxnInfo 1001 loadL (Some 1%nat) false).
  pose (tablet_map :=
          ({[ {| tablet_id := 5; schema_hash := 1; tablet_uid := uidA |} := info ]}
           : gmap TabletInfo TabletTxnInfo)).
  split.
  - refine (proj1 (commit_txn_duplicate (committed 4 1) commit_env0 (Some 0%nat)
              1 100 5 1 uidA loadL 1%nat false tablet_map info 1%nat H _ _ _ _) _);
      vm_compute; reflexivity.
  - refine (proj2 (commit_txn_duplicate (committed 4 1) commit_env0 (Some 0%nat)
              1 100 5 1 uidA loadL 2%nat false tablet_map info 1%nat H _ _ _ _) _);
      vm_compute; try reflexivity. discriminate.
Defined.

(** C4: rollback on an entry whose rowset is non-null fails with
    TRANSACTION_ALREADY_COMMITTED and leaves the ledger, and so the entry,
    unchanged. *)
Theorem rollback_txn_committed m p t tab sh uid tablet_map info :
  _get_txn_tablet_map m t !! (p, t) = Some tablet_map →
  tablet_map !! {| tablet_id := tab; schema_hash := sh; tablet_uid := uid |}
    = Some info →
  rowset info ≠ None →
  rollback_txn p t tab sh uid m = (TRANSACTION_ALREADY_COMMITTED, m)
  ∧ has_txn p t tab sh uid (rollback_txn p t tab sh uid m).2 = true.
Proof.
  intros Hl Hti Hrow. unfold rollback_txn. rewrite Hl, Hti.
  rewrite bool_decide_eq_true_2 by done. split; [done|].
  cbn [snd]. unfold has_txn. rewrite Hl, Hti.
  by rewrite bool_decide_eq_true_2 by eauto.
Qed.

Lemma rollback_txn_committed_witness :
  rollback_txn 1 100 5 1 uidA (mgr (committed 4 1))
  = (TRANSACTION_ALREADY_COMMITTED, mgr (committed 4 1))
  ∧ has_txn 1 100 5 1 uidA
      (rollback_txn 1 100 5 1 uidA (mgr (committed 4 1))).2 = true.
Proof.
  apply (rollback_txn_committed (mgr (committed 4 1)) 1 100 5 1 uidA
           {[ {| tablet_id := 5; schema_hash := 1; tablet_uid := uidA |}
                := mk_TabletTxnInfo 1001 loadL (Some 1%nat) false ]}
           (mk_TabletTxnInfo 1001 loadL (Some 1%nat) false)).
  - vm_compute; reflexivity.
  - vm_compute; reflexivity.
  - discriminate.
Defined.

(** C5, as stated, fails: when the tablet manager does not know the tablet,
    publish returns OK although the ledger holds no entry for the key. *)
Lemma publish_txn_unknown_tablet_ok :
  has_txn 1 100 5 1 uidA (mgr (new_World 4 rowsets0)) = false
  ∧ (publish_txn (publish_env false OK) (Some 0%nat) 1 100 5 1 uidA (2, 2)
       (new_World 4 rowsets0)).1 = Returns OK.
Proof. split; vm_compute; reflexivity. Qed.

(** C5 (amended): for every publish call, if no ledger entry with a
    non-null rowset exists for the (partition, transaction, tablet) key,
    publish changes nothing; it fails with TRANSACTION_NOT_EXIST when the
    tablet manager knows the tablet, and returns OK when it does not. *)
Theorem publish_txn_not_exist env meta p t tab sh uid v w :
  (∀ tablet_map info,
     _get_txn_tablet_map (mgr w) t !! (p, t) = Some tablet_map →
     tablet_map !! {| tablet_id := tab; schema_hash := sh; tablet_uid := uid |}
       = Some info →
     rowset info = None) →
  publish_txn env meta p t tab sh uid v w
  = (match publish_get_tablet env tab with
     | Some _ => Returns TRANSACTION_NOT_EXIST
     | None => Returns OK
     end, w).
Proof.
  intros Hnone. unfold publish_txn.
  destruct (publish_get_tablet env tab) as [tablet|]; [|done].
  destruct (_get_txn_tablet_map (mgr w) t !! (p, t)) as [tablet_map|] eqn:E;
    [|done].
  destruct (tablet_map !! _) as [info|] eqn:Ei; [|done].
  cbn [from_option id]. by rewrite (Hnone _ _ eq_refl Ei).
Qed.

Lemma publish_txn_not_exist_witness :
  publish_txn (publish_env true OK) (Some 0%nat) 1 100 5 1 uidA (2, 2) (prepared 4)
  = (Returns TRANSACTION_NOT_EXIST, (prepared 4)).
Proof.
  apply (publish_txn_not_exist (publish_env true OK) (Some 0%nat) 1 100 5 1
           uidA (2, 2) (prepared 4)).
  intros tablet_map info Hl Hti.
  assert (_get_txn_tablet_map (mgr (prepared 4)) 100 !! (1, 100)
          = Some {[ {| tablet_id := 5; schema_hash := 1; tablet_uid := uidA |}
                      := mk_TabletTxnInfo 1000 loadL None false ]}) as E
    by (vm_compute; reflexivity).
  rewrite E in Hl. injection Hl as <-.
  rewrite lookup_singleton_eq in Hti. by injection Hti as <-.
Defined.

(** C6, as stated, fails: the entry of [committed 4 3] holds a rowset of
    version (2, 2); called with a null metadata store, delete returns OK and
    drops the entry from the ledger. *)
Lemma delete_txn_published_null_meta :
  version (heap (committed 4 3) 3%nat) = (2, 2)
  ∧ has_txn 1 100 5 1 uidA (mgr (committed 4 3)) = true
  ∧ (delete_txn None 1 100 5 1 uidA (committed 4 3)).1 = Returns OK
  ∧ has_txn 1 100 5 1 uidA (mgr (delete_txn None 1 100 5 1 uidA (committed 4 3)).2)
    = false.
Proof. repeat split; vm_compute; reflexivity. Qed.

Lemma has_txn_erase m p t tab sh uid tablet_map :
  _get_txn_tablet_map m t !! (p, t) = Some tablet_map →
  has_txn p t tab sh uid
    (erase_tablet_info (shard_index m t) (p, t)
       {| tablet_id := tab; schema_hash := sh; tablet_uid := uid |}
       tablet_map m) = false.
Proof.
  intros Hl. pose proof (lookup_total_Some_lt _ _ _ _ Hl) as Hi.
  unfold has_txn, erase_tablet_info. case_decide as He.
  - unfold _get_txn_tablet_map, shard_index. cbn.
    rewrite list_lookup_total_insert_eq by done.
    by rewrite lookup_delete_eq.
  - unfold _get_txn_tablet_map, shard_index. cbn.
    rewrite list_lookup_total_insert_eq by done.
    rewrite lookup_insert_eq, lookup_delete_eq.
    apply bool_decide_eq_false_2. by intros [? ?].
Qed.

(** C6 (amended): for every ledger entry whose rowset has a version greater
    than 0, delete never removes the rowset from the persistent metadata
    store; called with a non-null metadata store it fails with
    TRANSACTION_ALREADY_COMMITTED and changes nothing, called with a null
    one it drops the entry from the ledger and returns OK. *)
Theorem delete_txn_published meta p t tab sh uid w tablet_map info r :
  _get_txn_tablet_map (mgr w) t !! (p, t) = Some tablet_map →
  tablet_map !! {| tablet_id := tab; schema_hash := sh; tablet_uid := uid |}
    = Some info →
  rowset info = Some r →
  (version (heap w r)).1 > 0 →
  trace (delete_txn meta p t tab sh uid w).2 = trace w
  ∧ (meta ≠ None →
     delete_txn meta p t tab sh uid w = (Returns TRANSACTION_ALREADY_COMMITTED, w))
  ∧ (meta = None →
     (delete_txn meta p t tab sh uid w).1 = Returns OK
     ∧ has_txn p t tab sh uid (mgr (delete_txn meta p t tab sh uid w).2) = false).
Proof.
  intros Hl Hti Hrow Hv. unfold delete_txn. rewrite Hl, Hti, Hrow.
  destruct meta as [mt|].
  - rewrite bool_decide_eq_true_2 by done. done.
  - split; [done|]. split; [done|]. intros _. split; [done|].
    cbn [snd mgr set_mgr]. by apply has_txn_erase.
Qed.

Lemma delete_txn_published_witness :
  trace (delete_txn (Some 0%nat) 1 100 5 1 uidA (committed 4 3)).2
  = trace (committed 4 3)
  ∧ delete_txn (Some 0%nat) 1 100 5 1 uidA (committed 4 3)
    = (Returns TRANSACTION_ALREADY_COMMITTED, committed 4 3).
Proof.
  destruct (delete_txn_published (Some 0%nat) 1 100 5 1 uidA (committed 4 3)
              {[ {| tablet_id := 5; schema_hash := 1; tablet_uid := uidA |}
                   := mk_TabletTxnInfo 1001 loadL (Some 3%nat) false ]}
              (mk_TabletTxnInfo 1001 loadL (Some 3%nat) false) 3%nat)
    as (H1 & H2 & _).
  - vm_compute; reflexivity.
  - vm_compute; reflexivity.
  - reflexivity.
  - vm_compute; reflexivity.
  - split; [exact H1|]. apply H2. discriminate.
Defined.

(** Registering a partition twice is registering it once. *)
Lemma partition_map_insert_idem t p (pm : txn_partition_map_t) :
  partition_map_insert t p (partition_map_insert t p pm)
  = partition_map_insert t p pm.
Proof.
  apply map_eq. intros t'. rewrite !partition_map_insert_lookup.
  case_decide; [|done]. rewrite decide_True by done. cbn.
  f_equal. by rewrite (assoc_L (∪)), union_idemp_L.
Qed.

Lemma store_load_info_twice (key : TxnKey) (ti : TabletInfo)
    (info1 info2 : TabletTxnInfo) (tm : txn_tablet_map_t) :
  <[key := <[ti := info2]>
             (default ∅ ((<[key := <[ti := info1]> (default ∅ (tm !! key))]> tm)
                         !! key))]>
    (<[key := <[ti := info1]> (default ∅ (tm !! key))]> tm)
  = <[key := <[ti := info2]> (default ∅ (tm !! key))]> tm.
Proof.
  rewrite lookup_insert_eq. cbn.
  by rewrite !insert_insert_eq.
Qed.

(** C7, as stated, fails: the ledger has one shard, which holds transaction
    100, and the ceiling is 1; the first prepare of transaction 104 succeeds
    and brings the shard to two transactions, the second prepare with the
    same load_id returns TOO_MANY_TRANSACTIONS. *)
Lemma prepare_txn_twice_second_rejected :
  (prepare_txn (ceiling 1) 2000 1 104 5 1 uidA loadL false (mgr (committed 1 1))).1
  = OK
  ∧ (prepare_txn (ceiling 1) 2000 1 104 5 1 uidA loadL false
       (prepare_txn (ceiling 1) 2000 1 104 5 1 uidA loadL false
          (mgr (committed 1 1))).2).1
    = TOO_MANY_TRANSACTIONS.
Proof. split; vm_compute; reflexivity. Qed.

(** C7 (amended): calling prepare twice in a row with the same key, tablet
    identity, load_id and ingest flag leaves the ledger in the state a single
    call leaves it in (no duplicate entries): the state after the first call,
    or, when the second call installs the entry again, the state a single
    call made at the second call's clock reading produces; these are the same
    state when the clock did not move.  The second call returns success when
    the entry already held a rowset under the same load_id, or when, after
    the first call, the partition index of the transaction's shard holds no
    more transactions than the ceiling, and TOO_MANY_TRANSACTIONS
    otherwise. *)
Theorem prepare_txn_twice cfg now1 now2 p t tab sh uid lid ing m :
  wf m →
  ((prepare_txn cfg now2 p t tab sh uid lid ing
      (prepare_txn cfg now1 p t tab sh uid lid ing m).2).2
   = (prepare_txn cfg now1 p t tab sh uid lid ing m).2
   ∨ (prepare_txn cfg now2 p t tab sh uid lid ing
        (prepare_txn cfg now1 p t tab sh uid lid ing m).2).2
     = (prepare_txn cfg now2 p t tab sh uid lid ing m).2)
  ∧ (now1 = now2 →
     (prepare_txn cfg now2 p t tab sh uid lid ing
        (prepare_txn cfg now1 p t tab sh uid lid ing m).2).2
     = (prepare_txn cfg now1 p t tab sh uid lid ing m).2)
  ∧ (prepare_txn cfg now2 p t tab sh uid lid ing
       (prepare_txn cfg now1 p t tab sh uid lid ing m).2).1
    = if prepare_check (p, t)
           {| tablet_id := tab; schema_hash := sh; tablet_uid := uid |} lid m
         || bool_decide
              (Z.of_nat (size (_get_txn_partition_map
                                 (prepare_txn cfg now1 p t tab sh uid lid ing m).2 t))
               <= to_uint64 (max_runnings_transactions_per_txn_map cfg))
      then OK else TOO_MANY_TRANSACTIONS.
Proof.
  intros Hwf.
  pose proof (shard_index_lt m t Hwf) as Hi. destruct Hwf as (HS & Ht & Hp).
  set (ti := {| tablet_id := tab; schema_hash := sh; tablet_uid := uid |}).
  set (install := λ now,
         _insert_txn_partition_map_unlocked t p
           (store_load_info (p, t) ti (mk_TabletTxnInfo now lid None ing) m)).
  assert (∀ now, prepare_txn cfg now p t tab sh uid lid ing m
          = if prepare_check (p, t) ti lid m then (OK, m)
            else if bool_decide
                      (Z.of_nat (size (_get_txn_partition_map m t))
                       > to_uint64 (max_runnings_transactions_per_txn_map cfg))
            then (TOO_MANY_TRANSACTIONS, m) else (OK, install now)) as Hfirst
    by done.
  pose proof (Hfirst now1) as H1. pose proof (Hfirst now2) as H2.
  clear Hfirst.
  destruct (prepare_check (p, t) ti lid m) eqn:Hc1.
  { rewrite H1. cbn [snd]. rewrite H2. auto. }
  case_bool_decide as Hsz1.
  { rewrite H1. cbn [snd]. rewrite H2. cbn [fst snd orb].
    rewrite bool_decide_eq_false_2 by lia. auto. }
  rewrite H1, H2. cbn [snd orb]. clear H1 H2.
  set (m1 := install now1).
  assert (_get_txn_tablet_map m1 t
          = <[(p, t) := <[ti := mk_TabletTxnInfo now1 lid None ing]>
                          (default ∅ (_get_txn_tablet_map m t !! (p, t)))]>
              (_get_txn_tablet_map m t)) as Htm1.
  { unfold m1, install, _get_txn_tablet_map, shard_index. cbn.
    rewrite list_lookup_total_insert_eq; [done|].
    rewrite Ht. exact Hi. }
  assert (_get_txn_partition_map m1 t
          = partition_map_insert t p (_get_txn_partition_map m t)) as Hpm1.
  { unfold m1, install, _get_txn_partition_map, shard_index. cbn.
    rewrite list_lookup_total_insert_eq; [done|].
    rewrite Hp. exact Hi. }
  assert (prepare_check (p, t) ti lid m1 = false) as Hc2.
  { unfold prepare_check. cbn [snd]. rewrite Htm1.
    rewrite lookup_insert_eq, lookup_insert_eq.
    apply andb_false_intro2. apply bool_decide_eq_false_2. by intros ?. }
  unfold prepare_txn. fold ti. rewrite Hc2.
  case_bool_decide as Hsz2.
  { cbn [fst snd]. rewrite bool_decide_eq_false_2 by lia. auto. }
  cbn [fst snd]. rewrite (bool_decide_eq_true_2 _) by lia.
  assert (_insert_txn_partition_map_unlocked t p
            (store_load_info (p, t) ti (mk_TabletTxnInfo now2 lid None ing) m1)
          = install now2) as Hsecond.
  { assert (store_load_info (p, t) ti (mk_TabletTxnInfo now2 lid None ing) m1
            = set_tablet_shard (shard_index m t)
                (<[(p, t) := <[ti := mk_TabletTxnInfo now2 lid None ing]>
                               (default ∅ (_get_txn_tablet_map m t !! (p, t)))]>
                   (_get_txn_tablet_map m t)) m1) as Hst.
    { unfold store_load_info. cbn [fst snd]. rewrite Htm1.
      by rewrite store_load_info_twice. }
    rewrite Hst. unfold _insert_txn_partition_map_unlocked at 1.
    match goal with
    | |- context [_get_txn_partition_map (set_tablet_shard ?i ?x m1) t] =>
        change (_get_txn_partition_map (set_tablet_shard i x m1) t)
          with (_get_txn_partition_map m1 t)
    end.
    rewrite Hpm1, partition_map_insert_idem.
    unfold m1, install, _insert_txn_partition_map_unlocked, store_load_info,
      set_partition_shard, set_tablet_shard, shard_index,
      _get_txn_partition_map, _get_txn_tablet_map, shard_index. cbn.
    by rewrite !list_insert_insert_eq. }
  rewrite Hsecond. split; [by right|]. split; [|done].
  by intros ->.
Qed.

Lemma prepare_txn_twice_witness :
  wf (new_TxnManager 4)
  ∧ (prepare_txn (ceiling 100) 1000 1 100 5 1 uidA loadL false
       (prepare_txn (ceiling 100) 1000 1 100 5 1 uidA loadL false
          (new_TxnManager 4)).2).2
    = (prepare_txn (ceiling 100) 1000 1 100 5 1 uidA loadL false
         (new_TxnManager 4)).2
  ∧ (prepare_txn (ceiling 100) 1000 1 100 5 1 uidA loadL false
       (prepare_txn (ceiling 100) 1000 1 100 5 1 uidA loadL false
          (new_TxnManager 4)).2).1 = OK.
Proof.
  assert (wf (new_TxnManager 4)) as Hwf.
  { unfold wf. cbn. repeat split; lia. }
  split; [exact Hwf|].
  destruct (prepare_txn_twice (ceiling 100) 1000 1000 1 100 5 1 uidA loadL false
              (new_TxnManager 4) Hwf) as (_ & H1 & H2).
  split; [exact (H1 eq_refl)|]. rewrite H2. vm_compute. reflexivity.
Defined.

(** C9, as stated, fails: the ledger has one shard, whose partition index
    holds the transactions 100 and 104 of partition 1, and the ceiling is 1;
    prepare for the entry of transaction 100, already committed under the
    same load_id, returns OK. *)
Lemma prepare_txn_over_ceiling_ok :
  size (_get_txn_partition_map (mgr two_committed) 100) = 2%nat
  ∧ (prepare_txn (ceiling 1) 2000 1 100 5 1 uidA loadL false
       (mgr two_committed)).1 = OK.
Proof. split; vm_compute; reflexivity. Qed.

(** C9 (amended): for every prepare call, if the number of transactions in
    the partition index of the transaction's shard exceeds the configured
    ceiling, prepare inserts no entry and changes nothing; it fails with
    TOO_MANY_TRANSACTIONS unless the (transaction, tablet) entry already
    holds a rowset under the same load_id, in which case it returns OK. *)
Theorem prepare_txn_too_many cfg now p t tab sh uid lid ing m :
  Z.of_nat (size (_get_txn_partition_map m t))
  > to_uint64 (max_runnings_transactions_per_txn_map cfg) →
  (prepare_txn cfg now p t tab sh uid lid ing m).2 = m
  ∧ (prepare_txn cfg now p t tab sh uid lid ing m).1
    = if prepare_check (p, t)
           {| tablet_id := tab; schema_hash := sh; tablet_uid := uid |} lid m
      then OK else TOO_MANY_TRANSACTIONS.
Proof.
  intros Hsz. unfold prepare_txn.
  destruct (prepare_check _ _ _ _); [done|].
  by rewrite bool_decide_eq_true_2 by done.
Qed.

Lemma prepare_txn_too_many_witness :
  (prepare_txn (ceiling 1) 2000 1 108 5 1 uidA loadL false (mgr two_committed)).2
  = mgr two_committed
  ∧ (prepare_txn (ceiling 1) 2000 1 108 5 1 uidA loadL false
       (mgr two_committed)).1 = TOO_MANY_TRANSACTIONS.
Proof.
  apply (prepare_txn_too_many (ceiling 1) 2000 1 108 5 1 uidA loadL false
           (mgr two_committed)).
  vm_compute. reflexivity.
Defined.

(** A publish that does not return OK leaves the maps of the ledger as
    they were. *)
Lemma publish_txn_failure_keeps_maps env meta p t tab sh uid v w :
  (publish_txn env meta p t tab sh uid v w).1 ≠ Returns OK →
  mgr (publish_txn env meta p t tab sh uid v w).2 = mgr w.
Proof.
  intros Hfail.
  by destruct (publish_txn_mgr env meta p t tab sh uid v w) as [?|[? _]].
Qed.

(** For an entry without merge-on-write on a tablet with binlog enabled, a
    failing binlog append ends publish right after the rowset was made
    visible: nothing is saved, the maps are untouched, and the rowset object
    stays at the publish version. *)
Lemma publish_txn_binlog_failure env meta p t tab sh uid v w tablet
    tablet_map info r :
  publish_get_tablet env tab = Some tablet →
  is_enable_binlog tablet = true →
  _get_txn_tablet_map (mgr w) t !! (p, t) = Some tablet_map →
  tablet_map !! {| tablet_id := tab; schema_hash := sh; tablet_uid := uid |}
    = Some info →
  rowset info = Some r →
  unique_key_merge_on_write info = false →
  publish_add_to_binlog env ≠ OK →
  publish_txn env meta p t tab sh uid v w
  = (Returns ROWSET_ADD_TO_BINLOG_FAILED,
     emit (AddToBinlog r) (make_visible r v w))
  ∧ version (heap (publish_txn env meta p t tab sh uid v w).2 r) = v.
Proof.
  intros Htab Hbin Hl Hti Hrow Hmow Hfail.
  assert (publish_txn env meta p t tab sh uid v w
          = (Returns ROWSET_ADD_TO_BINLOG_FAILED,
             emit (AddToBinlog r) (make_visible r v w))) as E.
  { unfold publish_txn. rewrite Htab.
    rewrite Hl, Hti. cbn [from_option id]. rewrite Hrow.
    unfold publish_delete_bitmap. rewrite Hmow, Hbin.
    unfold ok. by rewrite bool_decide_eq_false_2 by done. }
  split; [exact E|]. rewrite E. cbn. by rewrite decide_True.
Qed.

(** C3: the entry of [committed 4 1] holds a pending rowset (version (0, 0)).
    Publish at version (2, 2) with a failing binlog append returns
    ROWSET_ADD_TO_BINLOG_FAILED before any rowset metadata is saved and
    keeps the entry, but the rowset the entry points to is left visible at
    version (2, 2): delete, which accepted the entry before the failed
    publish, now refuses it as already published. *)
Theorem publish_txn_binlog_failure_marks_rowset :
  let failed :=
    publish_txn (publish_env true (OtherError 1)) (Some 0%nat) 1 100 5 1 uidA
      (2, 2) (committed 4 1) in
  failed.1 = Returns ROWSET_ADD_TO_BINLOG_FAILED
  ∧ trace failed.2 = trace (committed 4 1) ++ [AddToBinlog 1%nat]
  ∧ mgr failed.2 = mgr (committed 4 1)
  ∧ version (heap (committed 4 1) 1%nat) = (0, 0)
  ∧ visible (heap (committed 4 1) 1%nat) = false
  ∧ version (heap failed.2 1%nat) = (2, 2)
  ∧ visible (heap failed.2 1%nat) = true
  ∧ (delete_txn (Some 0%nat) 1 100 5 1 uidA (committed 4 1)).1 = Returns OK
  ∧ (delete_txn (Some 0%nat) 1 100 5 1 uidA failed.2).1
    = Returns TRANSACTION_ALREADY_COMMITTED.
Proof. cbv zeta. repeat split; vm_compute; reflexivity. Qed.

End LedgerTheory.

(** * Further properties of the compaction scheduler *)

Module CompactionExtra.
Import Compaction CompactionTheory.

(** ** Picks of a round *)

Lemma generate_loop_bind env ty cs cumu base l :
  (generate_loop env ty cs cumu base ([], 0) l).1
  = l ≫= step_pick env ty cs cumu base.
Proof.
  induction l as [|d l IH]; [done|].
  change (d :: l) with ([d] ++ l). rewrite generate_loop_app, IH.
  cbn [mbind list_bind]. f_equal.
Qed.

Lemma slot_check_pick env ty cs cumu base d :
  (slot_check env ty cs cumu base d).1 = true →
  count cumu base d < thread_per_disk env d
  ∧ (ty = BASE_COMPACTION →
     count cumu base d = thread_per_disk env d - 1 → at_dir cumu d ≠ ∅).
Proof.
  unfold slot_check.
  case_bool_decide as H1; [done|].
  case_bool_decide as H2.
  - destruct ty.
    + case_bool_decide as H3; [done|]. intros _. split; [lia|done].
    + intros _. split; [lia|done].
  - intros _. split; [lia|]. intros _ ?. lia.
Qed.

Lemma step_pick_length env ty cs cumu base d :
  (length (step_pick env ty cs cumu base d) <= 1)%nat.
Proof.
  unfold step_pick, generate_step.
  destruct (slot_check env ty cs cumu base d) as [need cont].
  destruct cont; [cbn; lia|].
  destruct (reach_capacity_limit env d 0); [cbn; lia|].
  destruct (find_best_tablet_to_compaction env ty d _) as [[t|] score];
    [|cbn; lia].
  destruct (disable_auto_compaction t); [cbn; lia|].
  destruct need; cbn; lia.
Qed.

Lemma step_pick_sound env ty cs cumu base d t :
  t ∈ step_pick env ty cs cumu base d →
  ∃ score,
    count cumu base d < thread_per_disk env d
    ∧ (ty = BASE_COMPACTION →
       count cumu base d = thread_per_disk env d - 1 → at_dir cumu d ≠ ∅)
    ∧ reach_capacity_limit env d 0 = false
    ∧ find_best_tablet_to_compaction env ty d
        (match ty with
         | CUMULATIVE_COMPACTION => at_dir cumu d
         | BASE_COMPACTION => at_dir base d
         end) = (Some t, score)
    ∧ disable_auto_compaction t = false.
Proof.
  unfold step_pick, generate_step.
  pose proof (slot_check_pick env ty cs cumu base d) as Hslot.
  destruct (slot_check env ty cs cumu base d) as [need cont].
  destruct cont; [by intros ?%elem_of_nil|].
  destruct (reach_capacity_limit env d 0) eqn:Hcap; [by intros ?%elem_of_nil|].
  destruct (find_best_tablet_to_compaction env ty d _) as [[t'|] score] eqn:Hb;
    [|by intros ?%elem_of_nil].
  destruct (disable_auto_compaction t') eqn:Hdis; [by intros ?%elem_of_nil|].
  destruct need; [|by intros ?%elem_of_nil].
  cbn. intros ->%list_elem_of_singleton.
  destruct (Hslot eq_refl) as [H1 H2]. by exists score.
Qed.

(** X1: every tablet a round picks is the best candidate of a directory
    the round visits which has a free slot, has not reached its capacity
    limit, and, for a base round on the last free slot, has a cumulative
    task submitted; the tablet does not disable automatic compaction. *)
Theorem generate_picks_sound env ty dirs cs cumu base t :
  t ∈ (_generate_compaction_tasks env ty dirs cs cumu base).1 →
  ∃ d score,
    d ∈ shuffle env dirs
    ∧ count cumu base d < thread_per_disk env d
    ∧ (ty = BASE_COMPACTION →
       count cumu base d = thread_per_disk env d - 1 → at_dir cumu d ≠ ∅)
    ∧ reach_capacity_limit env d 0 = false
    ∧ find_best_tablet_to_compaction env ty d
        (match ty with
         | CUMULATIVE_COMPACTION => at_dir cumu d
         | BASE_COMPACTION => at_dir base d
         end) = (Some t, score)
    ∧ disable_auto_compaction t = false.
Proof.
  rewrite generate_tasks_fst, generate_loop_bind.
  intros (d & Ht & Hd)%list_elem_of_bind.
  destruct (step_pick_sound _ _ _ _ _ _ _ Ht) as (score & H). eauto.
Qed.

Lemma generate_picks_sound_witness :
  ∃ d score,
    d ∈ shuffle env2 [0%nat]
    ∧ count one_cumu_running ∅ d < thread_per_disk env2 d
    ∧ (BASE_COMPACTION = BASE_COMPACTION →
       count one_cumu_running ∅ d = thread_per_disk env2 d - 1 →
       at_dir one_cumu_running d ≠ ∅)
    ∧ reach_capacity_limit env2 d 0 = false
    ∧ find_best_tablet_to_compaction env2 BASE_COMPACTION d (at_dir ∅ d)
      = (Some tablet9, score)
    ∧ disable_auto_compaction tablet9 = false.
Proof.
  apply (generate_picks_sound env2 BASE_COMPACTION [0%nat] false
           one_cumu_running ∅ tablet9).
  vm_compute. apply list_elem_of_here.
Defined.


(** X3: outside the last-slot case, the class of the round plays no part:
    a directory with no free slot adds nothing to the picks, whatever
    [check_score], and a directory with at least two free slots adds its
    eligible best candidate. *)
Theorem slot_rule_off_last_slot env ty cs cumu base dirs pre d post t score :
  shuffle env dirs = pre ++ d :: post →
  count cumu base d ≠ thread_per_disk env d - 1 →
  reach_capacity_limit env d 0 = false →
  find_best_tablet_to_compaction env ty d
    (match ty with
     | CUMULATIVE_COMPACTION => at_dir cumu d
     | BASE_COMPACTION => at_dir base d
     end) = (Some t, score) →
  disable_auto_compaction t = false →
  (_generate_compaction_tasks env ty dirs cs cumu base).1
  = (generate_loop env ty cs cumu base ([], 0) pre).1
    ++ (if bool_decide (count cumu base d < thread_per_disk env d)
        then [t] else [])
    ++ (generate_loop env ty cs cumu base ([], 0) post).1.
Proof.
  intros Hsh Hc Hcap Hbest Hdis.
  rewrite generate_tasks_fst, Hsh, generate_loop_app. f_equal.
  change (d :: post) with ([d] ++ post). rewrite generate_loop_app. f_equal.
  unfold generate_loop; cbn [foldl]. unfold generate_step, slot_check.
  case_bool_decide as H1.
  - rewrite bool_decide_eq_false_2 by lia.
    destruct cs; cbn; [|done]. by rewrite Hcap, Hbest, Hdis.
  - rewrite (bool_decide_eq_false_2 (count cumu base d >= _ - 1)) by lia.
    rewrite bool_decide_eq_true_2 by lia.
    by rewrite Hcap, Hbest, Hdis.
Qed.

Lemma slot_rule_off_last_slot_witness :
  (_generate_compaction_tasks env2 BASE_COMPACTION [0%nat] true ∅ ∅).1
  = [] ++ [tablet9] ++ []
  ∧ (_generate_compaction_tasks env2 CUMULATIVE_COMPACTION [0%nat] true
       one_cumu_running one_base_running).1 = [] ++ [] ++ [].
Proof.
  split.
  - etrans;
      [apply (slot_rule_off_last_slot env2 BASE_COMPACTION true ∅ ∅ [0%nat] []
                0%nat [] tablet9 30); vm_compute; (reflexivity || discriminate)|].
    vm_compute. reflexivity.
  - etrans;
      [apply (slot_rule_off_last_slot env2 CUMULATIVE_COMPACTION true
                one_cumu_running one_base_running [0%nat] [] 0%nat [] tablet9 30);
       vm_compute; (reflexivity || discriminate)|].
    vm_compute. reflexivity.
Defined.

(** ** Deduplication of submissions *)

Lemma tablet_calls_pop tablet ty e :
  tablet_calls (_pop_tablet_from_submitted_compaction tablet ty e)
  = tablet_calls e.
Proof.
  unfold _pop_tablet_from_submitted_compaction.
  destruct ty; cbn; by case_bool_decide.
Qed.

Lemma at_dir_insert_submitted d id (m : submitted_map) d' :
  at_dir (insert_submitted d id m) d'
  = if decide (d = d') then {[id]} ∪ at_dir m d else at_dir m d'.
Proof.
  unfold insert_submitted, at_dir at 1. case_decide as Hd; subst.
  - by rewrite lookup_insert_eq.
  - by rewrite lookup_insert_ne.
Qed.

Lemma at_dir_erase_submitted d id (m : submitted_map) d' :
  at_dir (erase_submitted d id m) d'
  = if decide (d = d') then at_dir m d ∖ {[id]} else at_dir m d'.
Proof.
  unfold erase_submitted, at_dir at 1. case_decide as Hd; subst.
  - by rewrite lookup_insert_eq.
  - by rewrite lookup_insert_ne.
Qed.

Lemma insert_submitted_present d id (m : submitted_map) :
  id ∈ at_dir m d → insert_submitted d id m = m.
Proof.
  unfold insert_submitted, at_dir. intros Hin.
  destruct (m !! d) as [s|] eqn:E; cbn in *; [|by apply elem_of_empty in Hin].
  apply insert_id. rewrite E. f_equal. symmetry.
  apply set_eq. intros x. rewrite elem_of_union, elem_of_singleton.
  split; [by intros [->|?]|by right].
Qed.

(** X4: a tablet that is in the submitted set of a class is not submitted
    again for that class: the call returns AlreadyExist and changes nothing
    (no permit is requested, no task is queued, the tablet is not reset). *)
Theorem submit_duplicate_rejected prepare submit_ok tablet ty force e :
  tablet_id tablet ∈ at_dir (submitted_compaction ty e) (data_dir tablet) →
  _submit_compaction_task prepare submit_ok tablet ty force e = (AlreadyExist, e).
Proof.
  intros Hin. unfold _submit_compaction_task,
    _push_tablet_into_submitted_compaction.
  destruct ty; cbn in Hin; rewrite bool_decide_eq_true_2 by done;
    f_equal; destruct e; unfold set_cumu, set_base; cbn in *; f_equal;
    by apply insert_submitted_present.
Qed.

Lemma submit_duplicate_rejected_witness :
  _submit_compaction_task (true, 5) true tablet9 CUMULATIVE_COMPACTION false
    (_submit_compaction_task (true, 5) true tablet9 CUMULATIVE_COMPACTION false
       engine0).2
  = (AlreadyExist,
     (_submit_compaction_task (true, 5) true tablet9 CUMULATIVE_COMPACTION false
        engine0).2).
Proof.
  apply (submit_duplicate_rejected (true, 5) true tablet9 CUMULATIVE_COMPACTION
           false).
  vm_compute. reflexivity.
Defined.

Lemma submitted_after_pop tablet ty ty' e :
  submitted_compaction ty' (_pop_tablet_from_submitted_compaction tablet ty e)
  = if decide (ty = ty') then
      erase_submitted (data_dir tablet) (tablet_id tablet)
        (submitted_compaction ty e)
    else submitted_compaction ty' e.
Proof.
  unfold _pop_tablet_from_submitted_compaction.
  destruct ty, ty'; cbn; case_bool_decide; done.
Qed.

Lemma submitted_after_push tablet ty ty' e :
  submitted_compaction ty' (_push_tablet_into_submitted_compaction tablet ty e).2
  = if decide (ty = ty') then
      insert_submitted (data_dir tablet) (tablet_id tablet)
        (submitted_compaction ty e)
    else submitted_compaction ty' e.
Proof. by destruct ty, ty'. Qed.

Lemma submitted_after_run_task t ty' e :
  submitted_compaction ty' (run_task t e)
  = if decide (task_type t = ty') then
      erase_submitted (data_dir (task_tablet t)) (tablet_id (task_tablet t))
        (submitted_compaction (task_type t) e)
    else submitted_compaction ty' e.
Proof.
  unfold run_task. rewrite submitted_after_pop.
  case_decide; [|by destruct ty'].
  by destruct (task_type t).
Qed.

Lemma wakeup_after_pop tablet ty e :
  tablet_id tablet ∈ at_dir (submitted_compaction ty e) (data_dir tablet) →
  _wakeup_producer_flag (_pop_tablet_from_submitted_compaction tablet ty e) = 1.
Proof.
  intros Hin. unfold _pop_tablet_from_submitted_compaction.
  destruct ty; cbn in *; by rewrite bool_decide_eq_true_2.
Qed.

(** X5: whatever the outcome of a submission of a tablet that was not yet
    submitted (preparation failed, no permit needed, pool refusal, or the
    pool ran the task), once the run is over the tablet has left the
    submitted set of its class, the producer has been woken up, and
    [reset_compaction] has been called on the tablet exactly once,
    after [execute_compaction] when the task ran. *)
Theorem submission_run_frees_slot prepare submit_ok tablet ty force e :
  _cumu_compaction_thread_pool e = [] →
  _base_compaction_thread_pool e = [] →
  tablet_id tablet ∉ at_dir (submitted_compaction ty e) (data_dir tablet) →
  (tablet_id tablet
     ∉ at_dir (submitted_compaction ty
                 (submission_run prepare submit_ok tablet ty force e).2)
         (data_dir tablet))
  ∧ _wakeup_producer_flag
      (submission_run prepare submit_ok tablet ty force e).2 = 1
  ∧ tablet_calls (submission_run prepare submit_ok tablet ty force e).2
    = tablet_calls e
      ++ (if prepare.1 && bool_decide (prepare.2 > 0) && submit_ok
          then [ExecuteCompaction (tablet_id tablet) ty] else [])
      ++ [ResetCompaction (tablet_id tablet) ty].
Proof.
  intros Hc Hb Hnew. unfold submission_run, _submit_compaction_task.
  destruct prepare as [st_ok permits]. cbn [fst snd].
  pose proof (submitted_after_push tablet ty ty e) as Hpush.
  rewrite decide_True in Hpush by done.
  assert ((_push_tablet_into_submitted_compaction tablet ty e).1 = false) as Hfst.
  { destruct ty; cbn in *; by rewrite bool_decide_eq_false_2. }
  assert (_cumu_compaction_thread_pool
            (_push_tablet_into_submitted_compaction tablet ty e).2 = []
          ∧ _base_compaction_thread_pool
              (_push_tablet_into_submitted_compaction tablet ty e).2 = []
          ∧ tablet_calls (_push_tablet_into_submitted_compaction tablet ty e).2
            = tablet_calls e) as (Hc1 & Hb1 & Hcalls).
  { by destruct ty. }
  destruct (_push_tablet_into_submitted_compaction tablet ty e) as [already e1].
  cbn [fst snd] in *. subst already.
  assert (tablet_id tablet
            ∈ at_dir (submitted_compaction ty e1) (data_dir tablet)) as Hin.
  { rewrite Hpush, at_dir_insert_submitted, decide_True by done.
    apply elem_of_union_l. by apply elem_of_singleton. }
  assert (∀ e2, submitted_compaction ty e2 = submitted_compaction ty e1 →
            (tablet_id tablet
               ∉ at_dir (submitted_compaction ty
                           (_pop_tablet_from_submitted_compaction tablet ty e2))
                   (data_dir tablet))
            ∧ _wakeup_producer_flag
                (_pop_tablet_from_submitted_compaction tablet ty e2) = 1)
    as Hpop.
  { intros e2 He2. split.
    - rewrite submitted_after_pop, decide_True by done.
      rewrite at_dir_erase_submitted, decide_True by done.
      intros [_ Hn]%elem_of_difference. apply Hn. by apply elem_of_singleton.
    - apply wakeup_after_pop. by rewrite He2. }
  destruct (st_ok && bool_decide (permits > 0)) eqn:Hp; cbn [andb].
  - destruct submit_ok; cbn [snd].
    + set (t := {| task_tablet := tablet; task_type := ty;
                   task_permits := permits |}).
      set (e2 := if negb force then permit_call (Request permits) e1 else e1).
      assert (_cumu_compaction_thread_pool e2 = []
              ∧ _base_compaction_thread_pool e2 = []
              ∧ submitted_compaction ty e2 = submitted_compaction ty e1
              ∧ tablet_calls e2 = tablet_calls e) as (Hc2 & Hb2 & Hs2 & Hcalls2).
      { unfold e2. destruct force, ty; cbn; auto. }
      assert (drain_pools (submit_func ty t e2)
              = run_task t (set_pools [] [] (submit_func ty t e2))) as ->.
      { unfold drain_pools.
        destruct (submit_func_queue ty t e2 Hc2 Hb2) as [-> _]. done. }
      unfold run_task.
      match goal with
      | |- context [_pop_tablet_from_submitted_compaction _ _ ?e3] =>
          destruct (Hpop e3) as [H1 H2]; [by destruct ty|]
      end.
      cbn [task_tablet task_type] in *. split; [done|]. split; [done|].
      rewrite tablet_calls_pop. destruct ty; cbn; rewrite Hcalls2;
        by rewrite <- !app_assoc.
    + match goal with
      | |- context [drain_pools ?x] =>
          assert (drain_pools x = set_pools [] [] x) as ->
      end.
      { unfold drain_pools.
        match goal with
        | |- context [_pop_tablet_from_submitted_compaction ?a ?b ?c] =>
            destruct (pop_pools a b c) as [-> ->]
        end.
        destruct force, ty; cbn; by rewrite Hc1, Hb1. }
      match goal with
      | |- context [_pop_tablet_from_submitted_compaction _ _ ?e3] =>
          destruct (Hpop e3) as [H1 H2]; [by destruct force, ty|]
      end.
      split; [by destruct ty|]. split; [done|].
      cbn. rewrite tablet_calls_pop. destruct force; cbn; by rewrite Hcalls.
  - match goal with
    | |- context [(if negb st_ok then (?a, ?x) else (?b, ?x))] =>
        replace (if negb st_ok then (a, x) else (b, x))
          with ((if negb st_ok then a else b), x) by (by destruct st_ok)
    end.
    cbn [snd].
    match goal with
    | |- context [drain_pools ?x] =>
        assert (drain_pools x = set_pools [] [] x) as ->
    end.
    { unfold drain_pools.
      match goal with
      | |- context [_pop_tablet_from_submitted_compaction ?a ?b ?c] =>
          destruct (pop_pools a b c) as [-> ->]
      end.
      destruct ty; cbn; by rewrite Hc1, Hb1. }
    match goal with
    | |- context [_pop_tablet_from_submitted_compaction _ _ ?e3] =>
        destruct (Hpop e3) as [H1 H2]; [by destruct ty|]
    end.
    split; [by destruct ty|]. split; [done|].
    cbn. rewrite tablet_calls_pop. cbn. by rewrite Hcalls.
Qed.

Lemma submission_run_frees_slot_witness :
  (tablet_id tablet9
     ∉ at_dir (submitted_compaction CUMULATIVE_COMPACTION
                 (submission_run (true, 5) true tablet9 CUMULATIVE_COMPACTION
                    false engine0).2)
         (data_dir tablet9))
  ∧ _wakeup_producer_flag
      (submission_run (true, 5) true tablet9 CUMULATIVE_COMPACTION false
         engine0).2 = 1
  ∧ tablet_calls
      (submission_run (true, 5) true tablet9 CUMULATIVE_COMPACTION false
         engine0).2
    = [ExecuteCompaction (tablet_id tablet9) CUMULATIVE_COMPACTION;
       ResetCompaction (tablet_id tablet9) CUMULATIVE_COMPACTION].
Proof.
  apply (submission_run_frees_slot (true, 5) true tablet9
           CUMULATIVE_COMPACTION false engine0).
  - reflexivity.
  - reflexivity.
  - vm_compute. discriminate.
Defined.

(** ** Permit accounting *)

Lemma requests_app l1 l2 : requests (l1 ++ l2) = requests l1 ++ requests l2.
Proof. apply omap_app. Qed.

Lemma releases_app l1 l2 : releases (l1 ++ l2) = releases l1 ++ releases l2.
Proof. apply omap_app. Qed.

Lemma permits_balanced_pop tablet ty e :
  permits_balanced e →
  permits_balanced (_pop_tablet_from_submitted_compaction tablet ty e).
Proof.
  unfold permits_balanced, queued_permits.
  destruct (pop_pools tablet ty e) as [-> ->]. by rewrite pop_permit_limiter.
Qed.

Lemma permits_balanced_run_task t cumu base e :
  requests (_permit_limiter e)
  ≡ₚ releases (_permit_limiter e) ++ task_permits t :: map task_permits (cumu ++ base) →
  permits_balanced (run_task t (set_pools cumu base e)).
Proof.
  intros H. unfold run_task. apply permits_balanced_pop.
  unfold permits_balanced, queued_permits. cbn.
  rewrite requests_app, releases_app. cbn. rewrite app_nil_r, H.
  by rewrite <- app_assoc.
Qed.

Lemma permits_balanced_submit prepare submit_ok tablet ty e :
  permits_balanced e →
  permits_balanced (_submit_compaction_task prepare submit_ok tablet ty false e).2.
Proof.
  intros H. unfold _submit_compaction_task.
  destruct (push_keeps tablet ty e) as (Hl & Hc & Hb).
  destruct (_push_tablet_into_submitted_compaction tablet ty e) as [already e1].
  cbn [snd] in *.
  assert (permits_balanced e1) as H1.
  { unfold permits_balanced, queued_permits. by rewrite Hl, Hc, Hb. }
  destruct already; [done|]. destruct prepare as [st_ok permits].
  destruct (st_ok && bool_decide (permits > 0)).
  - destruct submit_ok; cbn [negb snd].
    + unfold permits_balanced, queued_permits in *.
      destruct ty; cbn; rewrite requests_app, H1; cbn;
        rewrite !map_app; cbn; rewrite <- !app_assoc;
        repeat apply Permutation_app_head;
        by rewrite ?app_nil_r, ?(Permutation_app_comm _ [_]).
    + apply permits_balanced_pop.
      unfold permits_balanced, queued_permits in *. cbn.
      rewrite requests_app, !releases_app, requests_app. cbn.
      rewrite !app_nil_r, H1, <- !app_assoc. cbn.
      apply Permutation_app_head. apply Permutation_app_comm.
  - replace (if negb st_ok then _ else _).2 with
      (_pop_tablet_from_submitted_compaction tablet ty
         (tablet_call (ResetCompaction (tablet_id tablet) ty) e1))
      by (by destruct st_ok).
    by apply permits_balanced_pop.
Qed.

Lemma permits_balanced_submit_round env ty tablets e :
  permits_balanced e → permits_balanced (submit_round env ty tablets e).
Proof.
  unfold submit_round. revert e.
  induction tablets as [|t tablets IH]; intros e H; [done|].
  cbn [foldl]. by apply IH, permits_balanced_submit.
Qed.

Lemma permits_balanced_produce env cur_time s data_dirs e :
  permits_balanced e →
  permits_balanced (producer_iteration env cur_time (s, data_dirs, e)).2.2.
Proof.
  intros H. unfold producer_iteration.
  destruct (disable_auto_compaction_config env); [done|].
  destruct (choose_round _ _ _) as [[ty check] s'].
  destruct (_generate_compaction_tasks _ _ _ _ _ _) as [tablets score].
  case_bool_decide; cbn [snd]; [done|].
  by apply permits_balanced_submit_round.
Qed.

(** X6: as long as every submission is made without [force] (as the
    producer does), the permits requested from the limiter are, as a
    multiset, the permits released so far together with the permits held by
    the closures still queued in the two pools: nothing is released that
    was not requested, and every request is released once its closure has
    run or the pool has refused it. *)
Theorem unforced_permits_balanced e :
  unforced e →
  requests (_permit_limiter e)
  ≡ₚ releases (_permit_limiter e) ++ queued_permits e.
Proof.
  intros H. change (permits_balanced e).
  induction H as [|e prepare submit_ok tablet ty _ IH
                  |e env cur_time s data_dirs _ IH|e _ IH|e _ IH].
  - unfold permits_balanced. reflexivity.
  - by apply permits_balanced_submit.
  - by apply permits_balanced_produce.
  - unfold run_next_cumu.
    destruct (_cumu_compaction_thread_pool e) as [|t rest] eqn:E; [done|].
    apply permits_balanced_run_task.
    unfold permits_balanced, queued_permits in IH. by rewrite E in IH.
  - unfold run_next_base.
    destruct (_base_compaction_thread_pool e) as [|t rest] eqn:E; [done|].
    apply permits_balanced_run_task.
    unfold permits_balanced, queued_permits in IH. rewrite E in IH.
    rewrite IH, !map_app. cbn.
    apply Permutation_app_head. symmetry. apply Permutation_middle.
Qed.

Lemma unforced_permits_balanced_witness :
  unforced (producer_iteration producer_env2 6000
              (producer_state0, [0%nat], engine0)).2.2
  ∧ requests (_permit_limiter
                (producer_iteration producer_env2 6000
                   (producer_state0, [0%nat], engine0)).2.2)
    ≡ₚ releases (_permit_limiter
                   (producer_iteration producer_env2 6000
                      (producer_state0, [0%nat], engine0)).2.2)
       ++ queued_permits
            (producer_iteration producer_env2 6000
               (producer_state0, [0%nat], engine0)).2.2.
Proof.
  assert (unforced (producer_iteration producer_env2 6000
                      (producer_state0, [0%nat], engine0)).2.2) as H.
  { apply unforced_produce, unforced_start. }
  split; [exact H|].
  exact (unforced_permits_balanced _ H).
Defined.

(** ** Rounds of the producer *)

Lemma producer_iteration_round env cur_time s data_dirs e :
  disable_auto_compaction_config env = false →
  ∃ data_dirs' e',
    producer_iteration env cur_time (s, data_dirs, e)
    = (Some (choose_round (cumulative_rounds env) cur_time s).1.1,
       ((choose_round (cumulative_rounds env) cur_time s).2, data_dirs', e')).
Proof.
  intros Hd. unfold producer_iteration. rewrite Hd.
  destruct (choose_round _ _ _) as [[ty check] s'].
  destruct (_generate_compaction_tasks _ _ _ _ _ _) as [tablets score].
  case_bool_decide; eauto.
Qed.

Lemma choose_round_class rounds cur_time s :
  0 <= round s <= rounds →
  (choose_round rounds cur_time s).1.1
  = (if bool_decide (round s mod (rounds + 1) = rounds)
     then BASE_COMPACTION else CUMULATIVE_COMPACTION)
  ∧ 0 <= round (choose_round rounds cur_time s).2 <= rounds
  ∧ round (choose_round rounds cur_time s).2 mod (rounds + 1)
    = (round s + 1) mod (rounds + 1).
Proof.
  intros Hr. unfold choose_round.
  rewrite (Z.mod_small (round s)) by lia.
  case_bool_decide as Hlt; cbn.
  - rewrite bool_decide_eq_false_2 by lia. repeat split; lia.
  - assert (round s = rounds) as -> by lia.
    rewrite bool_decide_eq_true_2 by done.
    repeat split; try lia.
    by rewrite Z_mod_same_full.
Qed.

(** X7: while automatic compaction is enabled, the producer alternates
    classes with period [N + 1], where [N] is
    [cumulative_compaction_rounds_for_each_base_compaction_round]: the
    iteration number [k] from a state whose counter is [round] is a base
    round exactly when [(round + k) mod (N + 1) = N], whatever the clock
    readings and whatever the rounds generate or submit. *)
Theorem producer_round_alternation env times s data_dirs e k c :
  disable_auto_compaction_config env = false →
  0 <= round s <= cumulative_rounds env →
  producer_classes env times (s, data_dirs, e) !! k = Some c →
  c = Some (if bool_decide ((round s + Z.of_nat k) mod (cumulative_rounds env + 1)
                            = cumulative_rounds env)
            then BASE_COMPACTION else CUMULATIVE_COMPACTION).
Proof.
  intros Hd. revert s data_dirs e k.
  induction times as [|cur_time times IH]; intros s data_dirs e k Hr Hk;
    [done|].
  cbn [producer_classes] in Hk.
  destruct (producer_iteration_round env cur_time s data_dirs e Hd)
    as (dirs' & e' & Heq).
  rewrite Heq in Hk.
  destruct (choose_round_class (cumulative_rounds env) cur_time s Hr)
    as (Hc & Hr' & Hm).
  destruct k as [|k]; cbn in Hk.
  - injection Hk as <-. rewrite Hc. by rewrite Z.add_0_r.
  - apply IH in Hk; [|done]. rewrite Hk. do 2 f_equal.
    replace (round s + Z.of_nat (S k)) with (round s + 1 + Z.of_nat k) by lia.
    rewrite (Z.add_mod (round _)), Hm, <- Z.add_mod by lia. done.
Qed.

Lemma producer_round_alternation_witness :
  producer_classes producer_env2 [6000; 6100; 6200; 6300; 6400; 6500]
    (producer_state0, [0%nat], engine0) !! 5%nat
  = Some (Some BASE_COMPACTION)
  ∧ Some BASE_COMPACTION
    = Some (if bool_decide ((round producer_state0 + Z.of_nat 5)
                              mod (cumulative_rounds producer_env2 + 1)
                            = cumulative_rounds producer_env2)
            then BASE_COMPACTION else CUMULATIVE_COMPACTION).
Proof.
  assert (producer_classes producer_env2 [6000; 6100; 6200; 6300; 6400; 6500]
            (producer_state0, [0%nat], engine0) !! 5%nat
          = Some (Some BASE_COMPACTION)) as H by (vm_compute; reflexivity).
  split; [exact H|].
  apply (producer_round_alternation producer_env2
           [6000; 6100; 6200; 6300; 6400; 6500] producer_state0 [0%nat]
           engine0 5 (Some BASE_COMPACTION)).
  - reflexivity.
  - vm_compute. split; discriminate.
  - exact H.
Defined.

(** ** The garbage sweeper *)

Lemma garbage_sweep_intervals_range max_config min_config :
  1 <= (garbage_sweep_intervals max_config min_config).2
  ∧ (garbage_sweep_intervals max_config min_config).2
    <= (garbage_sweep_intervals max_config min_config).1
  ∧ (garbage_sweep_intervals max_config min_config).1 < 2 ^ 32.
Proof.
  unfold garbage_sweep_intervals, to_uint32.
  pose proof (Z.mod_pos_bound max_config (2 ^ 32) ltac:(lia)).
  pose proof (Z.mod_pos_bound min_config (2 ^ 32) ltac:(lia)).
  repeat case_bool_decide; cbn; lia.
Qed.

Lemma sweeper_loop_events {U} (env : SweeperEnv U) latch usage curr max_interval
    min_interval ev :
  min_interval <= max_interval →
  ev ∈ sweeper_loop env latch usage curr max_interval min_interval →
  match ev with
  | SweeperWait s => s = curr
  | SweeperSweep interval => min_interval <= interval <= max_interval
  end.
Proof.
  intros Hle. revert usage.
  induction latch as [|stopped latch IH]; intros usage Hin; cbn in Hin.
  - by apply elem_of_nil in Hin.
  - apply elem_of_cons in Hin as [->|Hin]; [done|].
    destruct stopped; [by apply elem_of_nil in Hin|].
    apply elem_of_cons in Hin as [->|Hin]; [|by eapply IH].
    unfold clamp_interval. lia.
Qed.


(** ** The garbage sweeper, continued; cold data *)

Lemma to_uint64_small z : 0 <= z < 2 ^ 64 → to_uint64 z = z.
Proof. intros H. unfold to_uint64. by apply Z.mod_small. Qed.

Lemma keep_top_top_n sort n cands kept x :
  (∀ l, sort l ≡ₚ l) →
  (∀ l, StronglySorted score_ge (sort l)) →
  0 < n < 2 ^ 31 →
  is_top_n n cands kept →
  is_top_n n (cands ++ [x]) (keep_top sort n kept x).
Proof.
  intros Hperm Hsorted Hn (Hs & Hlen & dropped & Hp & Hge).
  unfold keep_top. rewrite (to_uint64_small n) by lia.
  pose proof (Hperm (kept ++ [x])) as Hp1.
  pose proof (Hsorted (kept ++ [x])) as Hs1.
  assert (length (sort (kept ++ [x])) = S (length kept)) as Hl1.
  { rewrite Hp1, length_app. cbn. lia. }
  assert (length cands = (length kept + length dropped)%nat) as Hlc.
  { by rewrite <- Hp, length_app. }
  case_bool_decide as Hgt.
  - destruct (exists_last (l := sort (kept ++ [x]))) as (rl & m & Heq).
    { intros E. rewrite E in Hl1. done. }
    rewrite Heq in *. rewrite removelast_last.
    rewrite length_app in Hl1, Hgt. cbn in Hl1, Hgt.
    assert (∀ y, y ∈ rl → y.2 >= m.2) as Hym.
    { intros y Hy.
      apply (StronglySorted_app_1_elem_of score_ge rl [m] y m Hs1 Hy).
      by apply list_elem_of_singleton. }
    apply StronglySorted_app_1_l in Hs1.
    split; [done|]. split.
    { rewrite length_app. cbn. lia. }
    exists (m :: dropped). split.
    { rewrite <- Hp.
      transitivity ((rl ++ [m]) ++ dropped); [by rewrite <- app_assoc|].
      rewrite Hp1, <- !app_assoc. apply Permutation_app_head.
      apply Permutation_app_comm. }
    intros y d Hy [->|Hd]%elem_of_cons; [by apply Hym|].
    assert (m ∈ kept ++ [x]) as Hm.
    { rewrite <- Hp1. apply elem_of_app. right. by apply list_elem_of_singleton. }
    apply elem_of_app in Hm as [Hm|Hm%list_elem_of_singleton].
    + pose proof (Hym y Hy). pose proof (Hge m d Hm Hd). lia.
    + subst m. apply Permutation_app_inv_r in Hp1.
      apply Hge; [|done]. by rewrite <- Hp1.
  - split; [done|]. split.
    { rewrite Hl1, length_app. cbn. rewrite Hl1 in Hgt. lia. }
    assert (dropped = []) as ->.
    { destruct dropped; [done|]. cbn in Hlc. rewrite Hl1 in Hgt. lia. }
    exists []. split.
    + rewrite app_nil_r in *. by rewrite Hp1, Hp.
    + intros y d _ Hd. by apply elem_of_nil in Hd.
Qed.

Lemma fold_keep_top_top_n sort n cands kept xs :
  (∀ l, sort l ≡ₚ l) →
  (∀ l, StronglySorted score_ge (sort l)) →
  0 < n < 2 ^ 31 →
  is_top_n n cands kept →
  is_top_n n (cands ++ xs) (foldl (keep_top sort n) kept xs).
Proof.
  intros Hperm Hsorted Hn. revert cands kept.
  induction xs as [|x xs IH]; intros cands kept H; cbn [foldl].
  - by rewrite app_nil_r.
  - replace (cands ++ x :: xs) with ((cands ++ [x]) ++ xs)
      by (by rewrite <- app_assoc).
    apply IH.
    by apply keep_top_top_n.
Qed.

Lemma cold_fold_split sort n running compact follow tablets :
  foldl (cold_step sort n running) (compact, follow) tablets
  = (foldl (keep_top sort n) compact (compact_candidates tablets),
     foldl (keep_top sort n) follow (follow_candidates running tablets)).
Proof.
  revert compact follow.
  induction tablets as [|t tablets IH]; intros compact follow; [done|].
  cbn [foldl]. unfold compact_candidates, follow_candidates in *.
  cbn [omap list_omap]. unfold cold_step at 2.
  destruct (is_cooldown_replica t); cbn [andb negb].
  - case_bool_decide; cbn [negb]; by rewrite IH.
  - case_bool_decide; cbn [negb]; by rewrite IH.
Qed.

Lemma to_int32_range z : - 2 ^ 31 <= to_int32 z < 2 ^ 31.
Proof.
  unfold to_int32.
  pose proof (Z.mod_pos_bound (z + 2 ^ 31) (2 ^ 32) ltac:(lia)). lia.
Qed.

(** X9: a round of the cold-data compaction producer that is not skipped
    has [n > 0] free threads and, provided [std::sort] orders by decreasing
    score, leaves in [tablet_to_compact] the [n] best-scored tablets among
    the candidates (the filtered tablets that are the cooldown replica and
    score at least 4), best first, and in [tablet_to_follow] the [n]
    best-scored among the other filtered tablets whose table id is not in
    [_running_cooldown_tablets]: each list is sorted, has
    [min n (number of candidates)] entries, and no dropped candidate scores
    more than a kept one. *)
Theorem cold_data_compaction_top_n sort disabled thread_num submitted running
    all_tablets compact follow :
  (∀ l, sort l ≡ₚ l) →
  (∀ l, StronglySorted score_ge (sort l)) →
  cold_data_compaction_select sort disabled thread_num submitted running
    all_tablets = Some (compact, follow) →
  disabled = false
  ∧ 0 < to_int32 (to_uint64 (thread_num - Z.of_nat (size submitted)))
  ∧ is_top_n (to_int32 (to_uint64 (thread_num - Z.of_nat (size submitted))))
      (compact_candidates
         (filter (λ t, cold_filter submitted t = true) all_tablets))
      compact
  ∧ is_top_n (to_int32 (to_uint64 (thread_num - Z.of_nat (size submitted))))
      (follow_candidates running
         (filter (λ t, cold_filter submitted t = true) all_tablets))
      follow.
Proof.
  intros Hperm Hsorted. unfold cold_data_compaction_select.
  destruct disabled; [done|].
  pose proof (to_int32_range
                (to_uint64 (thread_num - Z.of_nat (size submitted)))) as Hr.
  case_bool_decide as Hn; [done|].
  rewrite cold_fold_split. intros [= <- <-].
  assert (is_top_n (to_int32 (to_uint64 (thread_num
                                         - Z.of_nat (size submitted)))) [] [])
    as H0.
  { split; [constructor|]. split; [cbn; lia|].
    exists []. split; [done|]. intros x d Hx. by apply elem_of_nil in Hx. }
  split; [done|]. split; [lia|].
  split.
  - apply (fold_keep_top_top_n sort _ [] []); auto; lia.
  - apply (fold_keep_top_top_n sort _ [] []); auto; lia.
Qed.

Lemma score_ge_trans : Transitive score_ge.
Proof. intros a b c. unfold score_ge. lia. Qed.

Lemma score_ge_total : Total score_ge.
Proof. intros a b. unfold score_ge. lia. Qed.

Lemma cold_data_compaction_top_n_witness :
  false = false
  ∧ 0 < to_int32 (to_uint64 (2 - Z.of_nat (size (∅ : gset Z))))
  ∧ is_top_n (to_int32 (to_uint64 (2 - Z.of_nat (size (∅ : gset Z)))))
      (compact_candidates
         (filter (λ t, cold_filter ∅ t = true) cold_tablets0))
      [(cold_tablet 2 9 true, 9); (cold_tablet 3 7 true, 7)]
  ∧ is_top_n (to_int32 (to_uint64 (2 - Z.of_nat (size (∅ : gset Z)))))
      (follow_candidates ∅
         (filter (λ t, cold_filter ∅ t = true) cold_tablets0))
      [(cold_tablet 4 6 false, 6)].
Proof.
  apply (cold_data_compaction_top_n sort_by_score false 2 ∅ ∅ cold_tablets0).
  - intros l. apply merge_sort_Permutation.
  - intros l.
    apply (StronglySorted_merge_sort score_ge (Transitive0 := score_ge_trans)
             (Total0 := score_ge_total)).
  - vm_compute. reflexivity.
Defined.


(** ** The cooldown producer *)

Lemma cooldown_submit_fold offer max_priority s tablets :
  foldl (cooldown_submit offer) (max_priority, s) tablets
  = (max_priority - Z.of_nat (length tablets),
     {| _running_cooldown_tablets :=
          list_to_set (cooldown_tablet_id <$> tablets)
          ∪ _running_cooldown_tablets s;
        _cooldown_thread_pool :=
          _cooldown_thread_pool s
          ++ filter (λ task, offer task = true)
               (cooldown_tasks max_priority tablets) |}).
Proof.
  revert max_priority s.
  induction tablets as [|t tablets IH]; intros max_priority s.
  - cbn. rewrite Z.sub_0_r, app_nil_r, (left_id_L ∅ (∪)). by destruct s.
  - cbn [foldl]. unfold cooldown_submit at 2. rewrite IH.
    cbn [_running_cooldown_tablets _cooldown_thread_pool].
    f_equal; [cbn [length]; lia|]. f_equal.
    + cbn. rewrite (assoc_L (∪)). f_equal. apply (comm_L (∪)).
    + unfold cooldown_tasks. rewrite imap_cons, filter_cons. cbn [Z.of_nat].
      rewrite Z.sub_0_r.
      assert (imap (λ i tablet, {| task_cooldown_tablet := tablet;
                                   priority := max_priority - 1 - Z.of_nat i |})
                tablets
              = imap ((λ i tablet, {| task_cooldown_tablet := tablet;
                                      priority := max_priority - Z.of_nat i |})
                      ∘ S) tablets) as ->.
      { apply imap_ext. intros i x _. cbn. f_equal. lia. }
      destruct (offer _); [|by rewrite decide_False by done].
      rewrite decide_True by done. by rewrite <- app_assoc.
Qed.

Lemma to_int32_small z : - 2 ^ 31 <= z < 2 ^ 31 → to_int32 z = z.
Proof. intros H. unfold to_int32. rewrite Z.mod_small; lia. Qed.

(** X10: a round of the cooldown producer marks every tablet it was handed
    as running, whether or not the pool takes its task, and appends to the
    queue, in the order of the tablets, the tasks the pool accepted; the
    task of the tablet at position [i] has priority [n - i], [n] being the
    number of tablets: priorities go down from [n] to 1 along the list. *)
Theorem cooldown_round_tasks get_cooldown_tablets offer interval cur_time s :
  Z.of_nat (length (get_cooldown_tablets
                      (skip_tablet (interval * 10) cur_time
                         (_running_cooldown_tablets s)))) < 2 ^ 31 →
  cooldown_round get_cooldown_tablets offer interval cur_time s
  = {| _running_cooldown_tablets :=
         list_to_set
           (cooldown_tablet_id
              <$> get_cooldown_tablets
                    (skip_tablet (interval * 10) cur_time
                       (_running_cooldown_tablets s)))
         ∪ _running_cooldown_tablets s;
       _cooldown_thread_pool :=
         _cooldown_thread_pool s
         ++ filter (λ task, offer task = true)
              (imap (λ i tablet,
                       {| task_cooldown_tablet := tablet;
                          priority :=
                            Z.of_nat (length (get_cooldown_tablets
                                                (skip_tablet (interval * 10)
                                                   cur_time
                                                   (_running_cooldown_tablets s))))
                            - Z.of_nat i |})
                 (get_cooldown_tablets
                    (skip_tablet (interval * 10) cur_time
                       (_running_cooldown_tablets s)))) |}.
Proof.
  intros Hlen. unfold cooldown_round. rewrite cooldown_submit_fold. cbn [snd].
  rewrite to_int32_small by lia. done.
Qed.

Lemma cooldown_round_tasks_witness :
  cooldown_round cooldown_tablets0 (λ task, bool_decide (priority task = 1)) 60
    1000 cooldown_state0
  = {| _running_cooldown_tablets := {[1; 2]};
       _cooldown_thread_pool :=
         [{| task_cooldown_tablet := cooldown_tablet 2; priority := 1 |}] |}.
Proof.
  etrans;
    [apply (cooldown_round_tasks cooldown_tablets0
              (λ task, bool_decide (priority task = 1)) 60 1000 cooldown_state0);
     vm_compute; reflexivity|].
  vm_compute. reflexivity.
Defined.

Lemma drain_cooldown_running tasks s x :
  x ∈ _running_cooldown_tablets
        (foldl (λ s task, run_cooldown_task task s) s tasks)
  ↔ x ∈ _running_cooldown_tablets s
    ∧ ∀ task, task ∈ tasks → cooldown_tablet_id (task_cooldown_tablet task) ≠ x.
Proof.
  revert s. induction tasks as [|task tasks IH]; intros s; cbn [foldl].
  - split; [|by intros [? _]]. intros H. split; [done|].
    intros task Ht. by apply elem_of_nil in Ht.
  - rewrite IH. unfold run_cooldown_task.
    cbn [_running_cooldown_tablets].
    rewrite elem_of_difference, elem_of_singleton.
    split.
    + intros [[Hx Hne] Hall]. split; [done|].
      intros task' [->|Ht]%elem_of_cons; [by intros <-|by apply Hall].
    + intros [Hx Hall]. split; [split; [done|]|].
      * intros ->. by apply (Hall task (list_elem_of_here _ _)).
      * intros task' Ht. by apply Hall, list_elem_of_further.
Qed.



End CompactionExtra.

(** * Further properties of the transaction ledger *)

Module LedgerExtra.
Import Ledger LedgerTheory.

(** ** Entries of the ledger *)

Lemma has_txn_find p t tab sh uid m :
  has_txn p t tab sh uid m
  = bool_decide (is_Some (find_txn p t {| tablet_id := tab; schema_hash := sh;
                                          tablet_uid := uid |} m)).
Proof.
  unfold has_txn, find_txn.
  by destruct (_get_txn_tablet_map m t !! (p, t)) as [tablet_map|].
Qed.

Lemma get_tablet_map_set_shard i tm m t :
  (i < length (_txn_tablet_maps m))%nat →
  _get_txn_tablet_map (set_tablet_shard i tm m) t
  = if decide (shard_index m t = i) then tm else _get_txn_tablet_map m t.
Proof.
  intros Hi. unfold _get_txn_tablet_map, set_tablet_shard, shard_index. cbn.
  case_decide as He.
  - rewrite He. by apply list_lookup_total_insert_eq.
  - by apply list_lookup_total_insert_ne.
Qed.

Lemma wf_index_lt m t :
  wf m → (shard_index m t < length (_txn_tablet_maps m))%nat.
Proof.
  intros Hwf. pose proof (shard_index_lt m t Hwf). destruct Hwf as (_ & -> & _).
  done.
Qed.

Lemma find_txn_store m p t ti info p' t' ti' :
  wf m →
  find_txn p' t' ti' (store_load_info (p, t) ti info m)
  = if decide (p' = p ∧ t' = t ∧ ti' = ti) then Some info
    else find_txn p' t' ti' m.
Proof.
  intros Hwf. unfold find_txn, store_load_info. cbn [fst snd].
  rewrite get_tablet_map_set_shard by by apply wf_index_lt.
  destruct (decide (shard_index m t' = shard_index m t)) as [Hs|Hs].
  - destruct (decide ((p', t') = (p, t))) as [[= -> ->]|Hk].
    + rewrite lookup_insert_eq. cbn.
      destruct (decide (ti' = ti)) as [->|Hti].
      * rewrite lookup_insert_eq. by rewrite decide_True.
      * rewrite lookup_insert_ne by done.
        rewrite decide_False by (by intros (_ & _ & ?)).
        by destruct (_get_txn_tablet_map m t !! (p, t)).
    + rewrite lookup_insert_ne by done.
      rewrite decide_False by (intros (-> & -> & _); done).
      unfold _get_txn_tablet_map. by rewrite Hs.
  - rewrite decide_False; [done|]. intros (_ & -> & _). done.
Qed.

Lemma find_txn_insert_partition m t p p' t' ti' :
  find_txn p' t' ti' (_insert_txn_partition_map_unlocked t p m)
  = find_txn p' t' ti' m.
Proof. done. Qed.

Lemma find_txn_clear_partition m t p p' t' ti' :
  find_txn p' t' ti' (_clear_txn_partition_map_unlocked t p m)
  = find_txn p' t' ti' m.
Proof. done. Qed.

Lemma find_txn_erase m p t ti tablet_map p' t' ti' :
  wf m →
  _get_txn_tablet_map m t !! (p, t) = Some tablet_map →
  find_txn p' t' ti' (erase_tablet_info (shard_index m t) (p, t) ti tablet_map m)
  = if decide (p' = p ∧ t' = t ∧ ti' = ti) then None
    else find_txn p' t' ti' m.
Proof.
  intros Hwf Hl. pose proof (wf_index_lt m t Hwf) as Hi.
  unfold erase_tablet_info. cbn [fst snd].
  assert (∀ tm,
            find_txn p' t' ti' (set_tablet_shard (shard_index m t) tm m)
            = (if decide (shard_index m t' = shard_index m t) then tm
               else _get_txn_tablet_map m t') !! (p', t')
              ≫= (λ tablet_map, tablet_map !! ti')) as Hset.
  { intros tm. unfold find_txn. by rewrite get_tablet_map_set_shard. }
  assert (find_txn p' t' ti'
            (if decide (delete ti tablet_map = ∅) then
               _clear_txn_partition_map_unlocked t p
                 (set_tablet_shard (shard_index m t)
                    (delete (p, t) (_txn_tablet_maps m !!! shard_index m t)) m)
             else
               set_tablet_shard (shard_index m t)
                 (<[(p, t) := delete ti tablet_map]>
                    (_txn_tablet_maps m !!! shard_index m t)) m)
          = (if decide (shard_index m t' = shard_index m t) then
               (if decide (delete ti tablet_map = ∅) then
                  delete (p, t) (_get_txn_tablet_map m t)
                else <[(p, t) := delete ti tablet_map]> (_get_txn_tablet_map m t))
             else _get_txn_tablet_map m t') !! (p', t')
            ≫= (λ tablet_map, tablet_map !! ti')) as ->.
  { destruct (decide (delete ti tablet_map = ∅));
      [rewrite find_txn_clear_partition|]; by rewrite Hset. }
  unfold find_txn.
  destruct (decide (shard_index m t' = shard_index m t)) as [Hs|Hs].
  - destruct (decide ((p', t') = (p, t))) as [[= -> ->]|Hk].
    + rewrite Hl. cbn.
      destruct (decide (delete ti tablet_map = ∅)) as [He|He].
      * rewrite lookup_delete_eq. cbn.
        destruct (decide (p = p ∧ t = t ∧ ti' = ti)) as [?|Hd]; [done|].
        rewrite <- (lookup_delete_ne tablet_map ti ti'), He; [done|].
        intros ->. by apply Hd.
      * rewrite lookup_insert_eq. cbn.
        destruct (decide (p = p ∧ t = t ∧ ti' = ti)) as [(_ & _ & ->)|Hd].
        -- by rewrite lookup_delete_eq.
        -- rewrite lookup_delete_ne; [done|]. intros ->. by apply Hd.
    + rewrite (decide_False (P := p' = p ∧ t' = t ∧ ti' = ti))
        by (intros (-> & -> & _); done).
      assert (_get_txn_tablet_map m t' = _get_txn_tablet_map m t) as ->.
      { unfold _get_txn_tablet_map. by rewrite Hs. }
      destruct (decide (delete ti tablet_map = ∅)).
      * by rewrite lookup_delete_ne.
      * by rewrite lookup_insert_ne.
  - rewrite (decide_False (P := p' = p ∧ t' = t ∧ ti' = ti)); [done|].
    intros (_ & -> & _). done.
Qed.

Lemma store_insert_wf m p t ti info :
  wf m → wf (_insert_txn_partition_map_unlocked t p (store_load_info (p, t) ti info m)).
Proof.
  intros (HS & Ht & Hp). unfold wf. cbn. by rewrite !length_insert.
Qed.

Lemma prepare_check_find (p t : Z) ti lid m :
  prepare_check (p, t) ti lid m
  = match find_txn p t ti m with
    | Some load_info =>
        bool_decide (hi (load_id load_info) = hi lid)
        && bool_decide (lo (load_id load_info) = lo lid)
        && bool_decide (rowset load_info ≠ None)
    | None => false
    end.
Proof.
  unfold prepare_check, find_txn. cbn [fst snd].
  by destruct (_get_txn_tablet_map m t !! (p, t)).
Qed.

(** X12: [prepare_txn] never touches the entry of another tablet, another
    transaction or another partition: every entry but the one of its own
    key and tablet reads the same before and after the call, whatever it
    returns. *)
Theorem prepare_txn_frame cfg now p t tab sh uid lid ing m p' t' ti' :
  wf m →
  ¬ (p' = p ∧ t' = t
     ∧ ti' = {| tablet_id := tab; schema_hash := sh; tablet_uid := uid |}) →
  find_txn p' t' ti' (prepare_txn cfg now p t tab sh uid lid ing m).2
  = find_txn p' t' ti' m.
Proof.
  intros Hwf Hne. unfold prepare_txn.
  destruct (prepare_check _ _ _ _); [done|].
  case_bool_decide; [done|]. cbn [snd].
  rewrite find_txn_insert_partition, find_txn_store by done.
  by rewrite decide_False.
Qed.

Lemma prepare_txn_frame_witness :
  find_txn 1 100 {| tablet_id := 5; schema_hash := 1; tablet_uid := uidA |}
    (prepare_txn (ceiling 100) 2000 1 104 5 1 uidA loadL false
       (mgr (committed 1 1))).2
  = find_txn 1 100 {| tablet_id := 5; schema_hash := 1; tablet_uid := uidA |}
      (mgr (committed 1 1)).
Proof.
  apply (prepare_txn_frame (ceiling 100) 2000 1 104 5 1 uidA loadL false
           (mgr (committed 1 1))).
  - vm_compute. split; [reflexivity|]. split; reflexivity.
  - intros (_ & H & _). discriminate H.
Defined.

(** X13: in every state the ledger reaches, when [prepare_txn] returns OK
    the entry exists ([has_txn] answers true) and the partition is listed
    for the transaction by [get_partition_ids]. *)
Theorem prepare_txn_registers cfg now p t tab sh uid lid ing w :
  reachable w →
  (prepare_txn cfg now p t tab sh uid lid ing (mgr w)).1 = OK →
  has_txn p t tab sh uid (prepare_txn cfg now p t tab sh uid lid ing (mgr w)).2
  = true
  ∧ p ∈ get_partition_ids t
          (prepare_txn cfg now p t tab sh uid lid ing (mgr w)).2.
Proof.
  intros HI%reachable_Inv Hok. revert HI Hok.
  generalize (mgr w). clear w. intros m HI Hok.
  pose proof (prepare_txn_Inv cfg now p t tab sh uid lid ing m HI) as HI'.
  assert (has_txn p t tab sh uid
            (prepare_txn cfg now p t tab sh uid lid ing m).2 = true) as Hhas.
  { rewrite has_txn_find. apply bool_decide_eq_true_2.
    unfold prepare_txn in *. rewrite prepare_check_find in *.
    destruct (find_txn p t _ m) as [info|] eqn:E.
    - destruct (_ && _ && _); cbn [snd]; [by rewrite E|].
      case_bool_decide; [done|]. cbn [snd].
      rewrite find_txn_insert_partition, find_txn_store by apply HI.
      by rewrite decide_True.
    - case_bool_decide; [done|]. cbn [snd].
      rewrite find_txn_insert_partition, find_txn_store by apply HI.
      by rewrite decide_True. }
  split; [done|].
  destruct HI' as [Hwf' Hsh'].
  pose proof (Hsh' _ (shard_index_lt _ t Hwf')) as [_ Hidx].
  unfold has_txn in Hhas. unfold get_partition_ids.
  fold (_get_txn_tablet_map (prepare_txn cfg now p t tab sh uid lid ing m).2 t)
    in Hidx.
  fold (_get_txn_partition_map
          (prepare_txn cfg now p t tab sh uid lid ing m).2 t) in Hidx.
  destruct (_get_txn_tablet_map _ t !! (p, t)) as [tablet_map|] eqn:E;
    [|done].
  destruct (proj2 (Hidx t p)) as (s & Hs & Hin); [by rewrite E|].
  rewrite Hs. by apply elem_of_elements.
Qed.

Lemma prepare_txn_registers_witness :
  has_txn 1 104 5 1 uidA
    (prepare_txn (ceiling 100) 2000 1 104 5 1 uidA loadL false
       (mgr (committed 4 1))).2 = true
  ∧ 1 ∈ get_partition_ids 104
          (prepare_txn (ceiling 100) 2000 1 104 5 1 uidA loadL false
             (mgr (committed 4 1))).2.
Proof.
  apply (prepare_txn_registers (ceiling 100) 2000 1 104 5 1 uidA loadL false
           (committed 4 1)).
  - unfold committed, prepared.
    apply reach_commit, reach_prepare, reach_new. lia.
  - vm_compute. reflexivity.
Defined.

(** X14: below the ceiling, [prepare_txn] on a key and tablet whose entry
    is not a committed one of the same load (no entry, no rowset yet, or
    another load id) returns OK and stores a fresh entry: the load id and
    ingest flag of the call, the clock reading, and a null rowset.  An
    entry committed under another load id loses its rowset pointer. *)
Theorem prepare_txn_fresh_entry cfg now p t tab sh uid lid ing m :
  wf m →
  (∀ info,
     find_txn p t {| tablet_id := tab; schema_hash := sh; tablet_uid := uid |} m
     = Some info →
     rowset info = None ∨ hi (load_id info) ≠ hi lid
     ∨ lo (load_id info) ≠ lo lid) →
  Z.of_nat (size (_get_txn_partition_map m t))
  <= to_uint64 (max_runnings_transactions_per_txn_map cfg) →
  (prepare_txn cfg now p t tab sh uid lid ing m).1 = OK
  ∧ find_txn p t {| tablet_id := tab; schema_hash := sh; tablet_uid := uid |}
      (prepare_txn cfg now p t tab sh uid lid ing m).2
    = Some (mk_TabletTxnInfo now lid None ing).
Proof.
  intros Hwf Hentry Hsize. unfold prepare_txn.
  rewrite prepare_check_find.
  assert (match find_txn p t {| tablet_id := tab; schema_hash := sh;
                                tablet_uid := uid |} m with
          | Some load_info =>
              bool_decide (hi (load_id load_info) = hi lid)
              && bool_decide (lo (load_id load_info) = lo lid)
              && bool_decide (rowset load_info ≠ None)
          | None => false
          end = false) as ->.
  { destruct (find_txn p t _ m) as [info|]; [|done].
    destruct (Hentry info eq_refl) as [H|[H|H]].
    - rewrite (bool_decide_eq_false_2 (rowset info ≠ None)) by (by intros ?).
      by rewrite andb_false_r.
    - by rewrite (bool_decide_eq_false_2 _ H).
    - rewrite (bool_decide_eq_false_2 _ H). by rewrite andb_false_r. }
  rewrite bool_decide_eq_false_2 by lia. cbn [fst snd]. split; [done|].
  rewrite find_txn_insert_partition, find_txn_store by done.
  by rewrite decide_True.
Qed.

Lemma prepare_txn_fresh_entry_witness :
  (prepare_txn (ceiling 100) 2000 1 100 5 1 uidA {| hi := 9; lo := 9 |} false
     (mgr (committed 4 1))).1 = OK
  ∧ find_txn 1 100 {| tablet_id := 5; schema_hash := 1; tablet_uid := uidA |}
      (prepare_txn (ceiling 100) 2000 1 100 5 1 uidA {| hi := 9; lo := 9 |}
         false (mgr (committed 4 1))).2
    = Some (mk_TabletTxnInfo 2000 {| hi := 9; lo := 9 |} None false).
Proof.
  apply (prepare_txn_fresh_entry (ceiling 100) 2000 1 100 5 1 uidA
           {| hi := 9; lo := 9 |} false (mgr (committed 4 1))).
  - vm_compute. split; [reflexivity|]. split; reflexivity.
  - vm_compute. intros info [= <-]. right. left. discriminate.
  - vm_compute. discriminate.
Defined.

(** X15: [rollback_txn] of a tablet whose entry is missing or holds no
    rowset returns OK; afterwards [has_txn] answers false for it, and every
    other entry of the ledger reads as before. *)
Theorem rollback_txn_uncommitted p t tab sh uid m :
  wf m →
  (∀ info,
     find_txn p t {| tablet_id := tab; schema_hash := sh; tablet_uid := uid |} m
     = Some info → rowset info = None) →
  (rollback_txn p t tab sh uid m).1 = OK
  ∧ has_txn p t tab sh uid (rollback_txn p t tab sh uid m).2 = false
  ∧ ∀ p' t' ti',
      ¬ (p' = p ∧ t' = t
         ∧ ti' = {| tablet_id := tab; schema_hash := sh; tablet_uid := uid |}) →
      find_txn p' t' ti' (rollback_txn p t tab sh uid m).2
      = find_txn p' t' ti' m.
Proof.
  intros Hwf Hentry. rewrite has_txn_find. unfold rollback_txn.
  unfold find_txn at 1 in Hentry.
  destruct (_get_txn_tablet_map m t !! (p, t)) as [tablet_map|] eqn:E.
  - cbn in Hentry.
    assert (match tablet_map !! {| tablet_id := tab; schema_hash := sh;
                                   tablet_uid := uid |} with
            | Some load_info => bool_decide (rowset load_info ≠ None)
            | None => false
            end = false) as ->.
    { destruct (tablet_map !! _) as [info|]; [|done].
      apply bool_decide_eq_false_2. rewrite (Hentry info eq_refl). by intros ?. }
    cbn [fst snd]. split; [done|]. split.
    + rewrite find_txn_erase by done. rewrite decide_True by done.
      apply bool_decide_eq_false_2. by intros [? ?].
    + intros p' t' ti' Hne. rewrite find_txn_erase by done.
      by rewrite decide_False.
  - cbn [fst snd]. split; [done|]. split; [|done].
    unfold find_txn. by rewrite E.
Qed.

Lemma rollback_txn_uncommitted_witness :
  (rollback_txn 1 100 5 1 uidA (mgr (prepared 4))).1 = OK
  ∧ has_txn 1 100 5 1 uidA (rollback_txn 1 100 5 1 uidA (mgr (prepared 4))).2
    = false
  ∧ ∀ p' t' ti',
      ¬ (p' = 1 ∧ t' = 100
         ∧ ti' = {| tablet_id := 5; schema_hash := 1; tablet_uid := uidA |}) →
      find_txn p' t' ti' (rollback_txn 1 100 5 1 uidA (mgr (prepared 4))).2
      = find_txn p' t' ti' (mgr (prepared 4)).
Proof.
  apply (rollback_txn_uncommitted 1 100 5 1 uidA (mgr (prepared 4))).
  - vm_compute. split; [reflexivity|]. split; reflexivity.
  - vm_compute. intros info [= <-]. reflexivity.
Defined.

(** ** Commit, publish and delete *)

Lemma commit_check_find (p t : Z) ti lid rp w :
  commit_check (p, t) ti lid rp w
  = match find_txn p t ti (mgr w) with
    | Some load_info =>
        match rowset load_info with
        | Some r =>
            if bool_decide (hi (load_id load_info) = hi lid)
               && bool_decide (lo (load_id load_info) = lo lid)
               && bool_decide (rowset_id (heap w r) = rowset_id (heap w rp))
            then Some OK
            else if bool_decide (hi (load_id load_info) = hi lid)
                    && bool_decide (lo (load_id load_info) = lo lid)
                    && bool_decide (rowset_id (heap w r)
                                    ≠ rowset_id (heap w rp))
            then Some PUSH_TRANSACTION_ALREADY_EXIST
            else None
        | None => None
        end
    | None => None
    end.
Proof.
  unfold commit_check, find_txn. cbn [fst snd].
  by destruct (_get_txn_tablet_map (mgr w) t !! (p, t)).
Qed.

Lemma commit_install_find env p t tab sh uid lid rp rec m :
  wf m →
  ∃ info,
    find_txn p t {| tablet_id := tab; schema_hash := sh; tablet_uid := uid |}
      (commit_install env p t tab sh uid lid rp rec m) = Some info
    ∧ rowset info = Some rp ∧ load_id info = lid
    ∧ creation_time info = commit_now env
    ∧ ∀ p' t' ti',
        ¬ (p' = p ∧ t' = t
           ∧ ti' = {| tablet_id := tab; schema_hash := sh;
                      tablet_uid := uid |}) →
        find_txn p' t' ti' (commit_install env p t tab sh uid lid rp rec m)
        = find_txn p' t' ti' m.
Proof.
  intros Hwf. unfold commit_install.
  match goal with
  | |- context [store_load_info _ _ ?i m] => set (info := i)
  end.
  exists info. rewrite find_txn_insert_partition, find_txn_store by done.
  rewrite decide_True by done. split; [done|].
  assert (rowset info = Some rp ∧ load_id info = lid
          ∧ creation_time info = commit_now env) as (? & ? & ?).
  { unfold info. destruct rec; [|done].
    destruct (commit_get_tablet env tab uid) as [tablet|]; [|done].
    by destruct (enable_unique_key_merge_on_write tablet). }
  repeat split; try done.
  intros p' t' ti' Hne.
  rewrite find_txn_insert_partition, find_txn_store by done.
  by rewrite decide_False.
Qed.

(** X16: [commit_txn] with valid identifiers and a rowset, on a key and
    tablet that hold no rowset yet, returns OK when the rowset meta is saved
    (or in recovery mode, which saves nothing): afterwards the entry holds
    the rowset and the load id of the call, the rowset objects are
    untouched, the only call made is the save of the rowset meta, and every
    other entry reads as before. *)
Theorem commit_txn_installs env meta p t tab sh uid lid rp rec w :
  wf (mgr w) →
  1 <= p → 1 <= t → 1 <= tab →
  (∀ info,
     find_txn p t {| tablet_id := tab; schema_hash := sh; tablet_uid := uid |}
       (mgr w) = Some info → rowset info = None) →
  (rec = false → commit_save env = OK) →
  (commit_txn env meta p t tab sh uid lid (Some rp) rec w).1 = Returns OK
  ∧ (∃ info,
       find_txn p t {| tablet_id := tab; schema_hash := sh; tablet_uid := uid |}
         (mgr (commit_txn env meta p t tab sh uid lid (Some rp) rec w).2)
       = Some info
       ∧ rowset info = Some rp ∧ load_id info = lid)
  ∧ heap (commit_txn env meta p t tab sh uid lid (Some rp) rec w).2 = heap w
  ∧ trace (commit_txn env meta p t tab sh uid lid (Some rp) rec w).2
    = trace w
      ++ (if rec then []
          else [RowsetMetaSave meta uid (rowset_id (heap w rp)) false])
  ∧ ∀ p' t' ti',
      ¬ (p' = p ∧ t' = t
         ∧ ti' = {| tablet_id := tab; schema_hash := sh; tablet_uid := uid |}) →
      find_txn p' t' ti'
        (mgr (commit_txn env meta p t tab sh uid lid (Some rp) rec w).2)
      = find_txn p' t' ti' (mgr w).
Proof.
  intros Hwf Hp Ht Htab Hentry Hsave. unfold commit_txn.
  rewrite bool_decide_eq_false_2 by lia.
  rewrite commit_check_find.
  assert (match find_txn p t {| tablet_id := tab; schema_hash := sh;
                                tablet_uid := uid |} (mgr w) with
          | Some load_info =>
              match rowset load_info with
              | Some r =>
                  if bool_decide (hi (load_id load_info) = hi lid)
                     && bool_decide (lo (load_id load_info) = lo lid)
                     && bool_decide (rowset_id (heap w r)
                                     = rowset_id (heap w rp))
                  then Some OK
                  else if bool_decide (hi (load_id load_info) = hi lid)
                          && bool_decide (lo (load_id load_info) = lo lid)
                          && bool_decide (rowset_id (heap w r)
                                          ≠ rowset_id (heap w rp))
                  then Some PUSH_TRANSACTION_ALREADY_EXIST
                  else None
              | None => None
              end
          | None => None
          end = None) as ->.
  { destruct (find_txn p t _ (mgr w)) as [info0|]; [|done].
    by rewrite (Hentry info0 eq_refl). }
  destruct (commit_install_find env p t tab sh uid lid rp rec (mgr w) Hwf)
    as (info & Hf & Hr & Hl & _ & Hframe).
  destruct rec; cbn [negb andb fst snd].
  - cbn [mgr heap trace set_mgr]. rewrite app_nil_r.
    split; [done|]. split; [by exists info|]. done.
  - rewrite (bool_decide_eq_true_2 _ (Hsave eq_refl)). cbn [negb fst snd].
    cbn [mgr heap trace set_mgr emit].
    split; [done|]. split; [by exists info|]. done.
Qed.

Lemma commit_txn_installs_witness :
  (commit_txn commit_env0 (Some 0%nat) 1 100 5 1 uidA loadL (Some 1%nat) false
     (prepared 4)).1 = Returns OK.
Proof.
  apply (commit_txn_installs commit_env0 (Some 0%nat) 1 100 5 1 uidA loadL
           1%nat false (prepared 4)).
  - vm_compute. split; [reflexivity|]. split; reflexivity.
  - lia.
  - lia.
  - lia.
  - vm_compute. intros info [= <-]. reflexivity.
  - reflexivity.
Defined.

(** X17: a call of [commit_txn] that does not return OK (fatal identifiers,
    null rowset, another rowset already committed under the load id, or a
    failed save of the rowset meta) leaves the ledger maps and the rowset
    objects as they were. *)
Theorem commit_txn_failure_keeps_ledger env meta p t tab sh uid lid rowset_ptr
    rec w :
  (commit_txn env meta p t tab sh uid lid rowset_ptr rec w).1 ≠ Returns OK →
  mgr (commit_txn env meta p t tab sh uid lid rowset_ptr rec w).2 = mgr w
  ∧ heap (commit_txn env meta p t tab sh uid lid rowset_ptr rec w).2 = heap w.
Proof.
  unfold commit_txn. case_bool_decide; [done|].
  destruct rowset_ptr as [rp|]; [|done].
  destruct (commit_check _ _ _ _ _); [done|].
  destruct (negb rec && negb (bool_decide (commit_save env = OK)));
    cbn [fst snd]; [|done].
  intros _. by destruct rec.
Qed.

Lemma commit_txn_failure_keeps_ledger_witness :
  mgr (commit_txn commit_env0 (Some 0%nat) 1 100 5 1 uidA loadL (Some 2%nat)
         false (committed 4 1)).2 = mgr (committed 4 1)
  ∧ heap (commit_txn commit_env0 (Some 0%nat) 1 100 5 1 uidA loadL
            (Some 2%nat) false (committed 4 1)).2 = heap (committed 4 1).
Proof.
  apply (commit_txn_failure_keeps_ledger commit_env0 (Some 0%nat) 1 100 5 1
           uidA loadL (Some 2%nat) false (committed 4 1)).
  vm_compute. discriminate.
Defined.

Lemma publish_entry_find (p t : Z) ti m :
  match _get_txn_tablet_map m t !! (p, t) with
  | Some tablet_map => default default_TabletTxnInfo (tablet_map !! ti)
  | None => default_TabletTxnInfo
  end = default default_TabletTxnInfo (find_txn p t ti m).
Proof. unfold find_txn. by destruct (_get_txn_tablet_map m t !! (p, t)). Qed.

Lemma publish_remove_find p t ti m p' t' ti' :
  wf m →
  find_txn p' t' ti' (publish_remove p t ti m)
  = if decide (p' = p ∧ t' = t ∧ ti' = ti) then None
    else find_txn p' t' ti' m.
Proof.
  intros Hwf. unfold publish_remove.
  destruct (_get_txn_tablet_map m t !! (p, t)) as [tablet_map|] eqn:E.
  - by apply find_txn_erase.
  - case_decide as Hd; [|done]. destruct Hd as (-> & -> & _).
    unfold find_txn. by rewrite E.
Qed.

(** X18: [publish_txn] of a committed entry (without merge-on-write) of a
    known tablet, when the binlog append, if enabled, and the save of the
    rowset meta succeed, returns OK; the rowset object is visible at the
    published version and keeps its id, the other rowset objects are
    untouched, the binlog append (if any) precedes the save, which is the
    last call made, the entry is gone ([has_txn] answers false) and every
    other entry reads as before. *)
Theorem publish_txn_success env meta p t tab sh uid v w tablet info r st w' :
  wf (mgr w) →
  publish_get_tablet env tab = Some tablet →
  find_txn p t {| tablet_id := tab; schema_hash := sh; tablet_uid := uid |}
    (mgr w) = Some info →
  rowset info = Some r →
  unique_key_merge_on_write info = false →
  (is_enable_binlog tablet = true → publish_add_to_binlog env = OK) →
  publish_save env = OK →
  publish_txn env meta p t tab sh uid v w = (st, w') →
  st = Returns OK
  ∧ has_txn p t tab sh uid (mgr w') = false
  ∧ version (heap w' r) = v ∧ visible (heap w' r) = true
  ∧ rowset_id (heap w' r) = rowset_id (heap w r)
  ∧ (∀ l, l ≠ r → heap w' l = heap w l)
  ∧ trace w'
    = trace w
      ++ (if is_enable_binlog tablet then [AddToBinlog r] else [])
      ++ [RowsetMetaSave meta uid (rowset_id (heap w r))
            (is_enable_binlog tablet)]
  ∧ ∀ p' t' ti',
      ¬ (p' = p ∧ t' = t
         ∧ ti' = {| tablet_id := tab; schema_hash := sh; tablet_uid := uid |}) →
      find_txn p' t' ti' (mgr w') = find_txn p' t' ti' (mgr w).
Proof.
  intros Hwf Hget Hfind Hrow Hmow Hbinlog Hsave. unfold publish_txn.
  rewrite Hget, publish_entry_find, Hfind. cbn [from_option id].
  rewrite Hrow. unfold publish_delete_bitmap. rewrite Hmow.
  destruct (is_enable_binlog tablet) eqn:Eb; cbn [andb].
  - rewrite (Hbinlog eq_refl), Hsave. cbn [ok negb].
    rewrite ?bool_decide_eq_true_2 by done. cbn [negb].
    intros [= <- <-]. cbn [mgr heap trace set_mgr emit make_visible].
    rewrite has_txn_find, publish_remove_find by done.
    rewrite !decide_True by done. cbn.
    repeat split; try done.
    + intros l Hl. by rewrite decide_False.
    + by rewrite <- app_assoc.
    + intros p' t' ti' Hne. rewrite publish_remove_find by done.
      by rewrite decide_False.
  - rewrite Hsave. cbn [ok negb].
    rewrite ?bool_decide_eq_true_2 by done. cbn [negb].
    intros [= <- <-]. cbn [mgr heap trace set_mgr emit make_visible].
    rewrite has_txn_find, publish_remove_find by done.
    rewrite !decide_True by done. cbn.
    repeat split; try done.
    + intros l Hl. by rewrite decide_False.
    + intros p' t' ti' Hne. rewrite publish_remove_find by done.
      by rewrite decide_False.
Qed.

Lemma publish_txn_success_witness :
  (publish_txn (publish_env true OK) (Some 0%nat) 1 100 5 1 uidA (2, 2)
     (committed 4 1)).1 = Returns OK.
Proof.
  eapply (publish_txn_success (publish_env true OK) (Some 0%nat) 1 100 5 1 uidA
            (2, 2) (committed 4 1) _
            (mk_TabletTxnInfo 1001 loadL (Some 1%nat) false) 1%nat).
  - vm_compute. split; [reflexivity|]. split; reflexivity.
  - reflexivity.
  - vm_compute. reflexivity.
  - reflexivity.
  - reflexivity.
  - reflexivity.
  - reflexivity.
  - apply surjective_pairing.
Defined.

(** X19: [delete_txn] of an entry that is not published (it holds no
    rowset, or a rowset whose version is not above 0, or the metadata store
    is null) returns OK and removes the entry.  When the entry holds a
    rowset and the store is not null, the rowset meta is removed from the
    store and the rowset handed to [add_unused_rowset], in that order;
    otherwise no call is made.  The rowset objects and every other entry
    are untouched. *)
Theorem delete_txn_unpublished meta p t tab sh uid w info st w' :
  wf (mgr w) →
  find_txn p t {| tablet_id := tab; schema_hash := sh; tablet_uid := uid |}
    (mgr w) = Some info →
  (∀ r, rowset info = Some r → meta ≠ None → (version (heap w r)).1 <= 0) →
  delete_txn meta p t tab sh uid w = (st, w') →
  st = Returns OK
  ∧ has_txn p t tab sh uid (mgr w') = false
  ∧ heap w' = heap w
  ∧ trace w'
    = trace w
      ++ match rowset info, meta with
         | Some r, Some _ =>
             [RowsetMetaRemove meta uid (rowset_id (heap w r));
              AddUnusedRowset r]
         | _, _ => []
         end
  ∧ ∀ p' t' ti',
      ¬ (p' = p ∧ t' = t
         ∧ ti' = {| tablet_id := tab; schema_hash := sh; tablet_uid := uid |}) →
      find_txn p' t' ti' (mgr w') = find_txn p' t' ti' (mgr w).
Proof.
  intros Hwf Hfind Hver. unfold delete_txn. unfold find_txn in Hfind.
  destruct (_get_txn_tablet_map (mgr w) t !! (p, t)) as [tablet_map|] eqn:E;
    [|done].
  cbn in Hfind. rewrite Hfind.
  assert (∀ w1, mgr w1 = mgr w →
            has_txn p t tab sh uid
              (erase_tablet_info (shard_index (mgr w1) t) (p, t)
                 {| tablet_id := tab; schema_hash := sh; tablet_uid := uid |}
                 tablet_map (mgr w1)) = false
            ∧ ∀ p' t' ti',
                ¬ (p' = p ∧ t' = t
                   ∧ ti' = {| tablet_id := tab; schema_hash := sh;
                              tablet_uid := uid |}) →
                find_txn p' t' ti'
                  (erase_tablet_info (shard_index (mgr w1) t) (p, t)
                     {| tablet_id := tab; schema_hash := sh;
                        tablet_uid := uid |} tablet_map (mgr w1))
                = find_txn p' t' ti' (mgr w)) as Herase.
  { intros w1 ->. split.
    - by apply has_txn_erase.
    - intros p' t' ti' Hne. rewrite find_txn_erase by done.
      by rewrite decide_False. }
  destruct (rowset info) as [r|] eqn:Er; [destruct meta as [a|]|].
  - rewrite bool_decide_eq_false_2
      by (pose proof (Hver r eq_refl ltac:(done)); lia).
    intros [= <- <-]. cbn [mgr heap trace set_mgr emit].
    destruct (Herase w eq_refl) as [H1 H2].
    repeat split; try done. by rewrite <- app_assoc.
  - intros [= <- <-]. cbn [mgr heap trace set_mgr].
    destruct (Herase w eq_refl) as [H1 H2].
    repeat split; try done. by rewrite app_nil_r.
  - intros [= <- <-]. cbn [mgr heap trace set_mgr].
    destruct (Herase w eq_refl) as [H1 H2].
    repeat split; try done. by rewrite app_nil_r.
Qed.

Lemma delete_txn_unpublished_witness :
  (delete_txn (Some 0%nat) 1 100 5 1 uidA (committed 4 1)).1 = Returns OK.
Proof.
  eapply (delete_txn_unpublished (Some 0%nat) 1 100 5 1 uidA (committed 4 1)
            (mk_TabletTxnInfo 1001 loadL (Some 1%nat) false)).
  - vm_compute. split; [reflexivity|]. split; reflexivity.
  - vm_compute. reflexivity.
  - intros r [= <-] _. vm_compute. discriminate.
  - apply surjective_pairing.
Defined.

(** X20: [delete_txn] of a tablet that has no entry under the key changes
    no entry, no rowset object and makes no call; in every state the ledger
    reaches it returns OK when the partition is listed for the transaction
    (other tablets hold entries under the key) and TRANSACTION_NOT_EXIST
    otherwise. *)
Theorem delete_txn_absent meta p t tab sh uid w :
  reachable w →
  has_txn p t tab sh uid (mgr w) = false →
  (delete_txn meta p t tab sh uid w).1
  = Returns (if bool_decide (p ∈ get_partition_ids t (mgr w)) then OK
             else TRANSACTION_NOT_EXIST)
  ∧ heap (delete_txn meta p t tab sh uid w).2 = heap w
  ∧ trace (delete_txn meta p t tab sh uid w).2 = trace w
  ∧ ∀ p' t' ti',
      find_txn p' t' ti' (mgr (delete_txn meta p t tab sh uid w).2)
      = find_txn p' t' ti' (mgr w).
Proof.
  intros [Hwf Hsh]%reachable_Inv Hhas.
  pose proof (Hsh _ (shard_index_lt _ t Hwf)) as [_ Hidx].
  fold (_get_txn_tablet_map (mgr w) t) in Hidx.
  fold (_get_txn_partition_map (mgr w) t) in Hidx.
  specialize (Hidx t p).
  unfold delete_txn, get_partition_ids. unfold has_txn in Hhas.
  destruct (_get_txn_tablet_map (mgr w) t !! (p, t)) as [tablet_map|] eqn:E.
  - destruct (proj2 Hidx) as (s & Hs & Hin); [done|].
    rewrite Hs. rewrite bool_decide_eq_true_2 by (by apply elem_of_elements).
    apply bool_decide_eq_false in Hhas.
    destruct (tablet_map !! _) as [info|] eqn:Eti; [by destruct Hhas|].
    cbn [fst snd mgr heap trace set_mgr]. repeat split; try done.
    intros p' t' ti'. rewrite find_txn_erase by done.
    case_decide as Hd; [|done]. destruct Hd as (-> & -> & ->).
    unfold find_txn. rewrite E. cbn. by rewrite Eti.
  - cbn [fst snd]. split; [|done]. f_equal.
    rewrite bool_decide_eq_false_2; [done|].
    destruct (_get_txn_partition_map (mgr w) t !! t) as [s|] eqn:Es;
      [|by intros ?%elem_of_nil].
    intros Hin%elem_of_elements.
    destruct (proj1 Hidx) as [? ?]; [by exists s|done].
Qed.

Lemma delete_txn_absent_witness :
  (delete_txn (Some 0%nat) 1 100 6 1 uidA (committed 4 1)).1
  = Returns (if bool_decide (1 ∈ get_partition_ids 100 (mgr (committed 4 1)))
             then OK else TRANSACTION_NOT_EXIST).
Proof.
  apply (delete_txn_absent (Some 0%nat) 1 100 6 1 uidA (committed 4 1)).
  - unfold committed, prepared.
    apply reach_commit, reach_prepare, reach_new. lia.
  - vm_compute. reflexivity.
Defined.

(** ** Forced rollback of a tablet *)

Lemma entry_at_set_shard i tm m j key ti' :
  (i < length (_txn_tablet_maps m))%nat →
  entry_at j key ti' (set_tablet_shard i tm m)
  = if decide (j = i) then tm !! key ≫= (λ tablet_map, tablet_map !! ti')
    else entry_at j key ti' m.
Proof.
  intros Hi. unfold entry_at, set_tablet_shard. cbn.
  case_decide as He.
  - subst. by rewrite list_lookup_total_insert_eq.
  - by rewrite list_lookup_total_insert_ne.
Qed.

Lemma entry_at_erase i key ti tablet_map m j key' ti' :
  (i < length (_txn_tablet_maps m))%nat →
  (_txn_tablet_maps m !!! i) !! key = Some tablet_map →
  entry_at j key' ti' (erase_tablet_info i key ti tablet_map m)
  = if decide (j = i ∧ key' = key ∧ ti' = ti) then None
    else entry_at j key' ti' m.
Proof.
  intros Hi Hl. unfold erase_tablet_info.
  assert (entry_at j key' ti'
            (if decide (delete ti tablet_map = ∅) then
               _clear_txn_partition_map_unlocked key.2 key.1
                 (set_tablet_shard i (delete key (_txn_tablet_maps m !!! i)) m)
             else
               set_tablet_shard i
                 (<[key := delete ti tablet_map]> (_txn_tablet_maps m !!! i)) m)
          = if decide (j = i) then
              (if decide (delete ti tablet_map = ∅) then
                 delete key (_txn_tablet_maps m !!! i)
               else <[key := delete ti tablet_map]> (_txn_tablet_maps m !!! i))
              !! key' ≫= (λ tablet_map, tablet_map !! ti')
            else entry_at j key' ti' m) as ->.
  { destruct (decide (delete ti tablet_map = ∅)).
    - change (entry_at j key' ti' (_clear_txn_partition_map_unlocked ?a ?b ?c))
        with (entry_at j key' ti' c).
      by rewrite entry_at_set_shard.
    - by rewrite entry_at_set_shard. }
  destruct (decide (j = i)) as [->|Hj].
  - unfold entry_at. destruct (decide (key' = key)) as [->|Hk].
    + rewrite Hl. cbn.
      destruct (decide (delete ti tablet_map = ∅)) as [He|He].
      * rewrite lookup_delete_eq. cbn.
        destruct (decide (i = i ∧ key = key ∧ ti' = ti)) as [?|Hd]; [done|].
        rewrite <- (lookup_delete_ne tablet_map ti ti'), He; [done|].
        intros ->. by apply Hd.
      * rewrite lookup_insert_eq. cbn.
        destruct (decide (i = i ∧ key = key ∧ ti' = ti)) as [(_ & _ & ->)|Hd].
        -- by rewrite lookup_delete_eq.
        -- rewrite lookup_delete_ne; [done|]. intros ->. by apply Hd.
    + rewrite (decide_False (P := i = i ∧ key' = key ∧ ti' = ti))
        by (by intros (_ & ? & _)).
      destruct (decide (delete ti tablet_map = ∅)).
      * by rewrite lookup_delete_ne.
      * by rewrite lookup_insert_ne.
  - rewrite (decide_False (P := j = i ∧ key' = key ∧ ti' = ti)); [done|].
    by intros (? & _).
Qed.

Lemma erase_tablet_info_shape i key ti tablet_map m :
  _txn_map_shard_size (erase_tablet_info i key ti tablet_map m)
  = _txn_map_shard_size m
  ∧ length (_txn_tablet_maps (erase_tablet_info i key ti tablet_map m))
    = length (_txn_tablet_maps m).
Proof.
  unfold erase_tablet_info. case_decide; cbn; by rewrite length_insert.
Qed.

Lemma force_rollback_step_entry meta ti uid i w key j key' ti' :
  (i < length (_txn_tablet_maps (mgr w)))%nat →
  entry_at j key' ti' (mgr (force_rollback_step meta ti uid i w key))
  = if decide (j = i ∧ key' = key ∧ ti' = ti) then None
    else entry_at j key' ti' (mgr w).
Proof.
  intros Hi. unfold force_rollback_step.
  destruct ((_txn_tablet_maps (mgr w) !!! i) !! key) as [tablet_map|] eqn:E.
  - destruct (tablet_map !! ti) as [load_info|] eqn:Eti.
    + cbn [mgr set_mgr].
      assert (∀ w1, mgr w1 = mgr w →
                entry_at j key' ti'
                  (erase_tablet_info i key ti tablet_map (mgr w1))
                = if decide (j = i ∧ key' = key ∧ ti' = ti) then None
                  else entry_at j key' ti' (mgr w)) as H.
      { intros w1 ->. by apply entry_at_erase. }
      apply H. by destruct (rowset load_info), meta.
    + destruct (decide (tablet_map = ∅)) as [->|Hne].
      * cbn [mgr set_mgr].
        change (_txn_tablet_maps
                  (_clear_txn_partition_map_unlocked key.2 key.1 (mgr w)))
          with (_txn_tablet_maps (mgr w)).
        rewrite entry_at_set_shard by done.
        unfold entry_at.
        destruct (decide (j = i)) as [->|Hj].
        -- destruct (decide (key' = key)) as [->|Hk].
           ++ rewrite lookup_delete_eq, E. cbn. rewrite lookup_empty.
              by case_decide.
           ++ rewrite lookup_delete_ne by done.
              rewrite decide_False; [done|]. by intros (_ & ? & _).
        -- rewrite decide_False; [done|]. by intros (? & _).
      * case_decide as Hd; [|done]. destruct Hd as (-> & -> & ->).
        unfold entry_at. rewrite E. cbn. by rewrite Eti.
  - case_decide as Hd; [|done]. destruct Hd as (-> & -> & ->).
    unfold entry_at. by rewrite E.
Qed.

Lemma force_rollback_step_shape meta ti uid i w key :
  _txn_map_shard_size (mgr (force_rollback_step meta ti uid i w key))
  = _txn_map_shard_size (mgr w)
  ∧ length (_txn_tablet_maps (mgr (force_rollback_step meta ti uid i w key)))
    = length (_txn_tablet_maps (mgr w))
  ∧ heap (force_rollback_step meta ti uid i w key) = heap w.
Proof.
  unfold force_rollback_step.
  destruct ((_txn_tablet_maps (mgr w) !!! i) !! key) as [tablet_map|];
    [|done].
  destruct (tablet_map !! ti) as [load_info|].
  - cbn [mgr heap set_mgr].
    destruct (rowset load_info), meta; cbn [mgr heap emit];
      by destruct (erase_tablet_info_shape i key ti tablet_map (mgr w))
        as [-> ->].
  - case_decide; [|done]. cbn. by rewrite length_insert.
Qed.

Lemma force_rollback_steps_entry meta ti uid i keys : ∀ w j key' ti',
  (i < length (_txn_tablet_maps (mgr w)))%nat →
  entry_at j key' ti'
    (mgr (foldl (force_rollback_step meta ti uid i) w keys))
  = (if decide (j = i ∧ key' ∈ keys ∧ ti' = ti) then None
     else entry_at j key' ti' (mgr w))
  ∧ _txn_map_shard_size
      (mgr (foldl (force_rollback_step meta ti uid i) w keys))
    = _txn_map_shard_size (mgr w)
  ∧ length (_txn_tablet_maps
              (mgr (foldl (force_rollback_step meta ti uid i) w keys)))
    = length (_txn_tablet_maps (mgr w))
  ∧ heap (foldl (force_rollback_step meta ti uid i) w keys) = heap w.
Proof.
  induction keys as [|k keys IH]; intros w j key' ti' Hi; cbn [foldl].
  - split; [|done]. rewrite decide_False; [done|].
    intros (_ & H & _). by apply elem_of_nil in H.
  - destruct (force_rollback_step_shape meta ti uid i w k) as (Hs & Hlen & Hh).
    destruct (IH (force_rollback_step meta ti uid i w k) j key' ti')
      as (He & Hs' & Hlen' & Hh'); [by rewrite Hlen|].
    rewrite He, Hs', Hlen', Hh', Hs, Hlen, Hh. split; [|done].
    rewrite force_rollback_step_entry by done.
    destruct (decide (j = i ∧ key' ∈ keys ∧ ti' = ti)) as [(? & ? & ?)|Hn1].
    + rewrite decide_True; [done|]. split; [done|]. split; [|done].
      by apply list_elem_of_further.
    + destruct (decide (j = i ∧ key' = k ∧ ti' = ti)) as [(? & -> & ?)|Hn2].
      * rewrite decide_True; [done|]. split; [done|]. split; [|done].
        apply list_elem_of_here.
      * rewrite decide_False; [done|].
        intros (? & [->|?]%elem_of_cons & ?); [by apply Hn2|by apply Hn1].
Qed.

Lemma force_rollback_shard_entry meta ti uid w i j key' ti' :
  (i < length (_txn_tablet_maps (mgr w)))%nat →
  entry_at j key' ti' (mgr (force_rollback_shard meta ti uid w i))
  = (if decide (j = i ∧ ti' = ti) then None else entry_at j key' ti' (mgr w))
  ∧ _txn_map_shard_size (mgr (force_rollback_shard meta ti uid w i))
    = _txn_map_shard_size (mgr w)
  ∧ length (_txn_tablet_maps (mgr (force_rollback_shard meta ti uid w i)))
    = length (_txn_tablet_maps (mgr w))
  ∧ heap (force_rollback_shard meta ti uid w i) = heap w.
Proof.
  intros Hi. unfold force_rollback_shard.
  destruct (force_rollback_steps_entry meta ti uid i
              (map fst (map_to_list (_txn_tablet_maps (mgr w) !!! i)))
              w j key' ti' Hi) as (He & Hrest).
  split; [|done]. rewrite He.
  destruct (decide (j = i ∧ ti' = ti)) as [[-> ->]|Hn].
  - case_decide as Hd; [done|]. unfold entry_at.
    destruct ((_txn_tablet_maps (mgr w) !!! i) !! key') as [tablet_map|] eqn:E;
      [|done].
    exfalso. apply Hd. split; [done|]. split; [|done].
    apply list_elem_of_fmap. exists (key', tablet_map). split; [done|].
    by apply elem_of_map_to_list.
  - rewrite decide_False; [done|]. intros (? & _ & ?). by apply Hn.
Qed.

Lemma force_rollback_shards_entry meta ti uid (n : nat) : ∀ w j key' ti',
  (n <= length (_txn_tablet_maps (mgr w)))%nat →
  entry_at j key' ti'
    (mgr (foldl (force_rollback_shard meta ti uid) w (seq 0 n)))
  = (if decide ((j < n)%nat ∧ ti' = ti) then None
     else entry_at j key' ti' (mgr w))
  ∧ _txn_map_shard_size
      (mgr (foldl (force_rollback_shard meta ti uid) w (seq 0 n)))
    = _txn_map_shard_size (mgr w)
  ∧ length (_txn_tablet_maps
              (mgr (foldl (force_rollback_shard meta ti uid) w (seq 0 n))))
    = length (_txn_tablet_maps (mgr w))
  ∧ heap (foldl (force_rollback_shard meta ti uid) w (seq 0 n)) = heap w.
Proof.
  induction n as [|n IH]; intros w j key' ti' Hn.
  - cbn. split; [|done]. rewrite decide_False; [done|]. intros [? _]. lia.
  - rewrite seq_S, foldl_app. cbn [foldl Nat.add].
    destruct (IH w j key' ti') as (He & Hs & Hlen & Hh); [lia|].
    destruct (force_rollback_shard_entry meta ti uid
                (foldl (force_rollback_shard meta ti uid) w (seq 0 n))
                n j key' ti') as (He' & Hs' & Hlen' & Hh'); [lia|].
    rewrite He', Hs', Hlen', Hh', He, Hs, Hlen, Hh. split; [|done].
    destruct (decide (j = n ∧ ti' = ti)) as [[-> ->]|Hn1].
    + rewrite decide_True; [done|]. split; [lia|done].
    + destruct (decide ((j < n)%nat ∧ ti' = ti)) as [[? ?]|Hn2].
      * rewrite decide_True; [done|]. split; [lia|done].
      * rewrite decide_False; [done|]. intros [? ?].
        destruct (decide (j = n)); [by apply Hn1|apply Hn2; split; [lia|done]].
Qed.

Lemma find_txn_entry_at p t ti m :
  find_txn p t ti m = entry_at (shard_index m t) (p, t) ti m.
Proof. done. Qed.

(** X21: [force_rollback_tablet_related_txns] removes every entry of the
    tablet, in every partition and transaction, and no entry of another
    tablet; it does not touch the rowset objects. *)
Theorem force_rollback_removes_tablet meta tab sh uid w p t ti' :
  wf (mgr w) →
  find_txn p t ti' (mgr (force_rollback_tablet_related_txns meta tab sh uid w))
  = (if decide (ti' = {| tablet_id := tab; schema_hash := sh;
                         tablet_uid := uid |}) then None
     else find_txn p t ti' (mgr w))
  ∧ heap (force_rollback_tablet_related_txns meta tab sh uid w) = heap w.
Proof.
  intros Hwf. unfold force_rollback_tablet_related_txns.
  set (ti := {| tablet_id := tab; schema_hash := sh; tablet_uid := uid |}).
  pose proof (shard_index_lt (mgr w) t Hwf) as Hlt.
  destruct (force_rollback_shards_entry meta ti uid
              (Z.to_nat (_txn_map_shard_size (mgr w))) w
              (shard_index (mgr w) t) (p, t) ti')
    as (He & Hs & _ & Hh).
  { destruct Hwf as (_ & -> & _). done. }
  split; [|done]. rewrite !find_txn_entry_at.
  unfold shard_index at 1. rewrite Hs. fold (shard_index (mgr w) t).
  rewrite He. destruct (decide (ti' = ti)) as [->|Hne].
  - by rewrite decide_True.
  - rewrite decide_False; [done|]. by intros [_ ?].
Qed.

Lemma force_rollback_removes_tablet_witness :
  find_txn 1 104 {| tablet_id := 5; schema_hash := 1; tablet_uid := uidA |}
    (mgr (force_rollback_tablet_related_txns (Some 0%nat) 5 1 uidA
            two_committed))
  = None.
Proof.
  etrans;
    [apply (force_rollback_removes_tablet (Some 0%nat) 5 1 uidA two_committed
              1 104 {| tablet_id := 5; schema_hash := 1; tablet_uid := uidA |});
     vm_compute; split; [reflexivity|]; split; reflexivity|].
  apply decide_True. reflexivity.
Defined.

(** ** Queries *)

Lemma emplace_fold_lookup (l : list (TabletInfo * TabletTxnInfo)) : ∀ acc ti,
  foldl (λ acc (load_info : TabletInfo * TabletTxnInfo),
           emplace load_info.1 (rowset load_info.2) acc) acc l !! ti
  = match acc !! ti with
    | Some r => Some r
    | None => rowset <$> (list_to_map l : gmap TabletInfo TabletTxnInfo) !! ti
    end.
Proof.
  induction l as [|[k x] l IH]; intros acc ti; cbn [foldl list_to_map foldr].
  - rewrite lookup_empty. by destruct (acc !! ti).
  - rewrite IH. unfold emplace. cbn [fst snd].
    destruct (decide (ti = k)) as [->|Hne].
    + rewrite lookup_insert_eq.
      destruct (acc !! k) as [r|] eqn:E; [by rewrite E|].
      by rewrite lookup_insert_eq.
    + rewrite (lookup_insert_ne (list_to_map l)) by done.
      destruct (acc !! k) as [r|] eqn:E; [done|].
      by rewrite lookup_insert_ne.
Qed.

(** X22: [get_txn_related_tablets] adds to the output map, for every tablet
    that has an entry under the key, the rowset pointer of the entry (null
    for an entry that is only prepared); a tablet already in the output map
    keeps the pointer it had. *)
Theorem get_txn_related_tablets_lookup t p tablet_infos m ti :
  get_txn_related_tablets t p tablet_infos m !! ti
  = match tablet_infos !! ti with
    | Some r => Some r
    | None => rowset <$> find_txn p t ti m
    end.
Proof.
  unfold get_txn_related_tablets, find_txn.
  destruct (_get_txn_tablet_map m t !! (p, t)) as [load_info_map|]; cbn.
  - rewrite emplace_fold_lookup. by rewrite list_to_map_to_list.
  - by destruct (tablet_infos !! ti).
Qed.

Lemma foldl_bind {A B C} (g : A → C → A) (L : B → list C) (xs : list B) : ∀ a,
  foldl (λ acc x, foldl g acc (L x)) a xs = foldl g a (xs ≫= L).
Proof.
  induction xs as [|x xs IH]; intros a; [done|].
  cbn [foldl]. rewrite IH. csimpl. by rewrite foldl_app.
Qed.

Lemma shard_entries_elem m (n : nat) key tablet_map :
  (key, tablet_map)
    ∈ seq 0 n ≫= (λ i, map_to_list (_txn_tablet_maps m !!! i))
  ↔ ∃ i, (i < n)%nat ∧ (_txn_tablet_maps m !!! i) !! key = Some tablet_map.
Proof.
  rewrite list_elem_of_bind. split.
  - intros (i & Hin & Hi). exists i. apply elem_of_seq in Hi.
    split; [lia|]. by apply elem_of_map_to_list.
  - intros (i & Hi & Hl). exists i. split.
    + by apply elem_of_map_to_list.
    + apply elem_of_seq. lia.
Qed.

Lemma Inv_entries m p t tablet_map :
  Inv m →
  (∃ i, (i < Z.to_nat (_txn_map_shard_size m))%nat
        ∧ (_txn_tablet_maps m !!! i) !! (p, t) = Some tablet_map)
  ↔ _get_txn_tablet_map m t !! (p, t) = Some tablet_map.
Proof.
  intros [Hwf Hsh]. split.
  - intros (i & Hi & Hl). destruct (Hsh i Hi) as [Hk _].
    destruct (Hk _ _ _ Hl) as (<- & _). done.
  - intros Hl. exists (shard_index m t). split; [|done].
    by apply shard_index_lt.
Qed.

Lemma related_fold_spec ti (l : list (TxnKey * gmap TabletInfo TabletTxnInfo)) :
  ∀ acc : TPartitionId * gset TTransactionId,
  (∀ t, t ∈ (foldl (λ acc (it : TxnKey * gmap TabletInfo TabletTxnInfo),
                      if bool_decide (is_Some (it.2 !! ti)) then
                        (it.1.1, {[it.1.2]} ∪ acc.2)
                      else acc) acc l).2
        ↔ t ∈ acc.2
          ∨ ∃ p tablet_map, ((p, t), tablet_map) ∈ l
                            ∧ is_Some (tablet_map !! ti))
  ∧ (((foldl (λ acc (it : TxnKey * gmap TabletInfo TabletTxnInfo),
                if bool_decide (is_Some (it.2 !! ti)) then
                  (it.1.1, {[it.1.2]} ∪ acc.2)
                else acc) acc l).1 = acc.1
      ∧ ∀ key tablet_map, (key, tablet_map) ∈ l → tablet_map !! ti = None)
     ∨ ∃ t tablet_map,
         (((foldl (λ acc (it : TxnKey * gmap TabletInfo TabletTxnInfo),
                     if bool_decide (is_Some (it.2 !! ti)) then
                       (it.1.1, {[it.1.2]} ∪ acc.2)
                     else acc) acc l).1, t), tablet_map) ∈ l
         ∧ is_Some (tablet_map !! ti)).
Proof.
  induction l as [|[[p0 t0] tm0] l IH]; intros acc; cbn [foldl fst snd].
  - split.
    + intros t. split; [by left|]. intros [?|(? & ? & H & _)]; [done|].
      by apply elem_of_nil in H.
    + left. split; [done|]. intros key tablet_map H. by apply elem_of_nil in H.
  - match goal with
    | |- context [foldl ?g ?a l] => destruct (IH a) as [Hids Hp]
    end.
    split.
    + intros t. rewrite Hids. case_bool_decide as Hb; cbn [snd].
      * rewrite elem_of_union, elem_of_singleton. split.
        -- intros [[->|?]|(p & tablet_map & Hin & Hs)].
           ++ right. exists p0, tm0. split; [apply list_elem_of_here|done].
           ++ by left.
           ++ right. exists p, tablet_map.
              split; [by apply list_elem_of_further|done].
        -- intros [?|(p & tablet_map & [Heq|Hin]%elem_of_cons & Hs)].
           ++ left. by right.
           ++ injection Heq as -> -> ->. left. by left.
           ++ right. by exists p, tablet_map.
      * split.
        -- intros [?|(p & tablet_map & Hin & Hs)]; [by left|].
           right. exists p, tablet_map.
           split; [by apply list_elem_of_further|done].
        -- intros [?|(p & tablet_map & [Heq|Hin]%elem_of_cons & Hs)].
           ++ by left.
           ++ injection Heq as -> -> ->. done.
           ++ right. by exists p, tablet_map.
    + destruct Hp as [[Heq Hnone]|(t & tablet_map & Hin & Hs)].
      * case_bool_decide as Hb; cbn [fst] in Heq.
        -- right. exists t0, tm0. rewrite Heq.
           split; [apply list_elem_of_here|done].
        -- left. split; [done|].
           intros key tablet_map [[= -> ->]|Hin]%elem_of_cons.
           ++ by apply eq_None_not_Some.
           ++ by eapply Hnone.
      * right. exists t, tablet_map.
        split; [by apply list_elem_of_further|done].
Qed.

(** X23: in every state the ledger reaches, [get_tablet_related_txns]
    (called with two non-null output pointers) adds to the output set
    exactly the transactions under which the tablet has an entry; the
    partition it reports is the partition of one of those entries, or the
    value the caller passed when the tablet has no entry at all. *)
Theorem get_tablet_related_txns_spec w tab sh uid p0 ids0 p' ids' :
  reachable w →
  get_tablet_related_txns tab sh uid (Some p0) (Some ids0) (mgr w)
  = (Some p', Some ids') →
  (∀ t, t ∈ ids' ↔ t ∈ ids0 ∨ ∃ p, has_txn p t tab sh uid (mgr w) = true)
  ∧ ((p' = p0 ∧ ∀ p t, has_txn p t tab sh uid (mgr w) = false)
     ∨ ∃ t, has_txn p' t tab sh uid (mgr w) = true).
Proof.
  intros HI%reachable_Inv. unfold get_tablet_related_txns.
  unfold related_txns_shard.
  rewrite (foldl_bind _ (λ i, map_to_list (_txn_tablet_maps (mgr w) !!! i))).
  match goal with
  | |- context [foldl ?g ?a ?l] =>
      destruct (related_fold_spec
                  {| tablet_id := tab; schema_hash := sh; tablet_uid := uid |}
                  l a) as [Hids Hp]
  end.
  intros [= <- <-].
  assert (∀ p t,
            has_txn p t tab sh uid (mgr w) = true
            ↔ ∃ tablet_map : gmap TabletInfo TabletTxnInfo,
                ((p, t), tablet_map)
                  ∈ seq 0 (Z.to_nat (_txn_map_shard_size (mgr w)))
                    ≫= (λ i, map_to_list (_txn_tablet_maps (mgr w) !!! i))
                ∧ is_Some (tablet_map !! {| tablet_id := tab;
                                            schema_hash := sh;
                                            tablet_uid := uid |})) as Hhas.
  { intros p t. unfold has_txn. split.
    - destruct (_get_txn_tablet_map (mgr w) t !! (p, t)) as [tm|] eqn:E;
        [|done].
      intros Hs%bool_decide_eq_true. exists tm. split; [|done].
      apply shard_entries_elem. by apply Inv_entries.
    - intros (tm & Hin%shard_entries_elem & Hs).
      apply Inv_entries in Hin; [|done]. rewrite Hin.
      by apply bool_decide_eq_true_2. }
  split.
  - intros t. rewrite Hids. cbn [snd]. split.
    + intros [?|(p & tm & Hin & Hs)]; [by left|].
      right. exists p. apply Hhas. by exists tm.
    + intros [?|(p & (tm & Hin & Hs)%Hhas)]; [by left|].
      right. by exists p, tm.
  - destruct Hp as [[Heq Hnone]|(t & tm & Hin & Hs)].
    + left. split; [done|]. intros p t.
      destruct (has_txn p t tab sh uid (mgr w)) eqn:E; [|done].
      apply Hhas in E as (tm & Hin & Hs).
      rewrite (Hnone _ _ Hin) in Hs. by destruct Hs.
    + right. exists t. apply Hhas. by exists tm.
Qed.

Lemma get_tablet_related_txns_spec_witness :
  (∀ t, t ∈ ({[100; 104]} : gset Z)
        ↔ t ∈ (∅ : gset Z) ∨ ∃ p, has_txn p t 5 1 uidA (mgr two_committed) = true)
  ∧ ((1 = 0 ∧ ∀ p t, has_txn p t 5 1 uidA (mgr two_committed) = false)
     ∨ ∃ t, has_txn 1 t 5 1 uidA (mgr two_committed) = true).
Proof.
  apply (get_tablet_related_txns_spec two_committed 5 1 uidA 0 ∅ 1
           {[100; 104]}).
  - unfold two_committed, committed, prepared.
    apply reach_commit, reach_commit, reach_prepare, reach_new. lia.
  - vm_compute. reflexivity.
Defined.

Lemma insert_fold_elem (l : list (TabletInfo * TabletTxnInfo)) :
  ∀ (acc : gset TabletInfo) ti,
  ti ∈ foldl (λ acc (tablet_load_it : TabletInfo * TabletTxnInfo),
                {[tablet_load_it.1]} ∪ acc) acc l
  ↔ ti ∈ acc ∨ ∃ info, (ti, info) ∈ l.
Proof.
  induction l as [|[k x] l IH]; intros acc ti; cbn [foldl fst].
  - split; [by left|]. intros [?|[? H]]; [done|]. by apply elem_of_nil in H.
  - rewrite IH, elem_of_union, elem_of_singleton. split.
    + intros [[->|?]|[info Hin]].
      * right. exists x. apply list_elem_of_here.
      * by left.
      * right. exists info. by apply list_elem_of_further.
    + intros [?|[info [[= -> ->]|Hin]%elem_of_cons]].
      * left. by right.
      * left. by left.
      * right. by exists info.
Qed.

Lemma all_tablets_fold_elem
    (l : list (TxnKey * gmap TabletInfo TabletTxnInfo)) :
  ∀ (acc : gset TabletInfo) ti,
  ti ∈ foldl (λ acc (it : TxnKey * gmap TabletInfo TabletTxnInfo),
                foldl (λ acc (tablet_load_it : TabletInfo * TabletTxnInfo),
                         {[tablet_load_it.1]} ∪ acc)
                  acc (map_to_list it.2)) acc l
  ↔ ti ∈ acc
    ∨ ∃ key (tablet_map : gmap TabletInfo TabletTxnInfo),
        (key, tablet_map) ∈ l ∧ is_Some (tablet_map !! ti).
Proof.
  induction l as [|[k tm] l IH]; intros acc ti; cbn [foldl snd].
  - split; [by left|]. intros [?|(? & ? & H & _)]; [done|].
    by apply elem_of_nil in H.
  - rewrite IH, insert_fold_elem. split.
    + intros [[?|[info Hin%elem_of_map_to_list]]|(key & tablet_map & Hin & Hs)].
      * by left.
      * right. exists k, tm. split; [apply list_elem_of_here|by exists info].
      * right. exists key, tablet_map.
        split; [by apply list_elem_of_further|done].
    + intros [?|(key & tablet_map & [[= -> ->]|Hin]%elem_of_cons & Hs)].
      * left. by left.
      * left. right. destruct Hs as [info Hs]. exists info.
        by apply elem_of_map_to_list.
      * right. by exists key, tablet_map.
Qed.

(** X24: in every state the ledger reaches, [get_all_related_tablets] adds
    to the output set exactly the tablets that have an entry under some
    partition and transaction. *)
Theorem get_all_related_tablets_spec w tablet_infos ti :
  reachable w →
  ti ∈ get_all_related_tablets tablet_infos (mgr w)
  ↔ ti ∈ tablet_infos ∨ ∃ p t, is_Some (find_txn p t ti (mgr w)).
Proof.
  intros HI%reachable_Inv. unfold get_all_related_tablets.
  rewrite (foldl_bind _ (λ i, map_to_list (_txn_tablet_maps (mgr w) !!! i))).
  rewrite all_tablets_fold_elem. split.
  - intros [?|([p t] & tablet_map & Hin%shard_entries_elem & Hs)]; [by left|].
    right. exists p, t. apply Inv_entries in Hin; [|done].
    unfold find_txn. by rewrite Hin.
  - intros [?|(p & t & Hs)]; [by left|]. right. unfold find_txn in Hs.
    destruct (_get_txn_tablet_map (mgr w) t !! (p, t)) as [tablet_map|] eqn:E;
      [|by destruct Hs].
    exists (p, t), tablet_map. split; [|done].
    apply shard_entries_elem. by apply Inv_entries.
Qed.

Lemma get_all_related_tablets_spec_witness :
  {| tablet_id := 5; schema_hash := 1; tablet_uid := uidA |}
    ∈ get_all_related_tablets ∅ (mgr two_committed)
  ↔ {| tablet_id := 5; schema_hash := 1; tablet_uid := uidA |}
      ∈ (∅ : gset TabletInfo)
    ∨ ∃ p t, is_Some (find_txn p t {| tablet_id := 5; schema_hash := 1;
                                      tablet_uid := uidA |}
                        (mgr two_committed)).
Proof.
  apply (get_all_related_tablets_spec two_committed).
  unfold two_committed, committed, prepared.
  apply reach_commit, reach_commit, reach_prepare, reach_new. lia.
Defined.

(** X25: in every state the ledger reaches, [get_partition_ids] lists a
    partition for a transaction exactly when some tablet has an entry under
    that partition and transaction. *)
Theorem get_partition_ids_spec w p t :
  reachable w →
  p ∈ get_partition_ids t (mgr w)
  ↔ ∃ tab sh uid, has_txn p t tab sh uid (mgr w) = true.
Proof.
  intros [Hwf Hsh]%reachable_Inv.
  pose proof (Hsh _ (shard_index_lt _ t Hwf)) as [Hk Hidx].
  fold (_get_txn_tablet_map (mgr w) t) in Hk, Hidx.
  fold (_get_txn_partition_map (mgr w) t) in Hidx.
  specialize (Hidx t p). unfold get_partition_ids, has_txn. split.
  - intros Hin.
    destruct (_get_txn_partition_map (mgr w) t !! t) as [s|] eqn:Es;
      [|by apply elem_of_nil in Hin].
    apply elem_of_elements in Hin.
    destruct (proj1 Hidx) as [tablet_map Hl]; [by exists s|].
    destruct (Hk _ _ _ Hl) as (_ & Hne & _).
    apply map_choose in Hne as ([tab sh uid] & info & Hti).
    exists tab, sh, uid. rewrite Hl. apply bool_decide_eq_true_2.
    by exists info.
  - intros (tab & sh & uid & Hhas).
    destruct (_get_txn_tablet_map (mgr w) t !! (p, t)) as [tablet_map|] eqn:E;
      [|done].
    destruct (proj2 Hidx) as (s & Hs & Hin); [done|].
    rewrite Hs. by apply elem_of_elements.
Qed.

Lemma get_partition_ids_spec_witness :
  1 ∈ get_partition_ids 100 (mgr (committed 4 1))
  ↔ ∃ tab sh uid, has_txn 1 100 tab sh uid (mgr (committed 4 1)) = true.
Proof.
  apply (get_partition_ids_spec (committed 4 1)).
  unfold committed, prepared.
  apply reach_commit, reach_prepare, reach_new. lia.
Defined.

(** ** Merge-on-write information of an entry *)

(** X26: [set_txn_related_delete_bitmap] on an existing entry rewrites the
    merge-on-write flag, the delete bitmap and the rowset ids of that entry
    and nothing else: its load id, rowset and creation time stay, and every
    other entry reads as before. *)
Theorem set_txn_related_delete_bitmap_entry p t tab sh uid mow bm ids m info :
  wf m →
  find_txn p t {| tablet_id := tab; schema_hash := sh; tablet_uid := uid |} m
  = Some info →
  ∃ m',
    set_txn_related_delete_bitmap p t tab sh uid mow bm ids m = Some m'
    ∧ find_txn p t {| tablet_id := tab; schema_hash := sh; tablet_uid := uid |}
        m'
      = Some {| load_id := load_id info;
                rowset := rowset info;
                unique_key_merge_on_write := mow;
                delete_bitmap := bm;
                rowset_ids := ids;
                creation_time := creation_time info;
                ingest := ingest info |}
    ∧ ∀ p' t' ti',
        ¬ (p' = p ∧ t' = t
           ∧ ti' = {| tablet_id := tab; schema_hash := sh;
                      tablet_uid := uid |}) →
        find_txn p' t' ti' m' = find_txn p' t' ti' m.
Proof.
  intros Hwf Hfind. unfold set_txn_related_delete_bitmap.
  unfold find_txn in Hfind.
  destruct (_get_txn_tablet_map m t !! (p, t)) as [tablet_map|] eqn:E;
    [|done].
  cbn in Hfind. rewrite Hfind. eexists. split; [done|].
  pose proof (wf_index_lt m t Hwf) as Hi. split.
  - unfold find_txn. rewrite get_tablet_map_set_shard by done.
    rewrite decide_True by done. rewrite lookup_insert_eq. cbn.
    by rewrite lookup_insert_eq.
  - intros p' t' ti' Hne. unfold find_txn.
    rewrite get_tablet_map_set_shard by done.
    destruct (decide (shard_index m t' = shard_index m t)) as [Hs|Hs]; [|done].
    assert (_get_txn_tablet_map m t' = _get_txn_tablet_map m t) as Heq.
    { unfold _get_txn_tablet_map. by rewrite Hs. }
    rewrite Heq.
    destruct (decide ((p', t') = (p, t))) as [[= -> ->]|Hk].
    + rewrite lookup_insert_eq, E. cbn.
      rewrite lookup_insert_ne; [done|]. intros <-. by apply Hne.
    + by rewrite lookup_insert_ne.
Qed.

Lemma set_txn_related_delete_bitmap_entry_witness :
  ∃ m',
    set_txn_related_delete_bitmap 1 100 5 1 uidA true (Some 5) {[1]}
      (mgr (committed 4 1)) = Some m'
    ∧ find_txn 1 100 {| tablet_id := 5; schema_hash := 1; tablet_uid := uidA |}
        m'
      = Some {| load_id := loadL;
                rowset := Some 1%nat;
                unique_key_merge_on_write := true;
                delete_bitmap := Some 5;
                rowset_ids := {[1]};
                creation_time := 1001;
                ingest := false |}
    ∧ ∀ p' t' ti',
        ¬ (p' = 1 ∧ t' = 100
           ∧ ti' = {| tablet_id := 5; schema_hash := 1; tablet_uid := uidA |}) →
        find_txn p' t' ti' m' = find_txn p' t' ti' (mgr (committed 4 1)).
Proof.
  apply (set_txn_related_delete_bitmap_entry 1 100 5 1 uidA true (Some 5) {[1]}
           (mgr (committed 4 1))
           (mk_TabletTxnInfo 1001 loadL (Some 1%nat) false)).
  - vm_compute. split; [reflexivity|]. split; reflexivity.
  - vm_compute. reflexivity.
Defined.

(** ** The registry of delta writers *)

Lemma registry_index_lt g t :
  registry_wf g →
  (registry_index g t < length (_txn_tablet_delta_writer_map g))%nat.
Proof.
  intros [HS ->]. unfold registry_index.
  pose proof (Z.mod_pos_bound t (registry_shard_size g) HS).
  apply Z2Nat.inj_lt; lia.
Qed.

Lemma get_writer_map_set_shard g t dm t' :
  registry_wf g →
  _get_txn_tablet_delta_writer_map (set_registry_shard t dm g) t'
  = if decide (registry_index g t' = registry_index g t) then dm
    else _get_txn_tablet_delta_writer_map g t'.
Proof.
  intros Hwf. pose proof (registry_index_lt g t Hwf).
  unfold _get_txn_tablet_delta_writer_map, set_registry_shard, registry_index.
  cbn. case_decide as He.
  - rewrite He. by apply list_lookup_total_insert_eq.
  - by apply list_lookup_total_insert_ne.
Qed.

Lemma find_delta_writer_add t tab dw g t' tab' :
  registry_wf g →
  find_delta_writer t' tab' (add_txn_tablet_delta_writer t tab dw g)
  = if decide (t' = t ∧ tab' = tab) then Some dw
    else find_delta_writer t' tab' g.
Proof.
  intros Hwf. unfold find_delta_writer, add_txn_tablet_delta_writer.
  rewrite get_writer_map_set_shard by done.
  destruct (decide (registry_index g t' = registry_index g t)) as [Hs|Hs].
  - assert (_get_txn_tablet_delta_writer_map g t'
            = _get_txn_tablet_delta_writer_map g t) as ->.
    { unfold _get_txn_tablet_delta_writer_map. by rewrite Hs. }
    destruct (decide (t' = t)) as [->|Ht].
    + rewrite lookup_insert_eq. cbn.
      destruct (decide (tab' = tab)) as [->|Htab].
      * rewrite lookup_insert_eq. by rewrite decide_True.
      * rewrite lookup_insert_ne by done.
        rewrite decide_False by (by intros [_ ?]).
        destruct (_get_txn_tablet_delta_writer_map g t !! t) as [writers|]
          eqn:E; cbn.
        -- by rewrite E.
        -- by rewrite lookup_insert_eq.
    + rewrite lookup_insert_ne by done.
      rewrite decide_False by (by intros [? _]).
      destruct (_get_txn_tablet_delta_writer_map g t !! t); [done|].
      by rewrite lookup_insert_ne.
  - rewrite decide_False; [done|]. intros [-> _]. done.
Qed.

(** X27: [add_txn_tablet_delta_writer] registers the writer for the tablet
    of the transaction, replacing the one registered before for that
    tablet, and keeps every other registration, of the transaction and of
    the other transactions. *)
Theorem add_txn_tablet_delta_writer_lookup t tab dw g t' tab' :
  registry_wf g →
  find_delta_writer t' tab' (add_txn_tablet_delta_writer t tab dw g)
  = if decide (t' = t ∧ tab' = tab) then Some dw
    else find_delta_writer t' tab' g.
Proof. apply find_delta_writer_add. Qed.

Lemma add_txn_tablet_delta_writer_lookup_witness :
  find_delta_writer 100 5
    (add_txn_tablet_delta_writer 100 5 8%nat
       (add_txn_tablet_delta_writer 100 5 7%nat (new_DeltaWriterRegistry 4)))
  = Some 8%nat.
Proof.
  etrans;
    [apply (add_txn_tablet_delta_writer_lookup 100 5 8%nat
              (add_txn_tablet_delta_writer 100 5 7%nat
                 (new_DeltaWriterRegistry 4)) 100 5);
     vm_compute; split; reflexivity|].
  apply decide_True. split; reflexivity.
Defined.

Lemma finish_calls t tab node ok g :
  writer_calls (finish_slave_tablet_pull_rowset t tab node ok g)
  = writer_calls g
    ++ match find_delta_writer t tab g with
       | Some delta_writer => [(delta_writer, node, ok)]
       | None => []
       end.
Proof.
  unfold finish_slave_tablet_pull_rowset, find_delta_writer.
  destruct (_get_txn_tablet_delta_writer_map g t !! t) as [writers|]; cbn.
  - destruct (writers !! tab); [done|]. by rewrite app_nil_r.
  - by rewrite app_nil_r.
Qed.

(** X28: after a writer was registered for a tablet of a transaction,
    [finish_slave_tablet_pull_rowset] for that tablet calls that writer,
    once, with the node id and the flag it was given. *)
Theorem finish_after_add_calls_writer t tab dw node ok g :
  registry_wf g →
  writer_calls (finish_slave_tablet_pull_rowset t tab node ok
                  (add_txn_tablet_delta_writer t tab dw g))
  = writer_calls g ++ [(dw, node, ok)].
Proof.
  intros Hwf. rewrite finish_calls, find_delta_writer_add by done.
  by rewrite decide_True.
Qed.

Lemma finish_after_add_calls_writer_witness :
  writer_calls (finish_slave_tablet_pull_rowset 100 5 3 true
                  (add_txn_tablet_delta_writer 100 5 7%nat
                     (new_DeltaWriterRegistry 4)))
  = writer_calls (new_DeltaWriterRegistry 4) ++ [(7%nat, 3, true)].
Proof.
  apply (finish_after_add_calls_writer 100 5 7%nat 3 true
           (new_DeltaWriterRegistry 4)).
  vm_compute. split; reflexivity.
Defined.

(** X29: [clear_txn_tablet_delta_writer] drops the writers of every tablet
    of the transaction and keeps those of the other transactions, also of
    the ones that share its shard; a later
    [finish_slave_tablet_pull_rowset] for the transaction calls no
    writer. *)
Theorem clear_txn_tablet_delta_writer_lookup t g t' tab' node ok :
  registry_wf g →
  find_delta_writer t' tab' (clear_txn_tablet_delta_writer t g)
  = (if decide (t' = t) then None else find_delta_writer t' tab' g)
  ∧ writer_calls (finish_slave_tablet_pull_rowset t tab' node ok
                    (clear_txn_tablet_delta_writer t g))
    = writer_calls g.
Proof.
  intros Hwf.
  assert (∀ t' tab',
            find_delta_writer t' tab' (clear_txn_tablet_delta_writer t g)
            = if decide (t' = t) then None else find_delta_writer t' tab' g)
    as Hfind.
  { clear t' tab'. intros t' tab'.
    unfold find_delta_writer, clear_txn_tablet_delta_writer.
    destruct (_get_txn_tablet_delta_writer_map g t !! t) as [writers|] eqn:E.
    - rewrite get_writer_map_set_shard by done.
      destruct (decide (registry_index g t' = registry_index g t)) as [Hs|Hs].
      + assert (_get_txn_tablet_delta_writer_map g t'
                = _get_txn_tablet_delta_writer_map g t) as Heq.
        { unfold _get_txn_tablet_delta_writer_map. by rewrite Hs. }
        rewrite Heq. destruct (decide (t' = t)) as [->|Ht].
        * by rewrite lookup_delete_eq.
        * by rewrite lookup_delete_ne.
      + rewrite decide_False; [done|]. by intros ->.
    - destruct (decide (t' = t)) as [->|Ht]; [|done]. by rewrite E. }
  split; [apply Hfind|].
  rewrite finish_calls, Hfind, decide_True by done.
  rewrite app_nil_r. unfold clear_txn_tablet_delta_writer.
  by destruct (_get_txn_tablet_delta_writer_map g t !! t).
Qed.

Lemma clear_txn_tablet_delta_writer_lookup_witness :
  find_delta_writer 104 5
    (clear_txn_tablet_delta_writer 100
       (add_txn_tablet_delta_writer 104 5 8%nat
          (add_txn_tablet_delta_writer 100 5 7%nat
             (new_DeltaWriterRegistry 4))))
  = (if decide (104 = 100) then None
     else find_delta_writer 104 5
            (add_txn_tablet_delta_writer 104 5 8%nat
               (add_txn_tablet_delta_writer 100 5 7%nat
                  (new_DeltaWriterRegistry 4))))
  ∧ writer_calls
      (finish_slave_tablet_pull_rowset 100 5 3 true
         (clear_txn_tablet_delta_writer 100
            (add_txn_tablet_delta_writer 104 5 8%nat
               (add_txn_tablet_delta_writer 100 5 7%nat
                  (new_DeltaWriterRegistry 4)))))
    = writer_calls
        (add_txn_tablet_delta_writer 104 5 8%nat
           (add_txn_tablet_delta_writer 100 5 7%nat
              (new_DeltaWriterRegistry 4))).
Proof.
  apply (clear_txn_tablet_delta_writer_lookup 100
           (add_txn_tablet_delta_writer 104 5 8%nat
              (add_txn_tablet_delta_writer 100 5 7%nat
                 (new_DeltaWriterRegistry 4))) 104 5 3 true).
  vm_compute. split; reflexivity.
Defined.

End LedgerExtra.
